(** * Ook bridge: the process manager and the bridge server

    A shallow embedding of [bridge/src/process.ts] (class [ProcessManager])
    and [bridge/src/server.ts] (class [BridgeServer]).  Both classes are
    event driven: every callback runs to completion on the JavaScript event
    loop, so a callback is a function from the state of the objects it can
    reach to their next state, and the environment is a sequence of events.

    What is outside the repository is kept abstract or recorded as calls:
    - [JSON.parse] and [process.env] are variables of the model;
    - the OpenTelemetry counters, histograms and spans are a log of the
      calls made on them;
    - a [ws] socket is its [readyState] plus the [close] and [send] calls
      made on it; a child process is its pipes, exit code, the signals sent
      to it and the lines written to its standard input;
    - calls of the logger are diagnostics only and are left out. *)

From Stdlib Require Import ZArith NArith List String Ascii Bool Lia.
From Stdlib Require Import Floats.SpecFloat.
From stdpp Require Import base decidable option numbers list.
Import ListNotations.

Local Set Warnings "-register-all".
Local Open Scope Z_scope.
Local Open Scope list_scope.

(* ===================================================================== *)
(** * JavaScript values                                                    *)
(* ===================================================================== *)

Module Js.

(** A JavaScript string is a sequence of UTF-16 code units. *)
Definition JsString : Type := list N.

(** The code units of a literal written in ASCII. *)
Definition js (s : string) : JsString :=
  map N_of_ascii (list_ascii_of_string s).

(** ["\n"] *)
Definition LF : JsString := [10%N].

(** [s.endsWith(t)] *)
Definition endsWith (s t : JsString) : bool :=
  bool_decide (drop (length s - length t) s = t).

(** The code units [String.prototype.trim] strips: ECMAScript WhiteSpace
    (TAB, VT, FF, SP, NBSP, ZWNBSP and the category Zs) and LineTerminator
    (LF, CR, LS, PS).  All of them lie in the basic multilingual plane. *)
Definition isWhiteSpace (c : N) : bool :=
  match c with
  | 9 | 10 | 11 | 12 | 13 | 32 | 160 | 5760
  | 8192 | 8193 | 8194 | 8195 | 8196 | 8197 | 8198 | 8199 | 8200 | 8201
  | 8202 | 8232 | 8233 | 8239 | 8287 | 12288 | 65279 => true
  | _ => false
  end%N.

Fixpoint trimStart (s : JsString) : JsString :=
  match s with
  | c :: s' => if isWhiteSpace c then trimStart s' else s
  | [] => []
  end.

Definition trimEnd (s : JsString) : JsString := rev (trimStart (rev s)).

(** [s.trim()] *)
Definition trim (s : JsString) : JsString := trimEnd (trimStart s).

(** What [JSON.parse] returns.  A number is an IEEE 754 double.  [JObj]
    lists the own properties of the parsed object, each key once. *)
Inductive JValue : Type :=
| JNull
| JBool (b : bool)
| JNum (n : spec_float)
| JStr (s : JsString)
| JArr (items : list JValue)
| JObj (props : list (JsString * JValue)).

(** An own property of an object literal, [None] for [undefined]. *)
Fixpoint obj_get {V : Type} (k : JsString) (o : list (JsString * V)) : option V :=
  match o with
  | [] => None
  | (k', v) :: o' => if bool_decide (k' = k) then Some v else obj_get k o'
  end.

(** [o[k] = v]: an existing key keeps its place, a new one goes last. *)
Fixpoint obj_set {V : Type} (k : JsString) (v : V) (o : list (JsString * V))
  : list (JsString * V) :=
  match o with
  | [] => [(k, v)]
  | (k', v') :: o' =>
      if bool_decide (k' = k) then (k, v) :: o' else (k', v') :: obj_set k v o'
  end.

(** The result of evaluating [x.k] for [k] one of [id], [method], [error],
    [message], none of which is on a built-in prototype. *)
Inductive Access : Type :=
| Throws                        (* TypeError: x is null *)
| Undefined
| Value (v : JValue).

Definition member (k : JsString) (x : JValue) : Access :=
  match x with
  | JNull => Throws
  | JObj props => match obj_get k props with Some v => Value v | None => Undefined end
  | _ => Undefined
  end.

Definition isZero (n : spec_float) : bool :=
  match n with S754_zero _ => true | _ => false end.

(** ToBoolean *)
Definition truthy (v : JValue) : bool :=
  match v with
  | JNull => false
  | JBool b => b
  | JNum S754_nan => false
  | JNum n => negb (isZero n)
  | JStr s => negb (bool_decide (s = []))
  | JArr _ | JObj _ => true
  end.

Definition truthyAccess (a : Access) : bool :=
  match a with Value v => truthy v | _ => false end.

(** Whether ToString(v), as in [String(v)] and in a template literal,
    throws.  A parsed object converts through [Object.prototype.toString]
    unless an own property [toString] shadows it: that property is never
    callable, and [Object.prototype.valueOf] returns the object itself, so
    the conversion ends in a TypeError.  An array joins the conversions of
    its elements. *)
Fixpoint toStringThrows (v : JValue) : bool :=
  match v with
  | JArr items => existsb toStringThrows items
  | JObj props =>
      match obj_get (js "toString") props with Some _ => true | None => false end
  | _ => false
  end.

Definition isPrimitive (v : JValue) : bool :=
  match v with JArr _ | JObj _ => false | _ => true end.

Definition numSameValueZero (a b : spec_float) : bool :=
  match a, b with
  | S754_zero _, S754_zero _ => true
  | S754_nan, S754_nan => true
  | S754_infinity s, S754_infinity t => Bool.eqb s t
  | S754_finite s m e, S754_finite s' m' e' =>
      Bool.eqb s s' && Pos.eqb m m' && Z.eqb e e'
  | _, _ => false
  end.

(** SameValueZero between a key stored in a [Map] and a value that comes
    out of a later call of [JSON.parse].  An array or object is compared by
    identity, and every parse allocates its objects: the two never match. *)
Definition sameValueZero (x y : JValue) : bool :=
  match x, y with
  | JNull, JNull => true
  | JBool a, JBool b => Bool.eqb a b
  | JNum a, JNum b => numSameValueZero a b
  | JStr a, JStr b => bool_decide (a = b)
  | _, _ => false
  end.

(** ** [Map]: insertion ordered, keyed by SameValueZero *)

Section JsMap.
Context {V : Type}.

Definition JsMap : Type := list (JValue * V).

Fixpoint map_get (k : JValue) (m : JsMap) : option V :=
  match m with
  | [] => None
  | (k', v) :: m' => if sameValueZero k' k then Some v else map_get k m'
  end.

(** [Map.prototype.set] stores the key [-0] as [+0]. *)
Definition canonicalKey (k : JValue) : JValue :=
  match k with JNum (S754_zero _) => JNum (S754_zero false) | _ => k end.

Fixpoint map_set (k : JValue) (v : V) (m : JsMap) : JsMap :=
  match m with
  | [] => [(canonicalKey k, v)]
  | (k', v') :: m' =>
      if sameValueZero k' k then (k', v) :: m' else (k', v') :: map_set k v m'
  end.

Fixpoint map_delete (k : JValue) (m : JsMap) : JsMap :=
  match m with
  | [] => []
  | (k', v) :: m' =>
      if sameValueZero k' k then m' else (k', v) :: map_delete k m'
  end.

Definition map_clear (m : JsMap) : JsMap := [].

Definition map_size (m : JsMap) : nat := length m.
End JsMap.

Arguments JsMap : clear implicits.

End Js.

Import Js.

(* ===================================================================== *)
(** * process.ts: [ProcessManager]                                         *)
(* ===================================================================== *)

Module ProcessManager.

Inductive Signal : Type := SIGTERM | SIGKILL.

(** [process.env], and the [env] option handed to [child_process.spawn]. *)
Definition Env : Type := list (JsString * JsString).

(** What the operating system gave [child_process.spawn]: a pid, and which
    of the three pipes exist. *)
Record SpawnOutcome : Type := {
  so_pid : option N;
  so_stdin : bool;
  so_stdout : bool;
  so_stderr : bool;
}.

(** A Node [ChildProcess]. *)
Record ChildProcess : Type := {
  pid : option N;
  exitCode : option Z;
  stdin : option (list JsString);   (* [None]: no pipe; else the chunks written *)
  stdout : bool;
  stderr : bool;
  env : Env;
  signals : list Signal;            (* [kill(signal)] calls, oldest first *)
  listeners : bool;                 (* "error" and "exit" handlers attached *)
}.

Record t : Type := {
  process : option ChildProcess;
  stdoutReader : bool;              (* [stdoutReader !== null] *)
  command : JsString;
  args : list JsString;
  killTimers : nat;                 (* pending [setTimeout] callbacks of [kill] *)
}.

(** What the manager emits to its own listeners. *)
Inductive Emitted : Type :=
| EmitMessage (data : JsString)
| EmitError
| EmitExit (code : option Z) (signal : option Signal).

Definition new (command : JsString) (args : list JsString) : t :=
  {| process := None; stdoutReader := false;
     command := command; args := args; killTimers := 0 |}.

Definition isRunning (pm : t) : bool :=
  match process pm with
  | Some c => match exitCode c with None => true | Some _ => false end
  | None => false
  end.

Definition ANTHROPIC_API_KEY : JsString := js "ANTHROPIC_API_KEY".

(** The object literal
    [{ ...process.env, ANTHROPIC_API_KEY: process.env.ANTHROPIC_API_KEY }]. *)
Definition spawnEnvLiteral (parent : Env) : list (JsString * option JsString) :=
  obj_set ANTHROPIC_API_KEY (obj_get ANTHROPIC_API_KEY parent)
          (map (fun kv => (fst kv, Some (snd kv))) parent).

(** Node leaves out of the child's environment the keys whose value is
    [undefined]. *)
Definition envPairs (o : list (JsString * option JsString)) : Env :=
  omap (fun kv => match snd kv with Some v => Some (fst kv, v) | None => None end) o.

(** The environment the child process is started with. *)
Definition childEnv (parent : Env) : Env := envPairs (spawnEnvLiteral parent).

Definition setProcess (p : option ChildProcess) (pm : t) : t :=
  {| process := p; stdoutReader := stdoutReader pm;
     command := command pm; args := args pm; killTimers := killTimers pm |}.

Definition setStdoutReader (r : bool) (pm : t) : t :=
  {| process := process pm; stdoutReader := r;
     command := command pm; args := args pm; killTimers := killTimers pm |}.

Definition setKillTimers (n : nat) (pm : t) : t :=
  {| process := process pm; stdoutReader := stdoutReader pm;
     command := command pm; args := args pm; killTimers := n |}.

Definition setListeners (b : bool) (c : ChildProcess) : ChildProcess :=
  {| pid := pid c; exitCode := exitCode c; stdin := stdin c; stdout := stdout c;
     stderr := stderr c; env := env c; signals := signals c; listeners := b |}.

Definition setExitCode (e : option Z) (c : ChildProcess) : ChildProcess :=
  {| pid := pid c; exitCode := e; stdin := stdin c; stdout := stdout c;
     stderr := stderr c; env := env c; signals := signals c;
     listeners := listeners c |}.

Definition setStdin (i : option (list JsString)) (c : ChildProcess) : ChildProcess :=
  {| pid := pid c; exitCode := exitCode c; stdin := i; stdout := stdout c;
     stderr := stderr c; env := env c; signals := signals c;
     listeners := listeners c |}.

Definition signal (sig : Signal) (c : ChildProcess) : ChildProcess :=
  {| pid := pid c; exitCode := exitCode c; stdin := stdin c; stdout := stdout c;
     stderr := stderr c; env := env c; signals := signals c ++ [sig];
     listeners := listeners c |}.

(** [spawn()] *)
Definition spawn (parent : Env) (o : SpawnOutcome) (pm : t) : t * list Emitted :=
  if isRunning pm then (pm, [])
  else
    let c := {| pid := so_pid o; exitCode := None;
                stdin := if so_stdin o then Some [] else None;
                stdout := so_stdout o; stderr := so_stderr o;
                env := childEnv parent; signals := []; listeners := false |} in
    if negb (so_stdout o) || negb (so_stdin o) || negb (so_stderr o)
    then (setProcess (Some c) pm, [EmitError])
    else (setStdoutReader true (setProcess (Some (setListeners true c)) pm), []).

(** The ["line"] handler of the standard output reader. *)
Definition onLine (line : JsString) : list Emitted :=
  if negb (bool_decide (trim line = [])) then [EmitMessage line] else [].

(** The ["error"] handler of the child process. *)
Definition onError : list Emitted := [EmitError].

(** [cleanup()] *)
Definition cleanup (pm : t) : t := setProcess None (setStdoutReader false pm).

(** The ["exit"] handler of the child process. *)
Definition onExit (code : option Z) (sig : option Signal) (pm : t) : t * list Emitted :=
  (cleanup pm, [EmitExit code sig]).

(** [send(message)]; [accepted] is what [stdin.write] returns. *)
Definition send (message : JsString) (accepted : bool) (pm : t) : bool * t :=
  match process pm with
  | Some c =>
      match isRunning pm, stdin c with
      | true, Some written =>
          let line := if endsWith message LF then message else message ++ LF in
          (accepted, setProcess (Some (setStdin (Some (written ++ [line])) c)) pm)
      | _, _ => (false, pm)
      end
  | None => (false, pm)
  end.

(** [kill()] *)
Definition kill (pm : t) : t :=
  match process pm with
  | Some c => setKillTimers (S (killTimers pm)) (setProcess (Some (signal SIGTERM c)) pm)
  | None => pm
  end.

(** The callback [kill()] schedules with [setTimeout(..., 5000)]. *)
Definition onKillTimeout (pm : t) : t :=
  let pm' := setKillTimers (Nat.pred (killTimers pm)) pm in
  match process pm with
  | Some c =>
      match exitCode c with
      | None => setProcess (Some (signal SIGKILL c)) pm'
      | Some _ => pm'
      end
  | None => pm'
  end.

(** The chunks written so far to the child's standard input. *)
Definition written (pm : t) : list JsString :=
  match process pm with
  | Some c => match stdin c with Some w => w | None => [] end
  | None => []
  end.

End ProcessManager.

(* ===================================================================== *)
(** * server.ts: [BridgeServer]                                            *)
(* ===================================================================== *)

Module BridgeServer.

(** ** Collaborators: [ws] sockets and the telemetry calls *)

Inductive ReadyState : Type := CONNECTING | OPEN | CLOSING | CLOSED.

Definition isOpen (r : ReadyState) : bool :=
  match r with OPEN => true | _ => false end.

Record WebSocket : Type := {
  readyState : ReadyState;
  closeCalls : list (Z * JsString);   (* [close(code, reason)] calls *)
  sent : list JsString;               (* [send(data)] calls *)
  handlers : bool;                    (* the listeners of [start()] are attached *)
}.

(** The socket a ["connection"] event delivers. *)
Definition newSocket : WebSocket :=
  {| readyState := OPEN; closeCalls := []; sent := []; handlers := false |}.

(** [ws.close(code, reason)]: an open socket starts its closing handshake. *)
Definition ws_close (code : Z) (reason : JsString) (w : WebSocket) : WebSocket :=
  {| readyState := match readyState w with OPEN => CLOSING | r => r end;
     closeCalls := closeCalls w ++ [(code, reason)];
     sent := sent w; handlers := handlers w |}.

(** [ws.send(data)] *)
Definition ws_send (data : JsString) (w : WebSocket) : WebSocket :=
  {| readyState := readyState w; closeCalls := closeCalls w;
     sent := sent w ++ [data]; handlers := handlers w |}.

Definition ws_on (w : WebSocket) : WebSocket :=
  {| readyState := readyState w; closeCalls := closeCalls w;
     sent := sent w; handlers := true |}.

Definition ws_setReadyState (r : ReadyState) (w : WebSocket) : WebSocket :=
  {| readyState := r; closeCalls := closeCalls w;
     sent := sent w; handlers := handlers w |}.

Inductive SpanStatusCode : Type := UNSET | OK | ERROR.

(** The calls made on the metrics of [getMetrics()] and on the spans of the
    tracer.  A span is named by the order in which [startSpan] made it. *)
Inductive TelemetryCall : Type :=
| MessagesIn_add (n : Z)
| MessagesOut_add (n : Z)
| RequestCount_add (n : Z) (method : JValue)
| ErrorCount_add (n : Z) (type : JsString) (method : option JValue)
| ActiveConnections_add (n : Z)
| RequestLatency_record (latency : Z) (method : JValue)
| StartSpan (span : nat) (method : JValue)            (* name [`acp.${method}`] *)
| Span_setRpcMethod (span : nat) (method : JValue)    (* [setAttribute("rpc.method", method)] *)
| Span_setRpcId (span : nat) (id : JValue)            (* [setAttribute("rpc.id", String(id))] *)
| Span_setStatus (span : nat) (code : SpanStatusCode) (message : option JValue)
| Span_end (span : nat).

(** ** The server object *)

Record ServerConfig : Type := {
  port : Z;
  command : JsString;
  commandArgs : list JsString;
}.

Record PendingRequest : Type := {
  startTime : Z;
  method : JValue;
  span : nat;
}.

(** The fields of [BridgeServer], with the objects they point to: sockets
    and process managers are named by their index in [sockets] and
    [procs], in order of creation. *)
Record State : Type := {
  listening : bool;                            (* [wss] accepts connections *)
  sockets : list WebSocket;
  procs : list ProcessManager.t;
  telemetry : list TelemetryCall;
  nextSpan : nat;
  activeConnection : option nat;
  processManager : option nat;
  pendingRequests : JsMap PendingRequest;
  sessionAuthenticated : bool;
}.

Definition setSockets (x : list WebSocket) (s : State) : State :=
  {| listening := listening s; sockets := x; procs := procs s;
     telemetry := telemetry s; nextSpan := nextSpan s;
     activeConnection := activeConnection s; processManager := processManager s;
     pendingRequests := pendingRequests s;
     sessionAuthenticated := sessionAuthenticated s |}.

Definition setProcs (x : list ProcessManager.t) (s : State) : State :=
  {| listening := listening s; sockets := sockets s; procs := x;
     telemetry := telemetry s; nextSpan := nextSpan s;
     activeConnection := activeConnection s; processManager := processManager s;
     pendingRequests := pendingRequests s;
     sessionAuthenticated := sessionAuthenticated s |}.

Definition setTelemetry (x : list TelemetryCall) (s : State) : State :=
  {| listening := listening s; sockets := sockets s; procs := procs s;
     telemetry := x; nextSpan := nextSpan s;
     activeConnection := activeConnection s; processManager := processManager s;
     pendingRequests := pendingRequests s;
     sessionAuthenticated := sessionAuthenticated s |}.

Definition setNextSpan (x : nat) (s : State) : State :=
  {| listening := listening s; sockets := sockets s; procs := procs s;
     telemetry := telemetry s; nextSpan := x;
     activeConnection := activeConnection s; processManager := processManager s;
     pendingRequests := pendingRequests s;
     sessionAuthenticated := sessionAuthenticated s |}.

Definition setActiveConnection (x : option nat) (s : State) : State :=
  {| listening := listening s; sockets := sockets s; procs := procs s;
     telemetry := telemetry s; nextSpan := nextSpan s;
     activeConnection := x; processManager := processManager s;
     pendingRequests := pendingRequests s;
     sessionAuthenticated := sessionAuthenticated s |}.

Definition setProcessManager (x : option nat) (s : State) : State :=
  {| listening := listening s; sockets := sockets s; procs := procs s;
     telemetry := telemetry s; nextSpan := nextSpan s;
     activeConnection := activeConnection s; processManager := x;
     pendingRequests := pendingRequests s;
     sessionAuthenticated := sessionAuthenticated s |}.

Definition setPendingRequests (x : JsMap PendingRequest) (s : State) : State :=
  {| listening := listening s; sockets := sockets s; procs := procs s;
     telemetry := telemetry s; nextSpan := nextSpan s;
     activeConnection := activeConnection s; processManager := processManager s;
     pendingRequests := x;
     sessionAuthenticated := sessionAuthenticated s |}.

Definition setSessionAuthenticated (x : bool) (s : State) : State :=
  {| listening := listening s; sockets := sockets s; procs := procs s;
     telemetry := telemetry s; nextSpan := nextSpan s;
     activeConnection := activeConnection s; processManager := processManager s;
     pendingRequests := pendingRequests s;
     sessionAuthenticated := x |}.

Definition setListening (x : bool) (s : State) : State :=
  {| listening := x; sockets := sockets s; procs := procs s;
     telemetry := telemetry s; nextSpan := nextSpan s;
     activeConnection := activeConnection s; processManager := processManager s;
     pendingRequests := pendingRequests s;
     sessionAuthenticated := sessionAuthenticated s |}.

(** A call on a metric or on a span. *)
Definition call (c : TelemetryCall) (s : State) : State :=
  setTelemetry (telemetry s ++ [c]) s.

(** A method call on the socket object [w]. *)
Definition onSocket (w : nat) (f : WebSocket → WebSocket) (s : State) : State :=
  setSockets (alter f w (sockets s)) s.

(** A method call on the process manager object [p]. *)
Definition onProc (p : nat) (f : ProcessManager.t → ProcessManager.t) (s : State) : State :=
  setProcs (alter f p (procs s)) s.

(** The state [new BridgeServer(config).start()] leaves. *)
Definition init : State :=
  {| listening := true; sockets := []; procs := []; telemetry := [];
     nextSpan := 0; activeConnection := None; processManager := None;
     pendingRequests := []; sessionAuthenticated := false |}.

(** [this.activeConnection?.readyState === WebSocket.OPEN], also the test
    [this.activeConnection && this.activeConnection.readyState === OPEN]. *)
Definition activeIsOpen (s : State) : bool :=
  match activeConnection s with
  | Some a =>
      match sockets s !! a with
      | Some w => isOpen (readyState w)
      | None => false
      end
  | None => false
  end.

Definition BUSY_REASON : JsString := js "Server busy - single user mode".
Definition PROCESS_ERROR_REASON : JsString := js "Process error".
Definition PROCESS_EXITED_REASON : JsString := js "Process exited".
Definition SHUTDOWN_REASON : JsString := js "Server shutting down".
Definition INITIALIZE : JsString := js "initialize".

(** [pending.method === "initialize"] *)
Definition isInitialize (m : JValue) : bool :=
  match m with JStr s => bool_decide (s = INITIALIZE) | _ => false end.

(** ** What the properties observe *)

(** The span a [setStatus] or [end] call is made on. *)
Definition statusOrEnd (c : TelemetryCall) : option nat :=
  match c with
  | Span_setStatus x _ _ | Span_end x => Some x
  | _ => None
  end.

(** The spans of the [setStatus] and [end] calls of a log, in order. *)
Definition closedSpans (log : list TelemetryCall) : list nat := omap statusOrEnd log.

(** The spans [end()] was called on. *)
Definition endedSpans (log : list TelemetryCall) : list nat :=
  omap (fun c => match c with Span_end x => Some x | _ => None end) log.

(** The samples recorded in the latency histogram, with their method tag. *)
Definition latencySamples (log : list TelemetryCall) : list (Z * JValue) :=
  omap (fun c => match c with
                 | RequestLatency_record l m => Some (l, m)
                 | _ => None
                 end) log.

(** The spans the pending requests hold. *)
Definition spansOf (m : JsMap PendingRequest) : list nat :=
  map (fun entry => span (snd entry)) m.

(** No key of the map answers for a later one. *)
Fixpoint uniqueKeys (m : JsMap PendingRequest) : Prop :=
  match m with
  | [] => True
  | (k, _) :: m' => map_get k m' = None ∧ uniqueKeys m'
  end.

(** The part of the state the span properties depend on: the pending
    requests, the next span, and the spans that were given a status or
    ended. *)
Definition Core : Type := JsMap PendingRequest * nat * list nat.

Definition core (s : State) : Core :=
  (pendingRequests s, nextSpan s, closedSpans (telemetry s)).

(** What one event can do to it. *)
Inductive coreStep : Core → Core → Prop :=
| core_same c : coreStep c c
| core_track m n cl id t mth :
    coreStep (m, n, cl)
             (map_set id {| startTime := t; method := mth; span := n |} m, S n, cl)
| core_leak m n cl : coreStep (m, n, cl) (m, S n, cl)
| core_resolve m n cl id p :
    map_get id m = Some p →
    coreStep (m, n, cl) (map_delete id m, n, cl ++ [span p; span p])
| core_exit m n cl :
    coreStep (m, n, cl) ([], n, cl ++ flat_map (fun x => [x; x]) (spansOf m)).

(** What holds of the pending requests and their spans in every state the
    server reaches: keys are unique, every entry has a span of its own,
    made by an earlier [startSpan], and no [setStatus] or [end] call was
    made on the span of an entry that is still pending. *)
Definition wfCore (c : Core) : Prop :=
  let '(m, n, cl) := c in
  uniqueKeys m
  ∧ NoDup (spansOf m)
  ∧ Forall (fun x => x < n)%nat (spansOf m)
  ∧ Forall (fun x => x < n)%nat cl
  ∧ ∀ x, x ∈ spansOf m → x ∉ cl.

Definition wf (s : State) : Prop := wfCore (core s).

(** The span [x] was started, no pending request holds it, and it was
    neither given a status nor ended. *)
Definition abandoned (x : nat) (c : Core) : Prop :=
  let '(m, n, cl) := c in (x < n)%nat ∧ (x ∉ spansOf m) ∧ (x ∉ cl).

(** A socket that was admitted (it carries the listeners of [start()]) and
    is open. *)
Definition admittedOpen (w : WebSocket) : bool :=
  handlers w && isOpen (readyState w).

Definition atMostOneAdmitted (s : State) : Prop :=
  ∀ i j wi wj,
    sockets s !! i = Some wi → sockets s !! j = Some wj →
    admittedOpen wi = true → admittedOpen wj = true → i = j.

(** Every admitted open socket is the one [activeConnection] holds. *)
Definition admittedIsActive (s : State) : Prop :=
  ∀ i w, sockets s !! i = Some w → admittedOpen w = true →
         activeConnection s = Some i.

(** ** The callbacks *)

Section Handlers.

(** [JSON.parse]: [None] when it throws a SyntaxError. *)
Variable JSON_parse : JsString → option JValue.

(** [process.env] of the bridge. *)
Variable process_env : ProcessManager.Env.

Variable config : ServerConfig.

(** [parsed.error.message], [None] for [undefined]. *)
Definition errorMessage (parsed : JValue) : option JValue :=
  match member (js "error") parsed with
  | Value err =>
      match member (js "message") err with
      | Value m => Some m
      | _ => None
      end
  | _ => None
  end.

(** The [try] block of [handleOutgoingMessage]: response tracking.
    [now] is what [Date.now()] returns. *)
Definition trackResponse (data : JsString) (now : Z) (s : State) : State :=
  match JSON_parse data with
  | Some parsed =>
      match member (js "id") parsed with
      | Value id =>
          match map_get id (pendingRequests s) with
          | Some pending =>
              let latency := now - startTime pending in
              let s := call (RequestLatency_record latency (method pending)) s in
              let s :=
                if truthyAccess (member (js "error") parsed) then
                  let s := call (Span_setStatus (span pending) ERROR
                                                (errorMessage parsed)) s in
                  call (ErrorCount_add 1 (js "rpc_error") (Some (method pending))) s
                else
                  let s := call (Span_setStatus (span pending) OK None) s in
                  if isInitialize (method pending) && negb (sessionAuthenticated s)
                  then setSessionAuthenticated true s
                  else s in
              let s := call (Span_end (span pending)) s in
              setPendingRequests (map_delete id (pendingRequests s)) s
          | None => s
          end
      | Undefined => s
      | Throws => s                     (* caught *)
      end
  | None => s                           (* caught *)
  end.

(** The end of [handleOutgoingMessage]: forward to the WebSocket. *)
Definition forwardToPeer (data : JsString) (s : State) : State :=
  if activeIsOpen s then
    match activeConnection s with
    | Some a => onSocket a (ws_send data) s
    | None => s
    end
  else s.

(** [handleOutgoingMessage(data)], the ["message"] listener of
    [ensureProcess]. *)
Definition handleOutgoingMessage (data : JsString) (now : Z) (s : State) : State :=
  let s := call (MessagesOut_add 1) s in
  let s := trackResponse data now s in
  forwardToPeer data s.

(** The ["error"] listener of [ensureProcess]. *)
Definition handleProcessError (s : State) : State :=
  let s := call (ErrorCount_add 1 (js "process") None) s in
  match activeConnection s with
  | Some a => onSocket a (ws_close 1011 PROCESS_ERROR_REASON) s
  | None => s
  end.

(** The ["exit"] listener of [ensureProcess]. *)
Definition handleProcessExit (s : State) : State :=
  let s :=
    fold_left
      (fun s entry =>
         let pending := snd entry in
         let s := call (Span_setStatus (span pending) ERROR
                                       (Some (JStr PROCESS_EXITED_REASON))) s in
         call (Span_end (span pending)) s)
      (pendingRequests s) s in
  let s := setPendingRequests (map_clear (pendingRequests s)) s in
  if activeIsOpen s then
    match activeConnection s with
    | Some a => onSocket a (ws_close 1011 PROCESS_EXITED_REASON) s
    | None => s
    end
  else s.

(** What the manager emits reaches the listeners [ensureProcess] attached.
    Only the ["message"] listener reads the clock. *)
Definition deliver (now : Z) (e : ProcessManager.Emitted) (s : State) : State :=
  match e with
  | ProcessManager.EmitMessage data => handleOutgoingMessage data now s
  | ProcessManager.EmitError => handleProcessError s
  | ProcessManager.EmitExit _ _ => handleProcessExit s
  end.

Definition deliverAll (now : Z) (es : list ProcessManager.Emitted) (s : State) : State :=
  fold_left (fun s e => deliver now e s) es s.

(** The first statement of [ensureProcess]: a manager that still runs
    is killed. *)
Definition killPrevious (s : State) : State :=
  match processManager s with
  | Some p =>
      match procs s !! p with
      | Some pm =>
          if ProcessManager.isRunning pm then onProc p ProcessManager.kill s else s
      | None => s
      end
  | None => s
  end.

(** [ensureProcess()] *)
Definition ensureProcess (o : ProcessManager.SpawnOutcome) (s : State) : State :=
  let s := killPrevious s in
  let p := length (procs s) in
  let '(pm, emitted) :=
    ProcessManager.spawn process_env o
      (ProcessManager.new (command config) (commandArgs config)) in
  let s := setProcessManager (Some p) (setProcs (procs s ++ [pm]) s) in
  deliverAll 0 emitted s.

(** The [try] block of [handleIncomingMessage]: request tracking. *)
Definition trackRequest (message : JsString) (now : Z) (s : State) : State :=
  match JSON_parse message with
  | Some parsed =>
      match member (js "id") parsed, member (js "method") parsed with
      | Value id, Value m =>
          if truthy m then
            if toStringThrows m then s            (* the template literal throws *)
            else
              let sp := nextSpan s in
              let s := setNextSpan (S sp) s in
              let s := call (StartSpan sp m) s in
              let s := call (Span_setRpcMethod sp m) s in
              if toStringThrows id then s         (* [String(parsed.id)] throws *)
              else
                let s := call (Span_setRpcId sp id) s in
                let s :=
                  setPendingRequests
                    (map_set id {| startTime := now; method := m; span := sp |}
                             (pendingRequests s)) s in
                call (RequestCount_add 1 m) s
          else s
      | _, _ => s
      end
  | None => s                                     (* caught *)
  end.

(** The end of [handleIncomingMessage]: forward to the process.
    [writeOk] is what the write on the child's standard input returns. *)
Definition forwardToProcess (message : JsString) (writeOk : bool) (s : State) : State :=
  match processManager s with
  | Some p =>
      match procs s !! p with
      | Some pm =>
          let '(ok, pm) := ProcessManager.send message writeOk pm in
          let s := onProc p (fun _ => pm) s in
          if ok then s else call (ErrorCount_add 1 (js "send_failed") None) s
      | None => call (ErrorCount_add 1 (js "send_failed") None) s
      end
  | None => call (ErrorCount_add 1 (js "send_failed") None) s
  end.

(** [handleIncomingMessage(data)], with [message = data.toString()]. *)
Definition handleIncomingMessage (message : JsString) (now : Z) (writeOk : bool)
           (s : State) : State :=
  let s := call (MessagesIn_add 1) s in
  let s := trackRequest message now s in
  forwardToProcess message writeOk s.

(** The ["close"] listener of an admitted socket. *)
Definition handleClose (s : State) : State :=
  let s := call (ActiveConnections_add (-1)) s in
  let s := setActiveConnection None s in
  let s :=
    match negb (sessionAuthenticated s), processManager s with
    | true, Some p => setProcessManager None (onProc p ProcessManager.kill s)
    | _, _ => s
    end in
  let s :=
    match processManager s with
    | Some p => setProcessManager None (onProc p ProcessManager.kill s)
    | None => s
    end in
  setSessionAuthenticated false s.

(** The ["error"] listener of an admitted socket. *)
Definition handleSocketError (s : State) : State :=
  call (ErrorCount_add 1 (js "websocket") None) s.

(** The ["connection"] listener of [start()]; the new socket is the next
    object of [sockets]. *)
Definition handleConnection (o : ProcessManager.SpawnOutcome) (s : State) : State :=
  let ws := length (sockets s) in
  let busy := activeIsOpen s in
  let s := setSockets (sockets s ++ [newSocket]) s in
  if busy then
    onSocket ws (ws_close 1013 BUSY_REASON) s
  else
    let s := setActiveConnection (Some ws) s in
    let s := call (ActiveConnections_add 1) s in
    let s := ensureProcess o s in
    onSocket ws ws_on s.

(** [stop()] *)
Definition stop (s : State) : State :=
  let s :=
    match activeConnection s with
    | Some a => setActiveConnection None (onSocket a (ws_close 1001 SHUTDOWN_REASON) s)
    | None => s
    end in
  let s :=
    match processManager s with
    | Some p => setProcessManager None (onProc p ProcessManager.kill s)
    | None => s
    end in
  setListening false s.

(** ** The event loop *)

Inductive Event : Type :=
| Connection (o : ProcessManager.SpawnOutcome)
| WsMessage (ws : nat) (message : JsString) (now : Z) (writeOk : bool)
| WsClose (ws : nat)
| WsError (ws : nat)
| PeerClosing (ws : nat)       (* the peer starts the closing handshake *)
| ProcStdout (p : nat) (line : JsString) (now : Z)
| ProcStderr (p : nat) (chunk : JsString)
| ProcError (p : nat) (code : option Z)  (* [code]: the exit code Node sets before
                                           it emits the error of a failed spawn;
                                           [None] for an error of a live child *)
| ProcExit (p : nat) (code : option Z) (sig : option ProcessManager.Signal)
| KillTimeout (p : nat)
| Stop.

Definition step (e : Event) (s : State) : State :=
  match e with
  | Connection o => if listening s then handleConnection o s else s
  | WsMessage ws message now writeOk =>
      match sockets s !! ws with
      | Some w =>
          if handlers w then
            match readyState w with
            | OPEN | CLOSING => handleIncomingMessage message now writeOk s
            | _ => s
            end
          else s
      | None => s
      end
  | WsClose ws =>
      match sockets s !! ws with
      | Some w =>
          match readyState w with
          | CLOSED => s
          | _ =>
              let s := onSocket ws (ws_setReadyState CLOSED) s in
              if handlers w then handleClose s else s
          end
      | None => s
      end
  | WsError ws =>
      match sockets s !! ws with
      | Some w => if handlers w then handleSocketError s else s
      | None => s
      end
  | PeerClosing ws =>
      onSocket ws (fun w => match readyState w with
                            | OPEN => ws_setReadyState CLOSING w
                            | _ => w
                            end) s
  | ProcStdout p line now =>
      match procs s !! p with
      | Some pm =>
          if ProcessManager.stdoutReader pm
          then deliverAll now (ProcessManager.onLine line) s
          else s
      | None => s
      end
  | ProcStderr p chunk => s
  | ProcError p code =>
      match procs s !! p with
      | Some pm =>
          match ProcessManager.process pm with
          | Some c =>
              let c' := match code with
                        | Some _ => ProcessManager.setExitCode code c
                        | None => c
                        end in
              let s := onProc p (fun _ => ProcessManager.setProcess (Some c') pm) s in
              (* without listeners Node throws the error: an uncaught
                 exception, on which [main] ends the bridge; no handler
                 of the server runs *)
              if ProcessManager.listeners c
              then deliverAll 0 ProcessManager.onError s
              else s
          | None => s
          end
      | None => s
      end
  | ProcExit p code sig =>
      match procs s !! p with
      | Some pm =>
          match ProcessManager.process pm with
          | Some c =>
              let pm := ProcessManager.setProcess
                          (Some (ProcessManager.setExitCode code c)) pm in
              if ProcessManager.listeners c then
                let '(pm, emitted) := ProcessManager.onExit code sig pm in
                deliverAll 0 emitted (onProc p (fun _ => pm) s)
              else onProc p (fun _ => pm) s
          | None => s
          end
      | None => s
      end
  | KillTimeout p =>
      match procs s !! p with
      | Some pm =>
          match ProcessManager.killTimers pm with
          | O => s
          | S _ => onProc p ProcessManager.onKillTimeout s
          end
      | None => s
      end
  | Stop => stop s
  end.

(** The state after the events [es], oldest first. *)
Definition run (es : list Event) (s : State) : State :=
  fold_left (fun s e => step e s) es s.

(** The states the server reaches from [start()]. *)
Definition reachable (s : State) : Prop := ∃ es, s = run es init.

Definition isWsClose (e : Event) : bool :=
  match e with WsClose _ => true | _ => false end.

(** The ["close"] event of the socket [ws]. *)
Definition isCloseOf (ws : nat) (e : Event) : bool :=
  match e with WsClose w => Nat.eqb w ws | _ => false end.

(** Whether the event [e] runs the ["close"] listener of [start()] in the
    state [s]: the event is the ["close"] of a socket that was admitted
    and has not closed before. *)
Definition runsCloseListener (e : Event) (s : State) : bool :=
  match e with
  | WsClose ws =>
      match sockets s !! ws with
      | Some w =>
          match readyState w with
          | CLOSED => false
          | _ => handlers w
          end
      | None => false
      end
  | _ => false
  end.

(** Whether the ["close"] listener runs while the events [es] are
    handled. *)
Fixpoint closeListenerRuns (es : list Event) (s : State) : bool :=
  match es with
  | [] => false
  | e :: es' => runsCloseListener e s || closeListenerRuns es' (step e s)
  end.

(** How often [sessionAuthenticated] goes from [false] to [true] while
    the events [es] are handled. *)
Fixpoint flips (es : list Event) (s : State) : nat :=
  match es with
  | [] => 0
  | e :: es' =>
      ((if negb (sessionAuthenticated s) && sessionAuthenticated (step e s)
        then 1 else 0)
       + flips es' (step e s))%nat
  end.

(** The pending request the frame [data] answers, with the parsed frame
    and its id. *)
Definition resolution (data : JsString) (s : State)
  : option (JValue * JValue * PendingRequest) :=
  match JSON_parse data with
  | Some parsed =>
      match member (js "id") parsed with
      | Value id =>
          match map_get id (pendingRequests s) with
          | Some pending => Some (parsed, id, pending)
          | None => None
          end
      | _ => None
      end
  | None => None
  end.

(** The telemetry calls that resolve the pending request [pending] with
    the parsed response [parsed] at time [now]. *)
Definition resolveCalls (now : Z) (parsed : JValue) (pending : PendingRequest)
  : list TelemetryCall :=
  [RequestLatency_record (now - startTime pending) (method pending)]
  ++ (if truthyAccess (member (js "error") parsed)
      then [Span_setStatus (span pending) ERROR (errorMessage parsed);
            ErrorCount_add 1 (js "rpc_error") (Some (method pending))]
      else [Span_setStatus (span pending) OK None])
  ++ [Span_end (span pending)].

(** The telemetry calls of the ["exit"] listener for the pending
    requests [m]. *)
Definition exitCalls (m : JsMap PendingRequest) : list TelemetryCall :=
  flat_map (fun entry =>
              [Span_setStatus (span (snd entry)) ERROR
                              (Some (JStr PROCESS_EXITED_REASON));
               Span_end (span (snd entry))]) m.

(** What [handleIncomingMessage] makes of a frame: nothing, a span that
    is started and then abandoned because [String(parsed.id)] throws, or
    a pending request. *)
Inductive Tracking : Type :=
| NotTracked
| SpanLeaked (m : JValue)
| Tracked (id m : JValue).

Definition tracking (message : JsString) : Tracking :=
  match JSON_parse message with
  | Some parsed =>
      match member (js "id") parsed, member (js "method") parsed with
      | Value id, Value m =>
          if truthy m then
            if toStringThrows m then NotTracked
            else if toStringThrows id then SpanLeaked m
            else Tracked id m
          else NotTracked
      | _, _ => NotTracked
      end
  | None => NotTracked
  end.

(** The frame [data] answers a pending [initialize] request without an
    error: what [handleOutgoingMessage] tests before it sets
    [sessionAuthenticated]. *)
Definition handshakeSucceeds (data : JsString) (s : State) : bool :=
  match JSON_parse data with
  | Some parsed =>
      match member (js "id") parsed with
      | Value id =>
          match map_get id (pendingRequests s) with
          | Some pending =>
              isInitialize (method pending)
              && negb (truthyAccess (member (js "error") parsed))
          | None => false
          end
      | _ => false
      end
  | None => false
  end.

End Handlers.

(** ** The request log *)

(** The calls that concern requests: every call but those on the message,
    error and connection counters. *)
Definition isRequestCall (c : TelemetryCall) : bool :=
  match c with
  | MessagesIn_add _ | MessagesOut_add _ | ErrorCount_add _ _ _
  | ActiveConnections_add _ => false
  | _ => true
  end.

Definition requestCalls (log : list TelemetryCall) : list TelemetryCall :=
  filter (fun c => isRequestCall c = true) log.

(** How many requests were counted in [ook.request.count]. *)
Definition requestsCounted (log : list TelemetryCall) : nat :=
  length (omap (fun c => match c with RequestCount_add _ m => Some m | _ => None end)
               log).

(** The pending requests, the next span and the request log. *)
Definition Trace : Type := JsMap PendingRequest * nat * list TelemetryCall.

Definition trace (s : State) : Trace :=
  (pendingRequests s, nextSpan s, requestCalls (telemetry s)).

(** What one event can do to them. *)
Inductive traceStep : Trace → Trace → Prop :=
| trace_same c : traceStep c c
| trace_track m n l id t mth :
    traceStep (m, n, l)
              (map_set id {| startTime := t; method := mth; span := n |} m, S n,
               l ++ [StartSpan n mth; Span_setRpcMethod n mth;
                     Span_setRpcId n id; RequestCount_add 1 mth])
| trace_leak m n l mth :
    traceStep (m, n, l) (m, S n, l ++ [StartSpan n mth; Span_setRpcMethod n mth])
| trace_resolve m n l id p latency code message :
    map_get id m = Some p →
    traceStep (m, n, l)
              (map_delete id m, n,
               l ++ [RequestLatency_record latency (method p);
                     Span_setStatus (span p) code message; Span_end (span p)])
| trace_exit m n l :
    traceStep (m, n, l) ([], n, l ++ exitCalls m).

(** A handler that leaves the pending requests and the next span alone
    and makes no call that concerns requests. *)
Definition quiet (s s' : State) : Prop :=
  pendingRequests s' = pendingRequests s
  ∧ nextSpan s' = nextSpan s
  ∧ requestCalls (telemetry s') = requestCalls (telemetry s).

Definition isProcExit (e : Event) : bool :=
  match e with ProcExit _ _ _ => true | _ => false end.

(** The events that can change the pending requests. *)
Definition touchesPending (e : Event) : bool :=
  match e with
  | WsMessage _ _ _ _ | ProcStdout _ _ _ | ProcExit _ _ _ => true
  | _ => false
  end.

(** The process manager the server holds can take a frame: it runs and
    has an input pipe. *)
Definition canSend (s : State) : bool :=
  match processManager s with
  | Some p =>
      match procs s !! p with
      | Some pm =>
          ProcessManager.isRunning pm
          && match ProcessManager.process pm with
             | Some c => match ProcessManager.stdin c with Some _ => true | None => false end
             | None => false
             end
      | None => false
      end
  | None => false
  end.

(** What the process manager the server holds has been sent. *)
Definition writtenToProcess (s : State) : list JsString :=
  match processManager s with
  | Some p =>
      match procs s !! p with
      | Some pm => ProcessManager.written pm
      | None => []
      end
  | None => []
  end.

(** What was sent on the active connection. *)
Definition sentToPeer (s : State) : list JsString :=
  match activeConnection s with
  | Some a => match sockets s !! a with Some w => sent w | None => [] end
  | None => []
  end.

(** The [setStatus] and [end] calls of a log, each with its span;
    [true] marks an [end]. *)
Definition spanCalls (log : list TelemetryCall) : list (nat * bool) :=
  omap (fun c => match c with
                 | Span_setStatus x _ _ => Some (x, false)
                 | Span_end x => Some (x, true)
                 | _ => None
                 end) log.

(** The [setStatus] and [end] calls come in pairs, one [setStatus] and
    then the [end] of the same span, and no span is ended twice. *)
Definition spanDiscipline (log : list TelemetryCall) : Prop :=
  spanCalls log = flat_map (fun x => [(x, false); (x, true)]) (endedSpans log)
  ∧ NoDup (endedSpans log).

(** The ["send_failed"] errors counted. *)
Definition isSendFailure (c : TelemetryCall) : bool :=
  match c with
  | ErrorCount_add _ type _ => bool_decide (type = js "send_failed")
  | _ => false
  end.

Definition sendFailures (log : list TelemetryCall) : nat :=
  length (filter (fun c => isSendFailure c = true) log).

End BridgeServer.

(* ===================================================================== *)
(** * index.ts: the configuration [main] reads                             *)
(* ===================================================================== *)

Module Index.

Definition DEFAULT_COMMAND : JsString := js "claude-code-acp".

(** The space, the separator of [OOK_COMMAND_ARGS]. *)
Definition SPACE : N := 32%N.

(** [s.split(sep)] for a separator of one code unit. *)
Fixpoint split (sep : N) (s : JsString) : list JsString :=
  match s with
  | [] => [[]]
  | c :: s' =>
      if N.eqb c sep then [] :: split sep s'
      else
        match split sep s' with
        | piece :: rest => (c :: piece) :: rest
        | [] => [[c]]
        end
  end.

(** [pieces.filter(Boolean)]: the empty string is the only falsy string. *)
Definition filterBoolean (pieces : list JsString) : list JsString :=
  filter (fun piece => piece ≠ []) pieces.

(** [process.env.OOK_COMMAND_ARGS?.split(" ").filter(Boolean) ?? []] *)
Definition commandArgs (env : ProcessManager.Env) : list JsString :=
  match obj_get (js "OOK_COMMAND_ARGS") env with
  | Some v => filterBoolean (split SPACE v)
  | None => []
  end.

(** [process.env.OOK_COMMAND ?? DEFAULT_COMMAND] *)
Definition command (env : ProcessManager.Env) : JsString :=
  match obj_get (js "OOK_COMMAND") env with
  | Some v => v
  | None => DEFAULT_COMMAND
  end.

(** [args.join(" ")] *)
Fixpoint join (args : list JsString) : JsString :=
  match args with
  | [] => []
  | [a] => a
  | a :: rest => a ++ SPACE :: join rest
  end.

End Index.

(* ===================================================================== *)
(** * Concrete inputs                                                      *)
(* ===================================================================== *)

Module Demo.

(** A parent environment with the credential and two more variables. *)
Definition parentEnv : ProcessManager.Env :=
  [ (js "PATH", js "/usr/bin");
    (js "ANTHROPIC_API_KEY", js "sk-test");
    (js "AWS_SECRET_ACCESS_KEY", js "hunter2") ].

(** All three pipes were set up. *)
Definition piped : ProcessManager.SpawnOutcome :=
  {| ProcessManager.so_pid := Some 4242%N;
     ProcessManager.so_stdin := true;
     ProcessManager.so_stdout := true;
     ProcessManager.so_stderr := true |}.

Definition manager : ProcessManager.t :=
  ProcessManager.new (js "claude-code-acp") [].

(** [manager] after a successful [spawn()]. *)
Definition running : ProcessManager.t :=
  fst (ProcessManager.spawn parentEnv piped manager).

(** The doubles [1] and [2]. *)
Definition one : spec_float := S754_finite false 4503599627370496 (-52).
Definition two : spec_float := S754_finite false 4503599627370496 (-51).

(** A JSON string literal: the text between double quotes. *)
Definition quoted (s : string) : JsString := 34%N :: js s ++ [34%N].

(** The frame [{"id":1,"method":"initialize"}]. *)
Definition initializeRequest : JsString :=
  js "{" ++ quoted "id" ++ js ":1," ++ quoted "method" ++ js ":"
     ++ quoted "initialize" ++ js "}".

(** The frame [{"id":2,"method":"session/prompt"}]. *)
Definition promptRequest : JsString :=
  js "{" ++ quoted "id" ++ js ":2," ++ quoted "method" ++ js ":"
     ++ quoted "session/prompt" ++ js "}".

(** The frame [{"id":1,"method":"session/prompt"}]: the id of
    [initializeRequest] once more. *)
Definition duplicateRequest : JsString :=
  js "{" ++ quoted "id" ++ js ":1," ++ quoted "method" ++ js ":"
     ++ quoted "session/prompt" ++ js "}".

(** The frame [{"id":1,"result":{}}]. *)
Definition resultResponse : JsString :=
  js "{" ++ quoted "id" ++ js ":1," ++ quoted "result" ++ js ":{}}".

(** The frame [{"id":2,"result":{}}]. *)
Definition promptResponse : JsString :=
  js "{" ++ quoted "id" ++ js ":2," ++ quoted "result" ++ js ":{}}".

(** The frame [{"id":1,"error":{"message":"denied"}}]. *)
Definition errorResponse : JsString :=
  js "{" ++ quoted "id" ++ js ":1," ++ quoted "error" ++ js ":{"
     ++ quoted "message" ++ js ":" ++ quoted "denied" ++ js "}}".

(** A line that is not JSON. *)
Definition banner : JsString := js "agent ready".

(** [JSON.parse] on the frames above; it throws on [banner], and the
    examples hand it no other text. *)
Definition parse (text : JsString) : option JValue :=
  if bool_decide (text = initializeRequest) then
    Some (JObj [(js "id", JNum one); (js "method", JStr (js "initialize"))])
  else if bool_decide (text = promptRequest) then
    Some (JObj [(js "id", JNum two); (js "method", JStr (js "session/prompt"))])
  else if bool_decide (text = duplicateRequest) then
    Some (JObj [(js "id", JNum one); (js "method", JStr (js "session/prompt"))])
  else if bool_decide (text = resultResponse) then
    Some (JObj [(js "id", JNum one); (js "result", JObj [])])
  else if bool_decide (text = promptResponse) then
    Some (JObj [(js "id", JNum two); (js "result", JObj [])])
  else if bool_decide (text = errorResponse) then
    Some (JObj [(js "id", JNum one);
                (js "error", JObj [(js "message", JStr (js "denied"))])])
  else None.

Definition config : BridgeServer.ServerConfig :=
  {| BridgeServer.port := 8647;
     BridgeServer.command := js "claude-code-acp";
     BridgeServer.commandArgs := [] |}.

Definition step := BridgeServer.step parse parentEnv config.
Definition run := BridgeServer.run parse parentEnv config.

(** One peer is connected and its process runs. *)
Definition connected : BridgeServer.State :=
  run [BridgeServer.Connection piped] BridgeServer.init.

(** The peer has sent [initializeRequest] at time 100. *)
Definition initializing : BridgeServer.State :=
  run [BridgeServer.WsMessage 0 initializeRequest 100 true] connected.

(** The peer has also sent [promptRequest] at time 150. *)
Definition twoPending : BridgeServer.State :=
  run [BridgeServer.WsMessage 0 promptRequest 150 true] initializing.

(** The peer of [twoPending] has gone. *)
Definition disconnected : BridgeServer.State :=
  run [BridgeServer.WsClose 0] twoPending.

(** A first peer connects and its process exits, so that the server closes
    the socket; a second peer connects before the ["close"] event of the
    first socket arrives; then that event arrives, and a third peer
    connects. *)
Definition lateClose : list BridgeServer.Event :=
  [ BridgeServer.Connection piped;
    BridgeServer.ProcExit 0 (Some 1) None;
    BridgeServer.Connection piped;
    BridgeServer.WsClose 0;
    BridgeServer.Connection piped ].

(** [twoPending] after the answer to [initializeRequest] at time 175. *)
Definition resolved : BridgeServer.State :=
  run [BridgeServer.ProcStdout 0 resultResponse 175] twoPending.

(** The child was started without a standard output pipe. *)
Definition unpiped : ProcessManager.SpawnOutcome :=
  {| ProcessManager.so_pid := Some 4243%N;
     ProcessManager.so_stdin := true;
     ProcessManager.so_stdout := false;
     ProcessManager.so_stderr := true |}.

(** The frame [{"id":[1],"method":"session/prompt"}]. *)
Definition arrayIdRequest : JsString :=
  js "{" ++ quoted "id" ++ js ":[1]," ++ quoted "method" ++ js ":"
     ++ quoted "session/prompt" ++ js "}".

(** The frame [{"id":{"toString":1},"method":"session/prompt"}]. *)
Definition unprintableIdRequest : JsString :=
  js "{" ++ quoted "id" ++ js ":{" ++ quoted "toString" ++ js ":1},"
     ++ quoted "method" ++ js ":" ++ quoted "session/prompt" ++ js "}".

(** [JSON.parse] on the two frames above and on those of [parse]. *)
Definition parseMore (text : JsString) : option JValue :=
  if bool_decide (text = arrayIdRequest) then
    Some (JObj [(js "id", JArr [JNum one]); (js "method", JStr (js "session/prompt"))])
  else if bool_decide (text = unprintableIdRequest) then
    Some (JObj [(js "id", JObj [(js "toString", JNum one)]);
                (js "method", JStr (js "session/prompt"))])
  else parse text.

(** The second peer of [lateClose] has been admitted: the server has
    closed the socket of the first peer, whose ["close"] event has not
    arrived. *)
Definition secondPeer : BridgeServer.State :=
  run [ BridgeServer.Connection piped;
        BridgeServer.ProcExit 0 (Some 1) None;
        BridgeServer.Connection piped ] BridgeServer.init.

(** The frame [{"id":2,"method":"initialize"}]. *)
Definition secondInitializeRequest : JsString :=
  js "{" ++ quoted "id" ++ js ":2," ++ quoted "method" ++ js ":"
     ++ quoted "initialize" ++ js "}".

(** [JSON.parse] on the frame above and on those of [parse]. *)
Definition parseHandshake (text : JsString) : option JValue :=
  if bool_decide (text = secondInitializeRequest) then
    Some (JObj [(js "id", JNum two); (js "method", JStr (js "initialize"))])
  else parse text.

(** What the second peer of [lateClose] sees: it sends [initialize] with
    the id 1 and with the id 2; the process answers the first; the
    ["close"] event of the first peer's socket arrives; the process, which
    has been sent SIGTERM and has not exited, answers the second. *)
Definition lateCloseSession : list BridgeServer.Event :=
  [ BridgeServer.WsMessage 1 initializeRequest 100 true;
    BridgeServer.WsMessage 1 secondInitializeRequest 110 true;
    BridgeServer.ProcStdout 1 resultResponse 120;
    BridgeServer.WsClose 0;
    BridgeServer.ProcStdout 1 promptResponse 130 ].

(** A peer connects and goes: its process is sent SIGTERM and has not
    exited. *)
Definition peerGone : BridgeServer.State :=
  run [ BridgeServer.Connection piped; BridgeServer.WsClose 0 ] BridgeServer.init.

(** The next peer is admitted. *)
Definition nextPeer : BridgeServer.State :=
  run [ BridgeServer.Connection piped ] peerGone.

(** The process of the peer that went writes a line, then exits on the
    signal. *)
Definition previousProcessEnds : list BridgeServer.Event :=
  [ BridgeServer.ProcStdout 0 banner 10;
    BridgeServer.ProcExit 0 None (Some ProcessManager.SIGTERM) ].

End Demo.

(* ===================================================================== *)
(** * Properties of the process manager                                    *)
(* ===================================================================== *)

Section ProcessManagerProperties.

Import ProcessManager.

Lemma envPairs_lift (parent : Env) :
  envPairs (map (fun kv => (fst kv, Some (snd kv))) parent) = parent.
Proof.
  unfold envPairs.
  induction parent as [|[k v] parent IH]; [reflexivity|].
  cbn. f_equal. exact IH.
Qed.

Lemma envPairs_obj_set_present (k : JsString) (parent : Env) (v : JsString) :
  obj_get k parent = Some v →
  envPairs (obj_set k (Some v) (map (fun kv => (fst kv, Some (snd kv))) parent))
  = parent.
Proof.
  unfold envPairs.
  induction parent as [|[k' v'] parent IH]; simpl; [discriminate|].
  case_bool_decide as Hk; intros Hget; simpl.
  - injection Hget as ->. subst k'. f_equal. apply envPairs_lift.
  - f_equal. now apply IH.
Qed.

Lemma envPairs_obj_set_absent (k : JsString) (parent : Env) :
  obj_get k parent = None →
  envPairs (obj_set k None (map (fun kv => (fst kv, Some (snd kv))) parent))
  = parent.
Proof.
  unfold envPairs.
  induction parent as [|[k' v'] parent IH]; simpl; [reflexivity|].
  case_bool_decide as Hk; intros Hget; simpl; [discriminate|].
  f_equal. now apply IH.
Qed.

(** The object literal of [spawn()] spreads [process.env] and then assigns
    one of its own keys to itself: the child gets the whole environment. *)
Lemma childEnv_parent (parent : Env) : childEnv parent = parent.
Proof.
  unfold childEnv, spawnEnvLiteral.
  destruct (obj_get ANTHROPIC_API_KEY parent) as [v|] eqn:Hget.
  - now apply envPairs_obj_set_present.
  - now apply envPairs_obj_set_absent.
Qed.

(** C1: the environment [spawn()] hands to the child.  With a parent
    environment that holds [PATH], [ANTHROPIC_API_KEY] and
    [AWS_SECRET_ACCESS_KEY], the child process receives all three
    variables, not the credential alone. *)
Theorem spawn_env_passes_every_parent_variable :
  ∃ c, process Demo.running = Some c
       ∧ obj_get (js "ANTHROPIC_API_KEY") (env c) = Some (js "sk-test")
       ∧ obj_get (js "PATH") (env c) = Some (js "/usr/bin")
       ∧ obj_get (js "AWS_SECRET_ACCESS_KEY") (env c) = Some (js "hunter2").
Proof. eexists. repeat split; reflexivity. Qed.

Lemma endsWith_LF_app (s : JsString) : endsWith (s ++ LF) LF = true.
Proof.
  unfold endsWith, LF. apply bool_decide_eq_true.
  rewrite length_app. simpl.
  replace (length s + 1 - 1)%nat with (length s) by lia.
  now rewrite drop_app_length.
Qed.

Lemma count_LF_app (s t : JsString) :
  count_occ N.eq_dec (s ++ t) 10%N
  = (count_occ N.eq_dec s 10%N + count_occ N.eq_dec t 10%N)%nat.
Proof. apply count_occ_app. Qed.

(** C7: [send(message)].  Without a running process, or without an input
    pipe, [send] returns [false] and leaves the manager as it was.
    Otherwise it returns what the write returned and writes one chunk:
    [message] itself when it ends with a newline, and [message] followed by
    one newline when it does not; the chunk always ends with a newline and
    holds at most one newline more than [message]. *)
Theorem send_appends_one_newline (message : JsString) (ok : bool) (pm : t) :
  (isRunning pm = false → send message ok pm = (false, pm))
  ∧ (∀ c, process pm = Some c → stdin c = None → send message ok pm = (false, pm))
  ∧ (∀ c w, process pm = Some c → isRunning pm = true → stdin c = Some w →
       ∃ line,
         send message ok pm
         = (ok, setProcess (Some (setStdin (Some (w ++ [line])) c)) pm)
         ∧ written (snd (send message ok pm)) = written pm ++ [line]
         ∧ endsWith line LF = true
         ∧ (endsWith message LF = true → line = message)
         ∧ (endsWith message LF = false → line = message ++ LF)
         ∧ (count_occ N.eq_dec line 10%N
            = count_occ N.eq_dec message 10%N
              + (if endsWith message LF then 0 else 1))%nat).
Proof.
  split; [|split].
  - unfold send, isRunning. destruct (process pm) as [c|]; [|reflexivity].
    destruct (exitCode c); [reflexivity|discriminate].
  - intros c Hc Hin. unfold send. rewrite Hc, Hin.
    now destruct (isRunning pm).
  - intros c w Hc Hrun Hin.
    exists (if endsWith message LF then message else message ++ LF).
    unfold send, written. rewrite Hc, Hrun, Hin. simpl.
    repeat split.
    + destruct (endsWith message LF) eqn:E; [exact E|apply endsWith_LF_app].
    + now intros ->.
    + now intros ->.
    + destruct (endsWith message LF); [lia|].
      rewrite count_LF_app. reflexivity.
Qed.

(** C7 at [message = "ping"], once on a running process and once on a
    manager that never spawned. *)
Lemma send_appends_one_newline_witness :
  send (js "ping") true Demo.manager = (false, Demo.manager)
  ∧ written (snd (send (js "ping") true Demo.running)) = [js "ping" ++ LF].
Proof.
  destruct (send_appends_one_newline (js "ping") true Demo.manager) as (H1 & _).
  split; [apply H1; reflexivity|].
  destruct (send_appends_one_newline (js "ping") true Demo.running) as (_ & _ & H3).
  edestruct H3 as (line & _ & Hw & _ & _ & Hline & _);
    [reflexivity|reflexivity|reflexivity|].
  rewrite Hw, (Hline eq_refl). reflexivity.
Defined.

Lemma trimStart_nil_iff (s : JsString) :
  trimStart s = [] ↔ forallb isWhiteSpace s = true.
Proof.
  induction s as [|c s IH]; simpl; [tauto|].
  destruct (isWhiteSpace c); simpl; [exact IH|].
  split; discriminate.
Qed.

Lemma trimStart_whitespace (s : JsString) :
  forallb isWhiteSpace s = true → trimStart s = [].
Proof. apply trimStart_nil_iff. Qed.

Lemma forallb_trimStart (s : JsString) :
  forallb isWhiteSpace s = false → forallb isWhiteSpace (trimStart s) = false.
Proof.
  induction s as [|c s IH]; simpl; [discriminate|].
  destruct (isWhiteSpace c) eqn:E; simpl; [exact IH|].
  intros _. now rewrite E.
Qed.

Lemma forallb_reverse (s : JsString) :
  forallb isWhiteSpace (rev s) = forallb isWhiteSpace s.
Proof.
  induction s as [|c s IH]; [reflexivity|].
  simpl. rewrite forallb_app, IH. simpl.
  destruct (isWhiteSpace c), (forallb isWhiteSpace s); reflexivity.
Qed.

(** [trim] leaves nothing exactly when every code unit is white space. *)
Lemma trim_nil_iff (s : JsString) :
  trim s = [] ↔ forallb isWhiteSpace s = true.
Proof.
  unfold trim, trimEnd. split.
  - intros H. destruct (forallb isWhiteSpace s) eqn:E; [reflexivity|exfalso].
    apply forallb_trimStart in E.
    apply (f_equal (@rev N)) in H. rewrite rev_involutive in H. simpl in H.
    apply trimStart_nil_iff in H. rename H into Hr. rewrite forallb_reverse in Hr. congruence.
  - intros H. now rewrite (trimStart_whitespace s H).
Qed.

(** C8 as stated fails: the line [" x"] is emitted with its leading space,
    while its trimmed form is ["x"]. *)
Lemma onLine_emits_untrimmed_line :
  trim (js " x") = js "x"
  ∧ onLine (js " x") = [EmitMessage (js " x")]
  ∧ onLine (js " x") ≠ [EmitMessage (trim (js " x"))].
Proof. repeat split; [reflexivity..|discriminate]. Qed.

(** C8, amended: a line of standard output that holds only white space
    (so that trimming leaves nothing) emits no event; every other line is
    emitted as one [message] event that carries the line as it was read,
    untrimmed. *)
Theorem onLine_emits_line_verbatim (line : JsString) :
  (trim line = [] → onLine line = [])
  ∧ (trim line ≠ [] → onLine line = [EmitMessage line])
  ∧ (onLine line = [] ↔ forallb isWhiteSpace line = true).
Proof.
  unfold onLine. split; [|split].
  - intros ->. reflexivity.
  - intros H. now rewrite bool_decide_eq_false_2.
  - rewrite <- trim_nil_iff. case_bool_decide; simpl; split; try tauto; discriminate.
Qed.

(** C8 amended, at a blank line and at an indented line. *)
Lemma onLine_emits_line_verbatim_witness :
  onLine (js "   ") = [] ∧ onLine (js "  ok ") = [EmitMessage (js "  ok ")].
Proof.
  split.
  - apply (onLine_emits_line_verbatim (js "   ")). reflexivity.
  - apply (onLine_emits_line_verbatim (js "  ok ")). discriminate.
Defined.

End ProcessManagerProperties.

(* ===================================================================== *)
(** * Properties of [Map] keyed by SameValueZero                           *)
(* ===================================================================== *)

Section MapProperties.

Lemma numSameValueZero_true (a b c : spec_float) :
  numSameValueZero a b = true → numSameValueZero a c = numSameValueZero b c.
Proof.
  destruct a as [sa|sa| |sa ma ea], b as [sb|sb| |sb mb eb]; simpl;
    try discriminate; try reflexivity.
  - intros H. apply Bool.eqb_prop in H. now subst.
  - intros H. apply andb_prop in H as [H He]. apply andb_prop in H as [Hs Hm].
    apply Bool.eqb_prop in Hs. apply Pos.eqb_eq in Hm. apply Z.eqb_eq in He.
    now subst.
Qed.

Lemma sameValueZero_true (a b c : JValue) :
  sameValueZero a b = true → sameValueZero a c = sameValueZero b c.
Proof.
  destruct a, b; simpl; try discriminate; try reflexivity.
  - intros H. apply Bool.eqb_prop in H. now subst.
  - intros H. destruct c; try reflexivity. now apply numSameValueZero_true.
  - intros H. apply bool_decide_eq_true in H. now subst.
Qed.

Lemma numSameValueZero_sym (a b : spec_float) :
  numSameValueZero a b = numSameValueZero b a.
Proof.
  destruct a, b; simpl; try reflexivity.
  - now destruct s, s0.
  - rewrite (Pos.eqb_sym m), (Z.eqb_sym e). now destruct s, s0.
Qed.

Lemma sameValueZero_sym (a b : JValue) : sameValueZero a b = sameValueZero b a.
Proof.
  destruct a, b; simpl; try reflexivity.
  - now destruct b, b0.
  - apply numSameValueZero_sym.
  - apply bool_decide_ext. split; congruence.
Qed.

Lemma sameValueZero_refl (k : JValue) : isPrimitive k = true → sameValueZero k k = true.
Proof.
  destruct k as [|b|n|s| |]; simpl; try discriminate; intros _.
  - reflexivity.
  - now destruct b.
  - destruct n as [| | |s m e]; simpl; try reflexivity.
    + now destruct s.
    + rewrite Pos.eqb_refl, Z.eqb_refl. now destruct s.
  - now apply bool_decide_eq_true.
Qed.

Lemma sameValueZero_primitive (a b : JValue) :
  sameValueZero a b = true → isPrimitive a = true ∧ isPrimitive b = true.
Proof. destruct a, b; simpl; try discriminate; auto. Qed.

Lemma sameValueZero_canonicalKey (k x : JValue) :
  sameValueZero (canonicalKey k) x = sameValueZero k x.
Proof. destruct k as [| |n| | |]; try reflexivity. now destruct n. Qed.

Context {V : Type}.
Implicit Types (m : JsMap V) (k : JValue) (v : V).

Lemma map_get_set_eq m k v :
  isPrimitive k = true → map_get k (map_set k v m) = Some v.
Proof.
  intros Hk. induction m as [|[k' v'] m IH]; simpl.
  - now rewrite sameValueZero_canonicalKey, sameValueZero_refl.
  - destruct (sameValueZero k' k) eqn:E; simpl; rewrite E; [reflexivity|exact IH].
Qed.

Lemma map_get_set_ne m k k' v :
  sameValueZero k k' = false → map_get k' (map_set k v m) = map_get k' m.
Proof.
  intros Hk. induction m as [|[k0 v0] m IH]; simpl.
  - now rewrite sameValueZero_canonicalKey, Hk.
  - destruct (sameValueZero k0 k) eqn:E; simpl.
    + rewrite (sameValueZero_true _ _ k' E), Hk. reflexivity.
    + now rewrite IH.
Qed.

Lemma map_size_set_present m k v v0 :
  map_get k m = Some v0 → map_size (map_set k v m) = map_size m.
Proof.
  unfold map_size. induction m as [|[k' v'] m IH]; simpl; [discriminate|].
  destruct (sameValueZero k' k); simpl; [reflexivity|].
  intros H. now rewrite IH.
Qed.

Lemma map_size_set_absent m k v :
  map_get k m = None → map_size (map_set k v m) = S (map_size m).
Proof.
  unfold map_size. induction m as [|[k' v'] m IH]; simpl; [reflexivity|].
  destruct (sameValueZero k' k); simpl; [discriminate|].
  intros H. now rewrite IH.
Qed.

(** An entry that answers for [k] is the one [delete] removes. *)
Lemma map_get_split m k v :
  map_get k m = Some v →
  ∃ l1 k' l2, m = l1 ++ (k', v) :: l2
              ∧ sameValueZero k' k = true
              ∧ map_get k l1 = None
              ∧ map_delete k m = l1 ++ l2
              ∧ ∀ v', map_set k v' m = l1 ++ (k', v') :: l2.
Proof.
  induction m as [|[k' v'] m IH]; simpl; [discriminate|].
  destruct (sameValueZero k' k) eqn:E.
  - intros [= ->]. exists [], k', m. simpl. auto.
  - intros H. destruct (IH H) as (l1 & k0 & l2 & -> & Hk & Hl & Hd & Hs).
    exists ((k', v') :: l1), k0, l2. simpl. rewrite E, Hd.
    repeat split; auto. intros v0. now rewrite Hs.
Qed.

Lemma map_get_none_delete m k : map_get k m = None → map_delete k m = m.
Proof.
  induction m as [|[k' v'] m IH]; simpl; [reflexivity|].
  destruct (sameValueZero k' k); [discriminate|].
  intros H. now rewrite IH.
Qed.

Lemma map_get_none_set m k v :
  map_get k m = None → map_set k v m = m ++ [(canonicalKey k, v)].
Proof.
  induction m as [|[k' v'] m IH]; simpl; [reflexivity|].
  destruct (sameValueZero k' k); [discriminate|].
  intros H. now rewrite IH.
Qed.

Lemma map_size_delete m k v :
  map_get k m = Some v → S (map_size (map_delete k m)) = map_size m.
Proof.
  intros H. destruct (map_get_split m k v H) as (l1 & k' & l2 & -> & _ & _ & -> & _).
  unfold map_size. rewrite !length_app. simpl. lia.
Qed.

Lemma map_get_delete_ne m k k' :
  sameValueZero k k' = false → map_get k' (map_delete k m) = map_get k' m.
Proof.
  intros Hk. induction m as [|[k0 v0] m IH]; simpl; [reflexivity|].
  destruct (sameValueZero k0 k) eqn:E; simpl.
  - now rewrite (sameValueZero_true _ _ k' E), Hk.
  - now rewrite IH.
Qed.

Lemma map_get_app_none m1 m2 k :
  map_get k m1 = None → map_get k (m1 ++ m2) = map_get k m2.
Proof.
  induction m1 as [|[k' v'] m1 IH]; simpl; [reflexivity|].
  destruct (sameValueZero k' k); [discriminate|exact IH].
Qed.

Lemma map_get_app_none_inv m1 m2 k :
  map_get k (m1 ++ m2) = None → map_get k m1 = None ∧ map_get k m2 = None.
Proof.
  induction m1 as [|[k' v'] m1 IH]; simpl; [auto|].
  destruct (sameValueZero k' k); [discriminate|exact IH].
Qed.

End MapProperties.

(* ===================================================================== *)
(** * Properties of the bridge server                                      *)
(* ===================================================================== *)

Section BridgeServerProperties.

Import BridgeServer.

Variable JSON_parse : JsString → option JValue.
Variable process_env : ProcessManager.Env.
Variable config : ServerConfig.

Local Abbreviation trackResponse := (BridgeServer.trackResponse JSON_parse).
Local Abbreviation trackRequest := (BridgeServer.trackRequest JSON_parse).
Local Abbreviation handleOutgoingMessage := (BridgeServer.handleOutgoingMessage JSON_parse).
Local Abbreviation handleIncomingMessage := (BridgeServer.handleIncomingMessage JSON_parse).
Local Abbreviation deliver := (BridgeServer.deliver JSON_parse).
Local Abbreviation deliverAll := (BridgeServer.deliverAll JSON_parse).
Local Abbreviation ensureProcess := (BridgeServer.ensureProcess JSON_parse process_env config).
Local Abbreviation handleConnection := (BridgeServer.handleConnection JSON_parse process_env config).
Local Abbreviation step := (BridgeServer.step JSON_parse process_env config).
Local Abbreviation run := (BridgeServer.run JSON_parse process_env config).
Local Abbreviation reachable := (BridgeServer.reachable JSON_parse process_env config).
Local Abbreviation flips := (BridgeServer.flips JSON_parse process_env config).
Local Abbreviation closeListenerRuns :=
  (BridgeServer.closeListenerRuns JSON_parse process_env config).
Local Abbreviation resolution := (BridgeServer.resolution JSON_parse).
Local Abbreviation tracking := (BridgeServer.tracking JSON_parse).
Local Abbreviation handshakeSucceeds := (BridgeServer.handshakeSucceeds JSON_parse).

(** ** The two tracking blocks as equations *)

Lemma trackResponse_unresolved data now s :
  resolution data s = None → trackResponse data now s = s.
Proof.
  unfold BridgeServer.resolution, BridgeServer.trackResponse.
  destruct (JSON_parse data) as [parsed|]; [|reflexivity].
  destruct (member (js "id") parsed) as [| |id]; try reflexivity.
  destruct (map_get id (pendingRequests s)); [discriminate|reflexivity].
Qed.

Lemma trackResponse_resolved data now s parsed id pending :
  resolution data s = Some (parsed, id, pending) →
  trackResponse data now s
  = {| listening := listening s; sockets := sockets s; procs := procs s;
       telemetry := telemetry s ++ resolveCalls now parsed pending;
       nextSpan := nextSpan s;
       activeConnection := activeConnection s;
       processManager := processManager s;
       pendingRequests := map_delete id (pendingRequests s);
       sessionAuthenticated :=
         sessionAuthenticated s
         || (isInitialize (method pending)
             && negb (truthyAccess (member (js "error") parsed))) |}.
Proof.
  unfold BridgeServer.resolution, BridgeServer.trackResponse, resolveCalls.
  destruct (JSON_parse data) as [parsed'|]; [|discriminate].
  destruct (member (js "id") parsed') as [| |id']; try discriminate.
  destruct (map_get id' (pendingRequests s)) as [pending'|]; [|discriminate].
  intros [= -> -> ->].
  destruct s as [li so pr te ns ac pm pe au].
  unfold call, setPendingRequests, setSessionAuthenticated, setTelemetry; simpl.
  destruct (truthyAccess (member (js "error") parsed)); simpl.
  - rewrite andb_false_r, orb_false_r, <- !app_assoc. reflexivity.
  - rewrite andb_true_r.
    destruct (isInitialize (method pending)), au; simpl;
      rewrite <- !app_assoc; reflexivity.
Qed.

Lemma trackRequest_not_tracked message now s :
  tracking message = NotTracked → trackRequest message now s = s.
Proof.
  unfold BridgeServer.tracking, BridgeServer.trackRequest.
  destruct (JSON_parse message) as [parsed|]; [|reflexivity].
  destruct (member (js "id") parsed) as [| |id]; try reflexivity.
  destruct (member (js "method") parsed) as [| |m]; try reflexivity.
  destruct (truthy m); [|reflexivity].
  destruct (toStringThrows m); [reflexivity|].
  destruct (toStringThrows id); discriminate.
Qed.

Lemma trackRequest_leaked message now s m :
  tracking message = SpanLeaked m →
  trackRequest message now s
  = {| listening := listening s; sockets := sockets s; procs := procs s;
       telemetry := telemetry s
                    ++ [StartSpan (nextSpan s) m; Span_setRpcMethod (nextSpan s) m];
       nextSpan := S (nextSpan s);
       activeConnection := activeConnection s;
       processManager := processManager s;
       pendingRequests := pendingRequests s;
       sessionAuthenticated := sessionAuthenticated s |}.
Proof.
  unfold BridgeServer.tracking, BridgeServer.trackRequest.
  destruct (JSON_parse message) as [parsed|]; [|discriminate].
  destruct (member (js "id") parsed) as [| |id]; try discriminate.
  destruct (member (js "method") parsed) as [| |m']; try discriminate.
  destruct (truthy m'); [|discriminate].
  destruct (toStringThrows m'); [discriminate|].
  destruct (toStringThrows id); [|discriminate].
  intros [= ->].
  destruct s; unfold call, setNextSpan, setTelemetry; simpl.
  rewrite <- !app_assoc. reflexivity.
Qed.

Lemma trackRequest_tracked message now s id m :
  tracking message = Tracked id m →
  trackRequest message now s
  = {| listening := listening s; sockets := sockets s; procs := procs s;
       telemetry := telemetry s
                    ++ [StartSpan (nextSpan s) m; Span_setRpcMethod (nextSpan s) m;
                        Span_setRpcId (nextSpan s) id; RequestCount_add 1 m];
       nextSpan := S (nextSpan s);
       activeConnection := activeConnection s;
       processManager := processManager s;
       pendingRequests :=
         map_set id {| startTime := now; method := m; span := nextSpan s |}
                 (pendingRequests s);
       sessionAuthenticated := sessionAuthenticated s |}.
Proof.
  unfold BridgeServer.tracking, BridgeServer.trackRequest.
  destruct (JSON_parse message) as [parsed|]; [|discriminate].
  destruct (member (js "id") parsed) as [| |id']; try discriminate.
  destruct (member (js "method") parsed) as [| |m']; try discriminate.
  destruct (truthy m'); [|discriminate].
  destruct (toStringThrows m'); [discriminate|].
  destruct (toStringThrows id'); [discriminate|].
  intros [= -> ->].
  destruct s; unfold call, setNextSpan, setTelemetry, setPendingRequests; simpl.
  rewrite <- !app_assoc. reflexivity.
Qed.

(** ** What the handlers leave alone *)

Lemma closedSpans_app (a b : list TelemetryCall) :
  closedSpans (a ++ b) = closedSpans a ++ closedSpans b.
Proof. apply omap_app. Qed.

Lemma handleProcessExit_fold (m : JsMap PendingRequest) (s : State) :
  fold_left
    (fun s entry =>
       let pending := snd entry in
       let s := call (Span_setStatus (span pending) ERROR
                                     (Some (JStr PROCESS_EXITED_REASON))) s in
       call (Span_end (span pending)) s) m s
  = setTelemetry (telemetry s ++ exitCalls m) s.
Proof.
  revert s. induction m as [|entry m IH]; intros s.
  - destruct s; unfold setTelemetry; simpl. now rewrite app_nil_r.
  - cbn [fold_left]. rewrite IH.
    destruct s; unfold setTelemetry, call, exitCalls; simpl.
    now rewrite <- !app_assoc.
Qed.

(** The ["exit"] listener: the calls on the spans, the cleared map, and
    the close of an open connection. *)
Lemma handleProcessExit_eq (s : State) :
  handleProcessExit s
  = let s' := setPendingRequests []
                (setTelemetry (telemetry s ++ exitCalls (pendingRequests s)) s) in
    if activeIsOpen s then
      match activeConnection s with
      | Some a => onSocket a (ws_close 1011 PROCESS_EXITED_REASON) s'
      | None => s'
      end
    else s'.
Proof.
  unfold handleProcessExit. rewrite handleProcessExit_fold. reflexivity.
Qed.

Lemma closedSpans_exitCalls (m : JsMap PendingRequest) :
  closedSpans (exitCalls m) = flat_map (fun x => [x; x]) (spansOf m).
Proof.
  induction m as [|entry m IH]; [reflexivity|].
  change (closedSpans (exitCalls (entry :: m)))
    with (span (snd entry) :: span (snd entry) :: closedSpans (exitCalls m)).
  now rewrite IH.
Qed.

Lemma closedSpans_resolveCalls now parsed pending :
  closedSpans (resolveCalls now parsed pending) = [span pending; span pending].
Proof.
  unfold resolveCalls. now destruct (truthyAccess (member (js "error") parsed)).
Qed.

Lemma core_call c s : statusOrEnd c = None → core (call c s) = core s.
Proof.
  intros H. unfold core, call; simpl.
  rewrite closedSpans_app. unfold closedSpans at 2. simpl. rewrite H.
  now rewrite app_nil_r.
Qed.

Lemma core_forwardToPeer data s : core (forwardToPeer data s) = core s.
Proof.
  unfold forwardToPeer. destruct (activeIsOpen s); [|reflexivity].
  now destruct (activeConnection s).
Qed.

Lemma core_forwardToProcess message ok s :
  core (forwardToProcess message ok s) = core s.
Proof.
  unfold forwardToProcess, core.
  destruct (processManager s) as [p|]; simpl;
    [|now rewrite closedSpans_app, app_nil_r].
  destruct (procs s !! p) as [pm|]; simpl;
    [|now rewrite closedSpans_app, app_nil_r].
  destruct (ProcessManager.send message ok pm) as [[] pm']; simpl;
    [reflexivity|now rewrite closedSpans_app, app_nil_r].
Qed.

Lemma core_handleProcessError s : core (handleProcessError s) = core s.
Proof.
  unfold handleProcessError, core.
  destruct (activeConnection (call _ s)) as [a|]; simpl;
    now rewrite closedSpans_app, app_nil_r.
Qed.

Lemma core_handleProcessExit s :
  core (handleProcessExit s)
  = ([], nextSpan s,
     closedSpans (telemetry s) ++ flat_map (fun x => [x; x]) (spansOf (pendingRequests s))).
Proof.
  rewrite handleProcessExit_eq. unfold core. cbv zeta.
  destruct (activeIsOpen s); [destruct (activeConnection s)|]; simpl;
    now rewrite closedSpans_app, closedSpans_exitCalls.
Qed.

Lemma core_handleOutgoingMessage data now s :
  core (handleOutgoingMessage data now s)
  = match resolution data s with
    | Some (_, id, pending) =>
        (map_delete id (pendingRequests s), nextSpan s,
         closedSpans (telemetry s) ++ [span pending; span pending])
    | None => core s
    end.
Proof.
  unfold BridgeServer.handleOutgoingMessage. cbv zeta.
  rewrite core_forwardToPeer.
  destruct (resolution data s) as [[[parsed id] pending]|] eqn:R.
  - rewrite (trackResponse_resolved data now _ parsed id pending) by exact R.
    unfold core; simpl.
    now rewrite !closedSpans_app, closedSpans_resolveCalls, app_nil_r.
  - rewrite trackResponse_unresolved by exact R.
    unfold core; simpl. now rewrite closedSpans_app, app_nil_r.
Qed.

Lemma core_handleIncomingMessage message now ok s :
  core (handleIncomingMessage message now ok s)
  = match tracking message with
    | NotTracked => core s
    | SpanLeaked _ => (pendingRequests s, S (nextSpan s), closedSpans (telemetry s))
    | Tracked id m =>
        (map_set id {| startTime := now; method := m; span := nextSpan s |}
                 (pendingRequests s),
         S (nextSpan s), closedSpans (telemetry s))
    end.
Proof.
  unfold BridgeServer.handleIncomingMessage. cbv zeta.
  rewrite core_forwardToProcess.
  destruct (tracking message) as [|m|id m] eqn:T.
  - rewrite trackRequest_not_tracked by exact T.
    unfold core; simpl. now rewrite closedSpans_app, app_nil_r.
  - rewrite (trackRequest_leaked message now _ m) by exact T.
    unfold core; simpl. now rewrite !closedSpans_app, !app_nil_r.
  - rewrite (trackRequest_tracked message now _ id m) by exact T.
    unfold core; simpl. now rewrite !closedSpans_app, !app_nil_r.
Qed.

Lemma spawn_new (o : ProcessManager.SpawnOutcome) :
  let pm := ProcessManager.spawn process_env o
              (ProcessManager.new (command config) (commandArgs config)) in
  (snd pm = [] ∨ snd pm = [ProcessManager.EmitError])
  ∧ ∃ c, ProcessManager.process (fst pm) = Some c
         ∧ ProcessManager.signals c = []
         ∧ ProcessManager.exitCode c = None
         ∧ ProcessManager.env c = ProcessManager.childEnv process_env.
Proof.
  unfold ProcessManager.spawn, ProcessManager.new, ProcessManager.isRunning. simpl.
  destruct (negb (ProcessManager.so_stdout o) || negb (ProcessManager.so_stdin o)
            || negb (ProcessManager.so_stderr o)); simpl;
    (split; [auto|eexists; repeat split; reflexivity]).
Qed.

Lemma killPrevious_length s : length (procs (killPrevious s)) = length (procs s).
Proof.
  unfold killPrevious. destruct (processManager s) as [p|]; [|reflexivity].
  destruct (procs s !! p) as [pm|]; [|reflexivity].
  destruct (ProcessManager.isRunning pm); [|reflexivity].
  simpl. apply length_alter.
Qed.

Lemma ensureProcess_eq o s :
  ensureProcess o s
  = let pm := ProcessManager.spawn process_env o
                (ProcessManager.new (command config) (commandArgs config)) in
    deliverAll 0 (snd pm)
      (setProcessManager (Some (length (procs s)))
         (setProcs (procs (killPrevious s) ++ [fst pm]) (killPrevious s))).
Proof.
  unfold BridgeServer.ensureProcess. cbv zeta.
  rewrite killPrevious_length.
  now destruct (ProcessManager.spawn _ _ _).
Qed.

Lemma core_killPrevious s : core (killPrevious s) = core s.
Proof.
  unfold killPrevious. destruct (processManager s) as [p|]; [|reflexivity].
  destruct (procs s !! p) as [pm|]; [|reflexivity].
  now destruct (ProcessManager.isRunning pm).
Qed.

Lemma core_ensureProcess o s : core (ensureProcess o s) = core s.
Proof.
  rewrite ensureProcess_eq. cbv zeta.
  destruct (spawn_new o) as [[-> | ->] _]; simpl.
  - apply core_killPrevious.
  - rewrite core_handleProcessError. apply core_killPrevious.
Qed.

Lemma core_handleConnection o s : core (handleConnection o s) = core s.
Proof.
  unfold BridgeServer.handleConnection. cbv zeta.
  destruct (activeIsOpen _); [reflexivity|].
  change (core (onSocket ?w ?f ?x)) with (core x).
  rewrite core_ensureProcess.
  unfold core; simpl. now rewrite closedSpans_app, app_nil_r.
Qed.

Lemma core_handleClose s : core (handleClose s) = core s.
Proof.
  unfold handleClose. cbv zeta.
  rewrite <- (core_call (ActiveConnections_add (-1)) s) by reflexivity.
  generalize (call (ActiveConnections_add (-1)) s). intros s'. simpl.
  destruct (sessionAuthenticated s'); simpl;
    destruct (processManager s') eqn:E; simpl; rewrite ?E; reflexivity.
Qed.

Lemma core_stop s : core (stop s) = core s.
Proof.
  unfold stop. cbv zeta.
  destruct (activeConnection s); simpl;
    destruct (processManager s) eqn:E; simpl; rewrite ?E; reflexivity.
Qed.

Lemma core_deliverAll_onLine line now s :
  coreStep (core s) (core (deliverAll now (ProcessManager.onLine line) s)).
Proof.
  unfold ProcessManager.onLine.
  destruct (negb _); simpl; [|constructor].
  rewrite core_handleOutgoingMessage.
  destruct (resolution line s) as [[[parsed id] pending]|] eqn:R; [|constructor].
  unfold core. apply core_resolve.
  unfold BridgeServer.resolution in R.
  destruct (JSON_parse line) as [v|]; [|discriminate].
  destruct (member (js "id") v) as [| |id']; try discriminate.
  destruct (map_get id' (pendingRequests s)) eqn:G; [|discriminate].
  now injection R as -> -> ->.
Qed.

(** Every event acts on the pending requests and their spans in one of
    the five ways of [coreStep]. *)
Lemma step_core (e : Event) (s : State) : coreStep (core s) (core (step e s)).
Proof.
  destruct e as [o|ws message now ok|ws|ws|ws|p line now|p chunk|p ecode|p code sig|p|];
    simpl.
  - destruct (listening s); [rewrite core_handleConnection|]; constructor.
  - destruct (sockets s !! ws) as [w|]; [|constructor].
    destruct (handlers w); [|constructor].
    destruct (readyState w); try constructor;
      rewrite core_handleIncomingMessage;
      destruct (tracking message); unfold core; constructor.
  - destruct (sockets s !! ws) as [w|]; [|constructor].
    destruct (readyState w); try constructor;
      (destruct (handlers w); [rewrite core_handleClose|]; constructor).
  - destruct (sockets s !! ws) as [w|]; [|constructor].
    destruct (handlers w); [|constructor].
    unfold handleSocketError. rewrite core_call by reflexivity. constructor.
  - constructor.
  - destruct (procs s !! p) as [pm|]; [|constructor].
    destruct (ProcessManager.stdoutReader pm); [|constructor].
    apply core_deliverAll_onLine.
  - constructor.
  - destruct (procs s !! p) as [pm|]; [|constructor].
    destruct (ProcessManager.process pm) as [c|]; [|constructor].
    destruct (ProcessManager.listeners c); [|constructor].
    simpl. rewrite core_handleProcessError. constructor.
  - destruct (procs s !! p) as [pm|]; [|constructor].
    destruct (ProcessManager.process pm) as [c|]; [|constructor].
    destruct (ProcessManager.listeners c); [|constructor].
    simpl. rewrite core_handleProcessExit. apply core_exit.
  - destruct (procs s !! p) as [pm|]; [|constructor].
    destruct (ProcessManager.killTimers pm); constructor.
  - rewrite core_stop. constructor.
Qed.

(** ** The invariant of the pending requests *)

Lemma map_get_sameValueZero (m : JsMap PendingRequest) (a b : JValue) :
  sameValueZero a b = true → map_get a m = map_get b m.
Proof.
  intros H. induction m as [|[k v] m IH]; simpl; [reflexivity|].
  rewrite (sameValueZero_sym k a), (sameValueZero_sym k b),
    (sameValueZero_true a b k H), IH.
  reflexivity.
Qed.

Lemma uniqueKeys_set (m : JsMap PendingRequest) id p :
  uniqueKeys m → uniqueKeys (map_set id p m).
Proof.
  induction m as [|[k v] m IH]; simpl; [auto|].
  intros [Hk Hm]. destruct (sameValueZero k id) eqn:E; simpl; [auto|].
  split; [|auto].
  rewrite map_get_set_ne; [exact Hk|]. now rewrite sameValueZero_sym.
Qed.

Lemma uniqueKeys_delete (m : JsMap PendingRequest) id :
  uniqueKeys m → uniqueKeys (map_delete id m) ∧ map_get id (map_delete id m) = None.
Proof.
  induction m as [|[k v] m IH]; simpl; [auto|].
  intros [Hk Hm]. destruct (sameValueZero k id) eqn:E; simpl.
  - split; [exact Hm|]. now rewrite <- (map_get_sameValueZero m k id E).
  - destruct (IH Hm) as [IH1 IH2]. rewrite E. repeat split; auto.
    rewrite map_get_delete_ne; [exact Hk|]. now rewrite sameValueZero_sym.
Qed.

Lemma spansOf_app (a b : JsMap PendingRequest) :
  spansOf (a ++ b) = spansOf a ++ spansOf b.
Proof. apply map_app. Qed.

(** [set] either replaces the value of one entry or adds an entry. *)
Lemma map_set_cases (m : JsMap PendingRequest) id p :
  (∃ l1 k old l2, map_get id m = Some old
                  ∧ m = l1 ++ (k, old) :: l2
                  ∧ map_set id p m = l1 ++ (k, p) :: l2)
  ∨ (map_get id m = None ∧ map_set id p m = m ++ [(canonicalKey id, p)]).
Proof.
  destruct (map_get id m) as [old|] eqn:G.
  - left. destruct (map_get_split m id old G) as (l1 & k & l2 & Hm & _ & _ & _ & Hs).
    exists l1, k, old, l2. auto.
  - right. split; [reflexivity|]. now apply map_get_none_set.
Qed.

Lemma wfCore_step (c c' : Core) : wfCore c → coreStep c c' → wfCore c'.
Proof.
  intros Hwf Hstep. destruct Hstep as [c|m n cl id t mth|m n cl|m n cl id p G|m n cl].
  - exact Hwf.
  - destruct Hwf as (Hk & Hnd & Hlt & Hcl & Hopen).
    set (p := {| startTime := t; method := mth; span := n |}).
    assert (Hfresh : n ∉ spansOf m).
    { intros Hin. rewrite Forall_forall in Hlt. specialize (Hlt _ Hin). lia. }
    assert (Hfresh' : n ∉ cl).
    { intros Hin. rewrite Forall_forall in Hcl. specialize (Hcl _ Hin). lia. }
    split; [now apply uniqueKeys_set|].
    destruct (map_set_cases m id p) as
      [(l1 & k & old & l2 & _ & Hm & ->)|[_ ->]].
    + subst m. rewrite !spansOf_app in *. simpl in *.
      rewrite NoDup_app, NoDup_cons in Hnd. destruct Hnd as (H1 & H2 & H3 & H4).
      rewrite not_elem_of_app, not_elem_of_cons in Hfresh.
      rewrite Forall_app, Forall_cons in Hlt.
      repeat split.
      * rewrite NoDup_app, NoDup_cons. repeat split; try tauto.
        intros x Hx. specialize (H2 x Hx).
        rewrite not_elem_of_cons in *. split; [|tauto].
        intros ->. tauto.
      * rewrite Forall_app, Forall_cons. repeat split.
        -- eapply Forall_impl; [apply Hlt|]. simpl. lia.
        -- lia.
        -- eapply Forall_impl; [apply Hlt|]. simpl. lia.
      * eapply Forall_impl; [apply Hcl|]. simpl. lia.
      * intros x Hx. rewrite elem_of_app, elem_of_cons in Hx.
        destruct Hx as [Hx|[->|Hx]]; [|exact Hfresh'|].
        -- apply Hopen. rewrite elem_of_app. auto.
        -- apply Hopen. rewrite elem_of_app, elem_of_cons. auto.
    + rewrite spansOf_app. simpl. repeat split.
      * rewrite NoDup_app. repeat split; [exact Hnd| |apply NoDup_singleton].
        intros x Hx. rewrite list_elem_of_singleton. intros ->. tauto.
      * rewrite Forall_app, Forall_singleton. split; [|lia].
        eapply Forall_impl; [apply Hlt|]. simpl. lia.
      * eapply Forall_impl; [apply Hcl|]. simpl. lia.
      * intros x Hx. rewrite elem_of_app, list_elem_of_singleton in Hx.
        destruct Hx as [Hx| ->]; [now apply Hopen|exact Hfresh'].
  - destruct Hwf as (Hk & Hnd & Hlt & Hcl & Hopen).
    repeat split; auto.
    + eapply Forall_impl; [apply Hlt|]. simpl. lia.
    + eapply Forall_impl; [apply Hcl|]. simpl. lia.
  - destruct Hwf as (Hk & Hnd & Hlt & Hcl & Hopen).
    split; [now apply uniqueKeys_delete|].
    destruct (map_get_split m id p G) as (l1 & k & l2 & Hm & _ & _ & -> & _).
    subst m. rewrite !spansOf_app in *. simpl in *.
    rewrite NoDup_app, NoDup_cons in Hnd. destruct Hnd as (H1 & H2 & H3 & H4).
    rewrite Forall_app, Forall_cons in Hlt. destruct Hlt as (L1 & L2 & L3).
    repeat split.
    + rewrite NoDup_app. repeat split; [exact H1| |exact H4].
      intros x Hx. specialize (H2 x Hx). rewrite not_elem_of_cons in H2. tauto.
    + rewrite Forall_app. auto.
    + rewrite Forall_app. split; [exact Hcl|]. repeat constructor; exact L2.
    + intros x Hx. rewrite not_elem_of_app. split.
      * apply Hopen. rewrite elem_of_app, elem_of_cons in *. tauto.
      * rewrite elem_of_app in Hx.
        rewrite !not_elem_of_cons. repeat split; try apply not_elem_of_nil;
          intros ->; destruct Hx as [Hx|Hx]; [|tauto| |tauto];
          specialize (H2 _ Hx); rewrite not_elem_of_cons in H2; tauto.
  - destruct Hwf as (Hk & Hnd & Hlt & Hcl & Hopen).
    repeat split; simpl; auto using NoDup_nil_2.
    + rewrite Forall_app. split; [exact Hcl|].
      clear Hnd Hopen. induction Hlt; simpl; repeat constructor; auto.
    + intros x Hx. now apply elem_of_nil in Hx.
Qed.

Lemma wf_init : wf init.
Proof.
  repeat split; simpl; auto using NoDup_nil_2.
  intros x Hx. now apply elem_of_nil in Hx.
Qed.

Lemma wf_step e s : wf s → wf (step e s).
Proof. intros H. exact (wfCore_step _ _ H (step_core e s)). Qed.

Lemma wf_run es s : wf s → wf (run es s).
Proof.
  revert s. induction es as [|e es IH]; intros s H; [exact H|].
  apply IH, wf_step, H.
Qed.

(** Every state the server reaches satisfies the invariant. *)
Lemma reachable_wf s : reachable s → wf s.
Proof. intros [es ->]. apply wf_run, wf_init. Qed.

(** ** [sessionAuthenticated] along the handlers *)

Lemma auth_forwardToPeer data s :
  sessionAuthenticated (forwardToPeer data s) = sessionAuthenticated s.
Proof.
  unfold forwardToPeer. destruct (activeIsOpen s); [|reflexivity].
  now destruct (activeConnection s).
Qed.

Lemma auth_forwardToProcess message ok s :
  sessionAuthenticated (forwardToProcess message ok s) = sessionAuthenticated s.
Proof.
  unfold forwardToProcess.
  destruct (processManager s) as [p|]; [|reflexivity].
  destruct (procs s !! p) as [pm|]; [|reflexivity].
  now destruct (ProcessManager.send message ok pm) as [[] pm'].
Qed.

Lemma auth_handleProcessError s :
  sessionAuthenticated (handleProcessError s) = sessionAuthenticated s.
Proof.
  unfold handleProcessError. cbv zeta.
  now destruct (activeConnection (call _ s)).
Qed.

Lemma auth_handleProcessExit s :
  sessionAuthenticated (handleProcessExit s) = sessionAuthenticated s.
Proof.
  rewrite handleProcessExit_eq. cbv zeta.
  destruct (activeIsOpen s); [|reflexivity].
  now destruct (activeConnection s).
Qed.

Lemma auth_killPrevious s :
  sessionAuthenticated (killPrevious s) = sessionAuthenticated s.
Proof.
  unfold killPrevious. destruct (processManager s) as [p|]; [|reflexivity].
  destruct (procs s !! p) as [pm|]; [|reflexivity].
  now destruct (ProcessManager.isRunning pm).
Qed.

Lemma auth_ensureProcess o s :
  sessionAuthenticated (ensureProcess o s) = sessionAuthenticated s.
Proof.
  rewrite ensureProcess_eq. cbv zeta.
  destruct (spawn_new o) as [[-> | ->] _]; simpl.
  - apply auth_killPrevious.
  - rewrite auth_handleProcessError. apply auth_killPrevious.
Qed.

Lemma auth_handleConnection o s :
  sessionAuthenticated (handleConnection o s) = sessionAuthenticated s.
Proof.
  unfold BridgeServer.handleConnection. cbv zeta.
  destruct (activeIsOpen _); [reflexivity|].
  change (sessionAuthenticated (onSocket ?w ?f ?x)) with (sessionAuthenticated x).
  now rewrite auth_ensureProcess.
Qed.

Lemma auth_stop s : sessionAuthenticated (stop s) = sessionAuthenticated s.
Proof.
  unfold stop. cbv zeta.
  destruct (activeConnection s); simpl;
    destruct (processManager s) eqn:E; simpl; rewrite ?E; reflexivity.
Qed.

Lemma auth_handleClose s : sessionAuthenticated (handleClose s) = false.
Proof. reflexivity. Qed.

Lemma auth_handleIncomingMessage message now ok s :
  sessionAuthenticated (handleIncomingMessage message now ok s)
  = sessionAuthenticated s.
Proof.
  unfold BridgeServer.handleIncomingMessage. cbv zeta.
  rewrite auth_forwardToProcess.
  destruct (tracking message) as [|m|id m] eqn:T.
  - now rewrite trackRequest_not_tracked.
  - now rewrite (trackRequest_leaked message now _ m).
  - now rewrite (trackRequest_tracked message now _ id m).
Qed.

Lemma handshakeSucceeds_resolution data s :
  handshakeSucceeds data s
  = match resolution data s with
    | Some (parsed, _, pending) =>
        isInitialize (method pending)
        && negb (truthyAccess (member (js "error") parsed))
    | None => false
    end.
Proof.
  unfold BridgeServer.handshakeSucceeds, BridgeServer.resolution.
  destruct (JSON_parse data) as [parsed|]; [|reflexivity].
  destruct (member (js "id") parsed) as [| |id]; try reflexivity.
  now destruct (map_get id (pendingRequests s)).
Qed.

(** [handleOutgoingMessage] sets the flag exactly on a successful
    handshake, and never clears it. *)
Lemma auth_handleOutgoingMessage data now s :
  sessionAuthenticated (handleOutgoingMessage data now s)
  = sessionAuthenticated s || handshakeSucceeds data s.
Proof.
  unfold BridgeServer.handleOutgoingMessage. cbv zeta.
  rewrite auth_forwardToPeer, handshakeSucceeds_resolution.
  destruct (resolution data s) as [[[parsed id] pending]|] eqn:R.
  - now rewrite (trackResponse_resolved data now _ parsed id pending) by exact R.
  - rewrite trackResponse_unresolved by exact R. simpl. now rewrite orb_false_r.
Qed.

Lemma auth_step_other (e : Event) (s : State) :
  (∀ p line now, e ≠ ProcStdout p line now) →
  isWsClose e = false →
  sessionAuthenticated (step e s) = sessionAuthenticated s.
Proof.
  intros Hout Hclose.
  destruct e as [o|ws message now ok|ws|ws|ws|p line now|p chunk|p ecode|p code sig|p|];
    simpl; try discriminate.
  - destruct (listening s); [apply auth_handleConnection|reflexivity].
  - destruct (sockets s !! ws) as [w|]; [|reflexivity].
    destruct (handlers w); [|reflexivity].
    destruct (readyState w); try reflexivity; apply auth_handleIncomingMessage.
  - destruct (sockets s !! ws) as [w|]; [|reflexivity].
    now destruct (handlers w).
  - reflexivity.
  - now destruct (Hout p line now).
  - reflexivity.
  - destruct (procs s !! p) as [pm|]; [|reflexivity].
    destruct (ProcessManager.process pm) as [c|]; [|reflexivity].
    destruct (ProcessManager.listeners c); [|reflexivity].
    simpl. now rewrite auth_handleProcessError.
  - destruct (procs s !! p) as [pm|]; [|reflexivity].
    destruct (ProcessManager.process pm) as [c|]; [|reflexivity].
    destruct (ProcessManager.listeners c); [|reflexivity].
    simpl. now rewrite auth_handleProcessExit.
  - destruct (procs s !! p) as [pm|]; [|reflexivity].
    now destruct (ProcessManager.killTimers pm).
  - apply auth_stop.
Qed.

Lemma auth_step_stdout p line now s :
  sessionAuthenticated (step (ProcStdout p line now) s) = sessionAuthenticated s
  ∨ sessionAuthenticated (step (ProcStdout p line now) s)
    = sessionAuthenticated s || handshakeSucceeds line s.
Proof.
  simpl. destruct (procs s !! p) as [pm|]; [|now left].
  destruct (ProcessManager.stdoutReader pm); [|now left].
  unfold ProcessManager.onLine. destruct (negb _); [|now left].
  right. apply auth_handleOutgoingMessage.
Qed.

(** Only a ["close"] event of a socket clears the flag. *)
Lemma auth_step_mono (e : Event) (s : State) :
  isWsClose e = false →
  sessionAuthenticated s = true → sessionAuthenticated (step e s) = true.
Proof.
  intros Hclose Hs.
  destruct e as [o|ws message now ok|ws|ws|ws|p line now|p chunk|p ecode|p code sig|p|] eqn:E;
    try (rewrite <- E, auth_step_other; subst; [assumption|intros ? ? ?; discriminate|assumption]).
  destruct (auth_step_stdout p line now s) as [-> | ->]; now rewrite Hs.
Qed.

Lemma flips_authenticated es s :
  forallb (fun e => negb (isWsClose e)) es = true →
  sessionAuthenticated s = true → flips es s = O.
Proof.
  revert s. induction es as [|e es IH]; intros s Hes Hs; [reflexivity|].
  simpl in Hes. apply andb_prop in Hes as [He Hes].
  apply negb_true_iff in He.
  cbn [BridgeServer.flips]. rewrite Hs. simpl.
  apply IH; [exact Hes|]. now apply auth_step_mono.
Qed.

(** ** Routing of process output (C10, C3, C4) *)

Lemma resolution_call data c s : resolution data (call c s) = resolution data s.
Proof. reflexivity. Qed.

Lemma handleOutgoingMessage_unresolved data now s :
  resolution data s = None →
  handleOutgoingMessage data now s = forwardToPeer data (call (MessagesOut_add 1) s).
Proof.
  intros R. unfold BridgeServer.handleOutgoingMessage. cbv zeta.
  now rewrite trackResponse_unresolved.
Qed.

Lemma sockets_forwardToPeer_open data s a w :
  activeConnection s = Some a → sockets s !! a = Some w → readyState w = OPEN →
  sockets (forwardToPeer data s) = alter (ws_send data) a (sockets s).
Proof.
  intros Ha Hw Hr. unfold forwardToPeer, activeIsOpen.
  now rewrite Ha, Hw, Hr.
Qed.

Lemma sockets_forwardToPeer_closed data s :
  activeIsOpen s = false → sockets (forwardToPeer data s) = sockets s.
Proof. intros H. unfold forwardToPeer. now rewrite H. Qed.

(** C10: a line of process output that is not JSON, or whose id answers no
    pending request, leaves the pending map and [sessionAuthenticated] as
    they were; the line goes to the peer as it is when the connection is
    open (one [send] call with the line itself) and to no socket
    otherwise.  This holds whatever the line looks like, also for an
    error-free answer to an [initialize] that was never tracked. *)
Theorem untracked_output_only_forwarded (data : JsString) (now : Z) (s : State) :
  (JSON_parse data = None
   ∨ ∃ parsed id, JSON_parse data = Some parsed
                  ∧ member (js "id") parsed = Value id
                  ∧ map_get id (pendingRequests s) = None) →
  let s' := handleOutgoingMessage data now s in
  pendingRequests s' = pendingRequests s
  ∧ sessionAuthenticated s' = sessionAuthenticated s
  ∧ (∀ a w, activeConnection s = Some a → sockets s !! a = Some w →
            readyState w = OPEN →
            sockets s' = alter (ws_send data) a (sockets s)
            ∧ sent (ws_send data w) = sent w ++ [data])
  ∧ (activeIsOpen s = false → sockets s' = sockets s).
Proof.
  intros H.
  assert (R : resolution data s = None).
  { unfold BridgeServer.resolution.
    destruct H as [-> | (parsed & id & -> & -> & ->)]; reflexivity. }
  cbv zeta. rewrite (handleOutgoingMessage_unresolved data now s R).
  split; [|split; [|split]].
  - unfold forwardToPeer. destruct (activeIsOpen _); [|reflexivity].
    now destruct (activeConnection _).
  - now rewrite auth_forwardToPeer.
  - intros a w Ha Hw Hr. split; [|reflexivity].
    now rewrite (sockets_forwardToPeer_open data _ a w).
  - intros Hc. now rewrite sockets_forwardToPeer_closed.
Qed.

(** When the flag is set.  [sessionAuthenticated] goes from [false] to
    [true] only when a line of process output resolves a pending request
    whose method is ["initialize"] and the line carries no truthy [error]
    member (an [error] object is truthy); [handleOutgoingMessage] sets the
    flag in exactly that case, so resolving another method, or
    [initialize] with an error, leaves the flag as it was; and over events
    none of which is the ["close"] event of a socket, it goes from [false]
    to [true] at most once. *)
Theorem authenticated_only_by_initialize :
  (∀ e s,
      sessionAuthenticated s = false → sessionAuthenticated (step e s) = true →
      ∃ p line now parsed id pending,
        e = ProcStdout p line now
        ∧ JSON_parse line = Some parsed
        ∧ member (js "id") parsed = Value id
        ∧ map_get id (pendingRequests s) = Some pending
        ∧ method pending = JStr INITIALIZE
        ∧ truthyAccess (member (js "error") parsed) = false)
  ∧ (∀ data now s,
        sessionAuthenticated (handleOutgoingMessage data now s)
        = sessionAuthenticated s || handshakeSucceeds data s)
  ∧ (∀ data now s parsed id pending,
        resolution data s = Some (parsed, id, pending) →
        method pending ≠ JStr INITIALIZE
        ∨ truthyAccess (member (js "error") parsed) = true →
        sessionAuthenticated (handleOutgoingMessage data now s)
        = sessionAuthenticated s)
  ∧ (∀ es s,
        forallb (fun e => negb (isWsClose e)) es = true → (flips es s ≤ 1)%nat).
Proof.
  split; [|split; [|split]].
  - intros e s Hs Hs'.
    destruct (isWsClose e) eqn:Hc.
    { destruct e; try discriminate. simpl in Hs'.
      destruct (sockets s !! ws) as [w|]; [|congruence].
      destruct (readyState w); try congruence;
        (destruct (handlers w); [discriminate|simpl in Hs'; congruence]). }
    destruct e as [o|ws message now ok|ws|ws|ws|p line now|p chunk|p ecode|p code sig|p|] eqn:E;
      try (rewrite <- E, auth_step_other in Hs';
           subst; [congruence|intros ? ? ?; discriminate|assumption]).
    destruct (auth_step_stdout p line now s) as [H|H]; rewrite H in Hs'; [congruence|].
    rewrite Hs in Hs'. simpl in Hs'.
    unfold BridgeServer.handshakeSucceeds in Hs'.
    destruct (JSON_parse line) as [parsed|] eqn:P; [|discriminate].
    destruct (member (js "id") parsed) as [| |id] eqn:I; try discriminate.
    destruct (map_get id (pendingRequests s)) as [pending|] eqn:G; [|discriminate].
    apply andb_prop in Hs' as [Hi He]. apply negb_true_iff in He.
    exists p, line, now, parsed, id, pending. repeat split; auto.
    unfold isInitialize in Hi. destruct (method pending); try discriminate.
    apply bool_decide_eq_true in Hi. now subst.
  - apply auth_handleOutgoingMessage.
  - intros data now s parsed id pending R H.
    rewrite auth_handleOutgoingMessage, handshakeSucceeds_resolution, R.
    destruct H as [H|H].
    + replace (isInitialize (method pending)) with false; [apply orb_false_r|].
      unfold isInitialize. destruct (method pending); try reflexivity.
      symmetry. apply bool_decide_eq_false. congruence.
    + rewrite H. simpl. now rewrite andb_false_r, orb_false_r.
  - intros es. induction es as [|e es IH]; intros s Hes; [simpl; lia|].
    simpl in Hes. apply andb_prop in Hes as [He Hes].
    apply negb_true_iff in He.
    cbn [BridgeServer.flips].
    destruct (sessionAuthenticated s) eqn:Hs; simpl.
    + now apply IH.
    + destruct (sessionAuthenticated (step e s)) eqn:Hs'.
      * rewrite (flips_authenticated es _ Hes Hs'). lia.
      * now apply IH.
Qed.

(** The flag is cleared by the ["close"] listener of [start()] alone: the
    ["close"] event of a socket that was turned away, or that has already
    closed, leaves it. *)
Lemma auth_step_keeps (e : Event) (s : State) :
  runsCloseListener e s = false →
  sessionAuthenticated s = true → sessionAuthenticated (step e s) = true.
Proof.
  intros Hc Hs.
  destruct (isWsClose e) eqn:Hw; [|now apply auth_step_mono].
  destruct e; try discriminate. simpl in Hc |- *.
  destruct (sockets s !! ws) as [w|]; [|exact Hs].
  destruct (readyState w); try exact Hs; rewrite Hc; exact Hs.
Qed.

Lemma flips_authenticated_between_closes es s :
  closeListenerRuns es s = false →
  sessionAuthenticated s = true → flips es s = O.
Proof.
  revert s. induction es as [|e es IH]; intros s Hes Hs; [reflexivity|].
  cbn [BridgeServer.closeListenerRuns] in Hes.
  apply orb_false_elim in Hes as [He Hes].
  cbn [BridgeServer.flips]. rewrite Hs. simpl.
  apply IH; [exact Hes|]. now apply auth_step_keeps.
Qed.

(** While the ["close"] listener does not run, the flag goes from [false]
    to [true] at most once, whatever else happens: ["close"] events of
    sockets that were turned away included. *)
Lemma flips_once_between_closes es s :
  closeListenerRuns es s = false → (flips es s ≤ 1)%nat.
Proof.
  revert s. induction es as [|e es IH]; intros s Hes; [simpl; lia|].
  cbn [BridgeServer.closeListenerRuns] in Hes.
  apply orb_false_elim in Hes as [He Hes].
  cbn [BridgeServer.flips].
  destruct (sessionAuthenticated s) eqn:Hs; simpl.
  - now apply IH.
  - destruct (sessionAuthenticated (step e s)) eqn:Hs'.
    + rewrite (flips_authenticated_between_closes es _ Hes Hs'). lia.
    + now apply IH.
Qed.

Lemma latencySamples_app (a b : list TelemetryCall) :
  latencySamples (a ++ b) = latencySamples a ++ latencySamples b.
Proof. apply omap_app. Qed.

Lemma latencySamples_resolveCalls now parsed pending :
  latencySamples (resolveCalls now parsed pending)
  = [(now - startTime pending, method pending)].
Proof.
  unfold resolveCalls. now destruct (truthyAccess (member (js "error") parsed)).
Qed.

Lemma pendingRequests_forwardToPeer data s :
  pendingRequests (forwardToPeer data s) = pendingRequests s.
Proof.
  unfold forwardToPeer. destruct (activeIsOpen s); [|reflexivity].
  now destruct (activeConnection s).
Qed.

Lemma telemetry_forwardToPeer data s :
  telemetry (forwardToPeer data s) = telemetry s.
Proof.
  unfold forwardToPeer. destruct (activeIsOpen s); [|reflexivity].
  now destruct (activeConnection s).
Qed.

Lemma pendingRequests_forwardToProcess message ok s :
  pendingRequests (forwardToProcess message ok s) = pendingRequests s.
Proof.
  unfold forwardToProcess.
  destruct (processManager s) as [p|]; [|reflexivity].
  destruct (procs s !! p) as [pm|]; [|reflexivity].
  now destruct (ProcessManager.send message ok pm) as [[] pm'].
Qed.

Lemma pendingRequests_handleIncomingMessage message now ok s id m :
  tracking message = Tracked id m →
  pendingRequests (handleIncomingMessage message now ok s)
  = map_set id {| startTime := now; method := m; span := nextSpan s |}
            (pendingRequests s).
Proof.
  intros T. unfold BridgeServer.handleIncomingMessage. cbv zeta.
  rewrite pendingRequests_forwardToProcess.
  now rewrite (trackRequest_tracked message now _ id m T).
Qed.

(** C4: a frame from the peer that carries the id [X] (a string, a number,
    a boolean or [null]) and the method [M] makes the pending entry of [X],
    with the time of arrival as its start.  While that entry is pending,
    the first line of process output that parses with the id [X] removes
    this one entry from the map (the other entries stay, the size goes down
    by one) and records one latency sample, the time of the line minus the
    start of the entry, tagged with [M].  After that the id answers
    nothing: a further line with the id [X] records no sample and changes
    no entry. *)
Theorem pending_request_resolved_once (X M : JValue) :
  isPrimitive X = true →
  (∀ message t0 ok s,
      tracking message = Tracked X M →
      map_get X (pendingRequests (handleIncomingMessage message t0 ok s))
      = Some {| startTime := t0; method := M; span := nextSpan s |})
  ∧ (∀ data t1 parsed pending s,
        wf s →
        JSON_parse data = Some parsed →
        member (js "id") parsed = Value X →
        map_get X (pendingRequests s) = Some pending →
        method pending = M →
        let s' := handleOutgoingMessage data t1 s in
        pendingRequests s' = map_delete X (pendingRequests s)
        ∧ S (map_size (pendingRequests s')) = map_size (pendingRequests s)
        ∧ map_get X (pendingRequests s') = None
        ∧ (∀ k, sameValueZero X k = false →
                map_get k (pendingRequests s') = map_get k (pendingRequests s))
        ∧ latencySamples (telemetry s')
          = latencySamples (telemetry s) ++ [(t1 - startTime pending, M)]
        ∧ ∀ data' t2 parsed',
            JSON_parse data' = Some parsed' →
            member (js "id") parsed' = Value X →
            let s'' := handleOutgoingMessage data' t2 s' in
            pendingRequests s'' = pendingRequests s'
            ∧ latencySamples (telemetry s'') = latencySamples (telemetry s')).
Proof.
  intros HX. split.
  - intros message t0 ok s T.
    rewrite (pendingRequests_handleIncomingMessage message t0 ok s X M T).
    now apply map_get_set_eq.
  - intros data t1 parsed pending s Hwf P I G HM. cbv zeta.
    assert (R : resolution data s = Some (parsed, X, pending)).
    { unfold BridgeServer.resolution. now rewrite P, I, G. }
    assert (Hp : pendingRequests (handleOutgoingMessage data t1 s)
                 = map_delete X (pendingRequests s)).
    { unfold BridgeServer.handleOutgoingMessage. cbv zeta.
      rewrite pendingRequests_forwardToPeer.
      now rewrite (trackResponse_resolved data t1 _ parsed X pending). }
    assert (Ht : telemetry (handleOutgoingMessage data t1 s)
                 = (telemetry s ++ [MessagesOut_add 1])
                   ++ resolveCalls t1 parsed pending).
    { unfold BridgeServer.handleOutgoingMessage. cbv zeta.
      rewrite telemetry_forwardToPeer.
      now rewrite (trackResponse_resolved data t1 _ parsed X pending). }
    destruct Hwf as (Hk & _).
    destruct (uniqueKeys_delete _ X Hk) as [_ Hnone].
    rewrite Hp, Ht. repeat split.
    + now apply map_size_delete with (v := pending).
    + exact Hnone.
    + intros k Hk'. now apply map_get_delete_ne.
    + rewrite !latencySamples_app, latencySamples_resolveCalls, HM.
      simpl. now rewrite app_nil_r.
    + assert (R' : resolution data' (handleOutgoingMessage data t1 s) = None).
      { unfold BridgeServer.resolution. now rewrite H, H0, Hp, Hnone. }
      rewrite (handleOutgoingMessage_unresolved _ _ _ R').
      now rewrite pendingRequests_forwardToPeer.
    + assert (R' : resolution data' (handleOutgoingMessage data t1 s) = None).
      { unfold BridgeServer.resolution. now rewrite H, H0, Hp, Hnone. }
      rewrite (handleOutgoingMessage_unresolved _ _ _ R').
      rewrite telemetry_forwardToPeer.
      change (telemetry (call ?c ?x)) with (telemetry x ++ [c]).
      rewrite (latencySamples_app _ [MessagesOut_add 1]), Ht.
      apply app_nil_r.
Qed.

(** ** Process exit (C5) *)

Lemma exitCalls_spansOf (m : JsMap PendingRequest) :
  exitCalls m
  = flat_map (fun x => [Span_setStatus x ERROR (Some (JStr PROCESS_EXITED_REASON));
                        Span_end x]) (spansOf m).
Proof.
  induction m as [|entry m IH]; [reflexivity|].
  unfold exitCalls in *. simpl. now rewrite IH.
Qed.

Lemma endedSpans_app (a b : list TelemetryCall) :
  endedSpans (a ++ b) = endedSpans a ++ endedSpans b.
Proof. apply omap_app. Qed.

Lemma endedSpans_exitCalls (m : JsMap PendingRequest) :
  endedSpans (exitCalls m) = spansOf m.
Proof.
  induction m as [|entry m IH]; [reflexivity|].
  change (endedSpans (exitCalls (entry :: m)))
    with (span (snd entry) :: endedSpans (exitCalls m)).
  now rewrite IH.
Qed.

(** C5: the ["exit"] event of a process whose listeners are attached, with
    [N] requests pending.  For each pending request, in the order of the
    map, the handler sets the status of its span to [ERROR] with the
    message ["Process exited"] and ends it, and makes no other telemetry
    call; these are [N] different spans, none of which had been given a
    status or ended before.  The pending map is empty afterwards.  An
    open peer connection is closed with code 1011 and reason
    ["Process exited"]; without an open connection no socket changes. *)
Theorem process_exit_fails_pending_spans
        (p : nat) (code : option Z) (sig : option ProcessManager.Signal)
        (s : State) (pm : ProcessManager.t) (c : ProcessManager.ChildProcess) :
  wf s →
  procs s !! p = Some pm →
  ProcessManager.process pm = Some c →
  ProcessManager.listeners c = true →
  let s' := step (ProcExit p code sig) s in
  let spans := spansOf (pendingRequests s) in
  telemetry s'
  = telemetry s
    ++ flat_map (fun x => [Span_setStatus x ERROR (Some (JStr PROCESS_EXITED_REASON));
                           Span_end x]) spans
  ∧ endedSpans (telemetry s') = endedSpans (telemetry s) ++ spans
  ∧ length spans = map_size (pendingRequests s)
  ∧ NoDup spans
  ∧ (∀ x, x ∈ spans → x ∉ closedSpans (telemetry s))
  ∧ pendingRequests s' = []
  ∧ (∀ a w, activeConnection s = Some a → sockets s !! a = Some w →
            readyState w = OPEN →
            sockets s' = alter (ws_close 1011 PROCESS_EXITED_REASON) a (sockets s)
            ∧ readyState (ws_close 1011 PROCESS_EXITED_REASON w) = CLOSING
            ∧ closeCalls (ws_close 1011 PROCESS_EXITED_REASON w)
              = closeCalls w ++ [(1011, PROCESS_EXITED_REASON)])
  ∧ (activeIsOpen s = false → sockets s' = sockets s).
Proof.
  intros Hwf Hpm Hc Hl. cbv zeta.
  destruct Hwf as (_ & Hnd & _ & _ & Hopen).
  assert (E : step (ProcExit p code sig) s
              = handleProcessExit
                  (onProc p (fun _ => ProcessManager.cleanup
                                        (ProcessManager.setProcess
                                           (Some (ProcessManager.setExitCode code c)) pm))
                          s)).
  { simpl. now rewrite Hpm, Hc, Hl. }
  rewrite E, handleProcessExit_eq. clear E.
  set (s0 := onProc p _ s).
  change (activeIsOpen s0) with (activeIsOpen s).
  change (activeConnection s0) with (activeConnection s).
  change (pendingRequests s0) with (pendingRequests s).
  change (telemetry s0) with (telemetry s).
  assert (T : ∀ f : State → State,
             (∀ x, telemetry (f x) = telemetry x) →
             telemetry (f (setPendingRequests []
                             (setTelemetry (telemetry s ++ exitCalls (pendingRequests s)) s0)))
             = telemetry s ++ exitCalls (pendingRequests s)).
  { intros f Hf. now rewrite Hf. }
  cbv zeta.
  repeat split.
  - rewrite <- exitCalls_spansOf.
    destruct (activeIsOpen s); [destruct (activeConnection s)|]; reflexivity.
  - replace (telemetry _) with (telemetry s ++ exitCalls (pendingRequests s)).
    + now rewrite endedSpans_app, endedSpans_exitCalls.
    + destruct (activeIsOpen s); [destruct (activeConnection s)|]; reflexivity.
  - unfold spansOf, map_size. apply length_map.
  - exact Hnd.
  - exact Hopen.
  - destruct (activeIsOpen s); [destruct (activeConnection s)|]; reflexivity.
  - unfold activeIsOpen. now rewrite H, H0, H1.
  - unfold ws_close. now rewrite H1.
  - intros ->. reflexivity.
Qed.

(** ** Peer close and the next admission (C6) *)

Lemma handleClose_eq (s : State) :
  handleClose s
  = {| listening := listening s; sockets := sockets s;
       procs := match processManager s with
                | Some p => alter ProcessManager.kill p (procs s)
                | None => procs s
                end;
       telemetry := telemetry s ++ [ActiveConnections_add (-1)];
       nextSpan := nextSpan s;
       activeConnection := None;
       processManager := None;
       pendingRequests := pendingRequests s;
       sessionAuthenticated := false |}.
Proof.
  destruct s as [li so pr te ns ac [p|] pe []]; reflexivity.
Qed.

Lemma ensureProcess_cases o s :
  let pm := fst (ProcessManager.spawn process_env o
                   (ProcessManager.new (command config) (commandArgs config))) in
  let s1 := setProcessManager (Some (length (procs s)))
              (setProcs (procs (killPrevious s) ++ [pm]) (killPrevious s)) in
  ensureProcess o s = s1 ∨ ensureProcess o s = handleProcessError s1.
Proof.
  cbv zeta. rewrite ensureProcess_eq. cbv zeta.
  destruct (spawn_new o) as [[-> | ->] _]; simpl; auto.
Qed.

Lemma processManager_handleProcessError s :
  processManager (handleProcessError s) = processManager s
  ∧ procs (handleProcessError s) = procs s.
Proof.
  unfold handleProcessError. cbv zeta.
  now destruct (activeConnection (call _ s)).
Qed.

Lemma killPrevious_lookup_new s :
  procs (killPrevious s) !! length (procs s) = None.
Proof.
  apply lookup_ge_None. now rewrite killPrevious_length.
Qed.

Lemma procs_killPrevious_ext s1 s2 :
  processManager s1 = processManager s2 → procs s1 = procs s2 →
  procs (killPrevious s1) = procs (killPrevious s2).
Proof.
  intros Hp Hq. unfold killPrevious. rewrite Hp, Hq.
  destruct (processManager s2) as [p|]; [|exact Hq].
  destruct (procs s2 !! p) as [pm|]; [|exact Hq].
  destruct (ProcessManager.isRunning pm); [|exact Hq].
  simpl. now rewrite Hq.
Qed.

(** What an admitted connection does to the process managers. *)
Lemma handleConnection_spawns o s :
  activeIsOpen s = false →
  let s' := handleConnection o s in
  let pm := fst (ProcessManager.spawn process_env o
                   (ProcessManager.new (command config) (commandArgs config))) in
  processManager s' = Some (length (procs s))
  ∧ procs s' = procs (killPrevious s) ++ [pm].
Proof.
  intros Hbusy. cbv zeta. unfold BridgeServer.handleConnection. cbv zeta.
  rewrite Hbusy.
  change (processManager (onSocket ?w ?f ?x)) with (processManager x).
  change (procs (onSocket ?w ?f ?x)) with (procs x).
  match goal with |- context [ensureProcess o ?x] => set (s1 := x) end.
  destruct (ensureProcess_cases o s1) as [-> | ->];
    rewrite ?(proj1 (processManager_handleProcessError _)),
            ?(proj2 (processManager_handleProcessError _)); simpl;
    (split; [reflexivity|]);
    now rewrite (procs_killPrevious_ext s1 s).
Qed.

(** The ["close"] listener, and the admission after it.  The ["close"]
    event of the peer's socket adds [-1] to the gauge of
    active connections, clears [activeConnection], calls [kill()] once on
    the process manager when there is one and clears [processManager]
    whether or not the session was authenticated, and leaves
    [sessionAuthenticated] false.  The next connection that is admitted
    makes a new process manager, one that no earlier state held, and
    spawns its child process: the child has received no signal and has not
    exited, and the managers that existed before keep their place. *)
Theorem peer_close_kills_and_next_peer_respawns :
  (∀ ws w s,
      sockets s !! ws = Some w → handlers w = true → readyState w ≠ CLOSED →
      let s' := step (WsClose ws) s in
      telemetry s' = telemetry s ++ [ActiveConnections_add (-1)]
      ∧ activeConnection s' = None
      ∧ processManager s' = None
      ∧ sessionAuthenticated s' = false
      ∧ procs s' = match processManager s with
                   | Some p => alter ProcessManager.kill p (procs s)
                   | None => procs s
                   end)
  ∧ (∀ o s,
        listening s = true → activeIsOpen s = false →
        let s' := step (Connection o) s in
        processManager s' = Some (length (procs s))
        ∧ length (procs s') = S (length (procs s))
        ∧ (∀ q, (q < length (procs s))%nat →
                procs s' !! q = procs (killPrevious s) !! q)
        ∧ ∃ pm c,
            procs s' !! length (procs s) = Some pm
            ∧ ProcessManager.process pm = Some c
            ∧ ProcessManager.signals c = []
            ∧ ProcessManager.exitCode c = None).
Proof.
  split.
  - intros ws w s Hw Hh Hr. cbv zeta.
    assert (E : step (WsClose ws) s
                = handleClose (onSocket ws (ws_setReadyState CLOSED) s)).
    { simpl. rewrite Hw, Hh. now destruct (readyState w). }
    rewrite E, handleClose_eq. simpl. repeat split; reflexivity.
  - intros o s Hl Hbusy. cbv zeta.
    assert (E : step (Connection o) s = handleConnection o s).
    { simpl. now rewrite Hl. }
    rewrite E. destruct (handleConnection_spawns o s Hbusy) as [-> ->].
    destruct (spawn_new o) as [_ (c & Hc & Hsig & Hexit & _)].
    repeat split.
    + rewrite length_app, killPrevious_length. simpl. lia.
    + intros q Hq. apply lookup_app_l. now rewrite killPrevious_length.
    + eexists _, c. repeat split; [|exact Hc|exact Hsig|exact Hexit].
      rewrite lookup_app_r; rewrite killPrevious_length; [|lia].
      now rewrite Nat.sub_diag.
Qed.

(** The ["close"] listener sends SIGTERM to the child of the process
    manager, once, and starts the timer of [kill()]; the child keeps its
    listeners, and the manager keeps the child until it exits. *)
Lemma peer_close_signals_child ws w s p pm c :
  sockets s !! ws = Some w → handlers w = true → readyState w ≠ CLOSED →
  processManager s = Some p → procs s !! p = Some pm →
  ProcessManager.process pm = Some c →
  ∃ pm',
    procs (step (WsClose ws) s) !! p = Some pm'
    ∧ ProcessManager.process pm' = Some (ProcessManager.signal ProcessManager.SIGTERM c)
    ∧ ProcessManager.signals (ProcessManager.signal ProcessManager.SIGTERM c)
      = ProcessManager.signals c ++ [ProcessManager.SIGTERM]
    ∧ ProcessManager.listeners (ProcessManager.signal ProcessManager.SIGTERM c)
      = ProcessManager.listeners c
    ∧ ProcessManager.killTimers pm' = S (ProcessManager.killTimers pm)
    ∧ ProcessManager.stdoutReader pm' = ProcessManager.stdoutReader pm.
Proof.
  intros Hw Hh Hr Hp Hpm Hc.
  assert (E : step (WsClose ws) s
              = handleClose (onSocket ws (ws_setReadyState CLOSED) s)).
  { simpl. rewrite Hw, Hh. now destruct (readyState w). }
  rewrite E, handleClose_eq. simpl. rewrite Hp.
  exists (ProcessManager.kill pm). split.
  - rewrite list_lookup_alter_eq, Hpm. reflexivity.
  - unfold ProcessManager.kill. rewrite Hc. repeat split.
Qed.

(** ** Admission (C2) *)

Lemma alter_last {A} (f : A → A) (l : list A) (x : A) :
  alter f (length l) (l ++ [x]) = l ++ [f x].
Proof.
  replace (length l) with (length l + 0)%nat by lia.
  now rewrite alter_app_r.
Qed.

Lemma handleConnection_busy o s :
  activeIsOpen s = true →
  handleConnection o s
  = setSockets (sockets s ++ [ws_close 1013 BUSY_REASON newSocket]) s.
Proof.
  intros Hbusy. unfold BridgeServer.handleConnection. cbv zeta. rewrite Hbusy.
  unfold onSocket. simpl. now rewrite alter_last.
Qed.

Lemma activeIsOpen_more_sockets s l :
  activeIsOpen s = true → activeIsOpen (setSockets (sockets s ++ l) s) = true.
Proof.
  unfold activeIsOpen. simpl.
  destruct (activeConnection s) as [a|]; [|discriminate].
  destruct (sockets s !! a) as [w|] eqn:Hw; [|discriminate].
  now rewrite (lookup_app_l_Some _ _ _ _ Hw).
Qed.

Lemma run_connections_busy os s :
  listening s = true → activeIsOpen s = true →
  run (map Connection os) s
  = setSockets (sockets s ++ replicate (length os)
                                       (ws_close 1013 BUSY_REASON newSocket)) s.
Proof.
  revert s. induction os as [|o os IH]; intros s Hl Hbusy.
  - simpl. destruct s; unfold setSockets; simpl. now rewrite app_nil_r.
  - cbn [map BridgeServer.run fold_left].
    change (fold_left _ (map Connection os) ?x) with (run (map Connection os) x).
    assert (E : step (Connection o) s = handleConnection o s).
    { simpl. now rewrite Hl. }
    rewrite E, handleConnection_busy by exact Hbusy.
    rewrite IH; [|exact Hl|now apply activeIsOpen_more_sockets].
    unfold setSockets; simpl. now rewrite <- app_assoc.
Qed.

Lemma sockets_killPrevious s :
  sockets (killPrevious s) = sockets s
  ∧ activeConnection (killPrevious s) = activeConnection s.
Proof.
  unfold killPrevious. destruct (processManager s) as [p|]; [|auto].
  destruct (procs s !! p) as [pm|]; [|auto].
  destruct (ProcessManager.isRunning pm); auto.
Qed.

(** An admitted connection adds its socket, with the listeners attached,
    and makes it the active connection; the sockets before it stay. *)
Lemma handleConnection_admitted o s :
  activeIsOpen s = false →
  ∃ w, sockets (handleConnection o s) = sockets s ++ [w]
       ∧ handlers w = true
       ∧ activeConnection (handleConnection o s) = Some (length (sockets s)).
Proof.
  intros Hbusy. unfold BridgeServer.handleConnection. cbv zeta. rewrite Hbusy.
  match goal with |- context [ensureProcess o ?x] => set (s1 := x) end.
  destruct (sockets_killPrevious s1) as [Hs Ha].
  destruct (ensureProcess_cases o s1) as [-> | ->].
  - exists (ws_on newSocket). unfold onSocket. simpl.
    rewrite Hs, Ha. simpl. rewrite alter_last. auto.
  - exists (ws_on (ws_close 1011 PROCESS_ERROR_REASON newSocket)).
    unfold handleProcessError, onSocket. simpl.
    rewrite Hs, Ha. simpl. rewrite !alter_last. auto.
Qed.

Lemma admittedIsActive_connection o s :
  admittedIsActive s → admittedIsActive (step (Connection o) s).
Proof.
  intros Hinv. simpl. destruct (listening s); [|exact Hinv].
  destruct (activeIsOpen s) eqn:Hbusy.
  - rewrite handleConnection_busy by exact Hbusy.
    intros i w Hi Hw. simpl in *.
    apply lookup_app_Some in Hi as [Hi|[Hlen Hi]]; [now apply (Hinv i w)|].
    apply list_lookup_singleton_Some in Hi as [_ <-]. discriminate.
  - destruct (handleConnection_admitted o s Hbusy) as (w' & Hs & Hh & Ha).
    intros i w Hi Hw. rewrite Hs in Hi. rewrite Ha.
    apply lookup_app_Some in Hi as [Hi|[Hlen Hi]].
    + exfalso. pose proof (Hinv i w Hi Hw) as Hact.
      unfold activeIsOpen in Hbusy. rewrite Hact, Hi in Hbusy.
      unfold admittedOpen in Hw. apply andb_prop in Hw as [_ Hw]. congruence.
    + apply list_lookup_singleton_Some in Hi as [Hi _]. f_equal. lia.
Qed.

Lemma admittedIsActive_atMostOne s : admittedIsActive s → atMostOneAdmitted s.
Proof.
  intros Hinv i j wi wj Hi Hj Hwi Hwj.
  pose proof (Hinv i wi Hi Hwi) as H1. pose proof (Hinv j wj Hj Hwj) as H2.
  congruence.
Qed.

Lemma admittedIsActive_connections os s :
  admittedIsActive s → admittedIsActive (run (map Connection os) s).
Proof.
  revert s. induction os as [|o os IH]; intros s Hinv; [exact Hinv|].
  apply IH, admittedIsActive_connection, Hinv.
Qed.

(** Admission while a peer is connected.  While the active connection is
    open, a ["connection"] event only adds the new socket, closed with code 1013 and the reason
    ["Server busy - single user mode"] and without listeners; every field
    of the server and every earlier socket stays as it was, and so for any
    number of connection attempts in a row.  Over every sequence of
    connection events, at most one socket is at the same time admitted
    and open: an admitted open socket is always the active connection. *)
Theorem single_user_admission :
  (∀ o s,
      listening s = true → activeIsOpen s = true →
      step (Connection o) s
      = setSockets (sockets s ++ [ws_close 1013 BUSY_REASON newSocket]) s
      ∧ closeCalls (ws_close 1013 BUSY_REASON newSocket) = [(1013, BUSY_REASON)]
      ∧ readyState (ws_close 1013 BUSY_REASON newSocket) = CLOSING
      ∧ handlers (ws_close 1013 BUSY_REASON newSocket) = false)
  ∧ (∀ os s,
        listening s = true → activeIsOpen s = true →
        run (map Connection os) s
        = setSockets (sockets s ++ replicate (length os)
                                             (ws_close 1013 BUSY_REASON newSocket)) s)
  ∧ (∀ os s,
        admittedIsActive s →
        admittedIsActive (run (map Connection os) s)
        ∧ atMostOneAdmitted (run (map Connection os) s))
  ∧ (∀ os, atMostOneAdmitted (run (map Connection os) init)).
Proof.
  split; [|split; [|split]].
  - intros o s Hl Hbusy. repeat split.
    simpl. rewrite Hl. now apply handleConnection_busy.
  - apply run_connections_busy.
  - intros os s Hinv.
    pose proof (admittedIsActive_connections os s Hinv) as H.
    split; [exact H|now apply admittedIsActive_atMostOne].
  - intros os. apply admittedIsActive_atMostOne, admittedIsActive_connections.
    intros i w Hi. destruct i; discriminate Hi.
Qed.

(** ** Replaced entries (C9) *)

Lemma map_get_span (m : JsMap PendingRequest) id p :
  map_get id m = Some p → span p ∈ spansOf m.
Proof.
  intros G. destruct (map_get_split m id p G) as (l1 & k & l2 & -> & _).
  rewrite spansOf_app, elem_of_app. right. simpl. apply elem_of_cons. now left.
Qed.

Lemma spansOf_set_elem (m : JsMap PendingRequest) id p x :
  x ∈ spansOf (map_set id p m) → x ∈ spansOf m ∨ x = span p.
Proof.
  destruct (map_set_cases m id p) as [(l1 & k & old & l2 & _ & -> & ->)|[_ ->]];
    rewrite !spansOf_app; simpl; rewrite !elem_of_app, ?elem_of_cons.
  - intros [H|[H|H]]; auto.
  - intros [H|[H|H]]; auto. now apply elem_of_nil in H.
Qed.

Lemma spansOf_delete_elem (m : JsMap PendingRequest) id x :
  x ∈ spansOf (map_delete id m) → x ∈ spansOf m.
Proof.
  destruct (map_get id m) as [p|] eqn:G.
  - destruct (map_get_split m id p G) as (l1 & k & l2 & -> & _ & _ & -> & _).
    rewrite !spansOf_app; simpl; rewrite !elem_of_app, ?elem_of_cons. tauto.
  - now rewrite map_get_none_delete.
Qed.

Lemma abandoned_step x c c' : abandoned x c → coreStep c c' → abandoned x c'.
Proof.
  intros Hx Hstep.
  destruct Hstep as [c|m n cl id t mth|m n cl|m n cl id p G|m n cl];
    [exact Hx|..]; destruct Hx as (Hlt & Hm & Hcl).
  - repeat split; [lia| |exact Hcl].
    intros Hin. apply spansOf_set_elem in Hin as [Hin|Hin]; [tauto|simpl in Hin; lia].
  - repeat split; [lia|exact Hm|exact Hcl].
  - repeat split; [exact Hlt| |].
    + intros Hin. now apply spansOf_delete_elem in Hin.
    + apply map_get_span in G.
      rewrite not_elem_of_app, !not_elem_of_cons.
      repeat split; try exact Hcl; try apply not_elem_of_nil; intros ->; tauto.
  - repeat split; [exact Hlt|apply not_elem_of_nil|].
    rewrite not_elem_of_app. split; [exact Hcl|].
    intros Hin. apply list_elem_of_In, in_flat_map in Hin as (y & Hy & Hin).
    apply list_elem_of_In in Hy. simpl in Hin.
    destruct Hin as [<-|[<-|[]]]; tauto.
Qed.

Lemma abandoned_run x es s :
  abandoned x (core s) → abandoned x (core (run es s)).
Proof.
  revert s. induction es as [|e es IH]; intros s H; [exact H|].
  apply IH. exact (abandoned_step _ _ _ H (step_core e s)).
Qed.

(** C9: a frame from the peer whose id already has a pending entry puts
    the new request in the place of that entry: the size of the map stays,
    the id now answers with the new request and its new span, and the span
    of the entry that was replaced is held by no entry, and no later
    event gives it a status or ends it.  Keys are compared as they were
    parsed: a number never answers for a string nor a string for a number,
    so the number [1] and the string ["1"] make two entries. *)
Theorem duplicate_id_replaces_entry :
  (∀ message now ok s X M old,
      wf s →
      tracking message = Tracked X M →
      map_get X (pendingRequests s) = Some old →
      let s' := handleIncomingMessage message now ok s in
      map_size (pendingRequests s') = map_size (pendingRequests s)
      ∧ map_get X (pendingRequests s')
        = Some {| startTime := now; method := M; span := nextSpan s |}
      ∧ span old ≠ nextSpan s
      ∧ (span old ∉ spansOf (pendingRequests s'))
      ∧ (∀ es, span old ∉ closedSpans (telemetry (run es s'))))
  ∧ (∀ (n : spec_float) (str : JsString) (m : JsMap PendingRequest) v,
        map_get (JStr str) (map_set (JNum n) v m) = map_get (JStr str) m
        ∧ map_get (JNum n) (map_set (JStr str) v m) = map_get (JNum n) m)
  ∧ (∀ (n : spec_float) (str : JsString) (m : JsMap PendingRequest) v1 v2,
        map_get (JNum n) m = None → map_get (JStr str) m = None →
        map_size (map_set (JStr str) v2 (map_set (JNum n) v1 m))
        = S (S (map_size m))).
Proof.
  split; [|split].
  - intros message now ok s X M old Hwf T G. cbv zeta.
    pose proof (sameValueZero_primitive) as Hprim.
    assert (HX : isPrimitive X = true).
    { destruct (map_get_split _ _ _ G) as (_ & k & _ & _ & Hk & _).
      now apply Hprim in Hk. }
    set (s' := handleIncomingMessage message now ok s).
    assert (Hp : pendingRequests s'
                 = map_set X {| startTime := now; method := M; span := nextSpan s |}
                           (pendingRequests s)).
    { now apply pendingRequests_handleIncomingMessage. }
    assert (Hcore : core s'
                    = (map_set X {| startTime := now; method := M; span := nextSpan s |}
                               (pendingRequests s),
                       S (nextSpan s), closedSpans (telemetry s))).
    { unfold s'. now rewrite core_handleIncomingMessage, T. }
    destruct Hwf as (Hk & Hnd & Hlt & Hcl & Hopen).
    pose proof (map_get_span _ _ _ G) as Hold.
    assert (Hbound : (span old < nextSpan s)%nat).
    { rewrite Forall_forall in Hlt. now apply Hlt. }
    assert (Hgone : span old ∉ spansOf (pendingRequests s')).
    { rewrite Hp.
      destruct (map_get_split _ _ _ G) as (l1 & k & l2 & Hm & _ & _ & _ & Hs).
      rewrite Hs. rewrite Hm in Hnd.
      rewrite !spansOf_app in *. simpl in *.
      rewrite NoDup_app, NoDup_cons in Hnd. destruct Hnd as (H1 & H2 & H3 & H4).
      rewrite not_elem_of_app, not_elem_of_cons. repeat split.
      - intros Hin. specialize (H2 _ Hin). rewrite not_elem_of_cons in H2. tauto.
      - lia.
      - exact H3. }
    repeat split.
    + rewrite Hp. now apply map_size_set_present with (v0 := old).
    + rewrite Hp. now apply map_get_set_eq.
    + lia.
    + exact Hgone.
    + intros es.
      assert (Hab : abandoned (span old) (core s')).
      { rewrite Hcore. rewrite Hp in Hgone. repeat split; [lia|exact Hgone|].
        now apply Hopen. }
      apply (abandoned_run _ es) in Hab.
      unfold core in Hab. now destruct Hab as (_ & _ & Hab).
  - intros n str m v. split; now apply map_get_set_ne.
  - intros n str m v1 v2 Hn Hs.
    rewrite map_size_set_absent.
    + now rewrite map_size_set_absent.
    + now rewrite map_get_set_ne.
Qed.

(** ** Handlers that do not concern requests *)

Lemma requestCalls_app (a b : list TelemetryCall) :
  requestCalls (a ++ b) = requestCalls a ++ requestCalls b.
Proof. apply filter_app. Qed.

Lemma requestCalls_snoc_other (l : list TelemetryCall) (c : TelemetryCall) :
  isRequestCall c = false → requestCalls (l ++ [c]) = requestCalls l.
Proof.
  intros H. rewrite requestCalls_app. unfold requestCalls at 2.
  rewrite filter_cons_False by congruence.
  rewrite filter_nil. apply app_nil_r.
Qed.

Lemma quiet_refl s : quiet s s.
Proof. repeat split. Qed.

Lemma quiet_trans s1 s2 s3 : quiet s1 s2 → quiet s2 s3 → quiet s1 s3.
Proof.
  intros (A1 & A2 & A3) (B1 & B2 & B3). repeat split; congruence.
Qed.

Lemma quiet_call c s : isRequestCall c = false → quiet s (call c s).
Proof.
  intros H. repeat split. simpl. now apply requestCalls_snoc_other.
Qed.

Lemma quiet_forwardToPeer data s : quiet s (forwardToPeer data s).
Proof.
  unfold forwardToPeer. destruct (activeIsOpen s); [|apply quiet_refl].
  destruct (activeConnection s); repeat split.
Qed.

Lemma quiet_forwardToProcess message ok s : quiet s (forwardToProcess message ok s).
Proof.
  unfold forwardToProcess.
  destruct (processManager s) as [p|]; [|now apply quiet_call].
  destruct (procs s !! p) as [pm|]; [|now apply quiet_call].
  destruct (ProcessManager.send message ok pm) as [[] pm'].
  - repeat split.
  - apply (quiet_trans _ (onProc p (fun _ => pm') s)); [repeat split|].
    now apply quiet_call.
Qed.

Lemma quiet_handleProcessError s : quiet s (handleProcessError s).
Proof.
  unfold handleProcessError. cbv zeta.
  apply (quiet_trans _ (call (ErrorCount_add 1 (js "process") None) s));
    [now apply quiet_call|].
  destruct (activeConnection _); repeat split.
Qed.

Lemma quiet_killPrevious s : quiet s (killPrevious s).
Proof.
  unfold killPrevious. destruct (processManager s) as [p|]; [|apply quiet_refl].
  destruct (procs s !! p) as [pm|]; [|apply quiet_refl].
  destruct (ProcessManager.isRunning pm); repeat split.
Qed.

Lemma quiet_ensureProcess o s : quiet s (ensureProcess o s).
Proof.
  apply (quiet_trans _ (killPrevious s)); [apply quiet_killPrevious|].
  destruct (ensureProcess_cases o s) as [-> | ->].
  - repeat split.
  - eapply quiet_trans; [|apply quiet_handleProcessError]. repeat split.
Qed.

Lemma quiet_handleConnection o s : quiet s (handleConnection o s).
Proof.
  unfold BridgeServer.handleConnection. cbv zeta.
  destruct (activeIsOpen s); [repeat split|].
  match goal with |- context [ensureProcess o ?x] => set (s1 := x) end.
  apply (quiet_trans _ s1).
  { apply (quiet_trans _ (setActiveConnection (Some (length (sockets s)))
                            (setSockets (sockets s ++ [newSocket]) s)));
      [repeat split|now apply quiet_call]. }
  apply (quiet_trans _ (ensureProcess o s1)); [apply quiet_ensureProcess|].
  repeat split.
Qed.

Lemma quiet_handleClose s : quiet s (handleClose s).
Proof. rewrite handleClose_eq. repeat split. simpl. now apply requestCalls_snoc_other. Qed.

Lemma quiet_stop s : quiet s (stop s).
Proof.
  unfold stop. cbv zeta.
  destruct (activeConnection s); simpl;
    destruct (processManager s) eqn:E; simpl; rewrite ?E; repeat split.
Qed.

Lemma quiet_step (e : Event) (s : State) :
  touchesPending e = false → quiet s (step e s).
Proof.
  intros He.
  destruct e as [o|ws message now ok|ws|ws|ws|p line now|p chunk|p ecode|p code sig|p|];
    try discriminate; simpl.
  - destruct (listening s); [apply quiet_handleConnection|apply quiet_refl].
  - destruct (sockets s !! ws) as [w|]; [|apply quiet_refl].
    destruct (readyState w); try apply quiet_refl;
      (destruct (handlers w);
       [eapply quiet_trans; [|apply quiet_handleClose]|]; repeat split).
  - destruct (sockets s !! ws) as [w|]; [|apply quiet_refl].
    destruct (handlers w); [|apply quiet_refl].
    now apply quiet_call.
  - repeat split.
  - apply quiet_refl.
  - destruct (procs s !! p) as [pm|]; [|apply quiet_refl].
    destruct (ProcessManager.process pm) as [c|]; [|apply quiet_refl].
    destruct (ProcessManager.listeners c); [|repeat split].
    eapply quiet_trans; [|apply quiet_handleProcessError]. repeat split.
  - destruct (procs s !! p) as [pm|]; [|apply quiet_refl].
    destruct (ProcessManager.killTimers pm); repeat split.
  - apply quiet_stop.
Qed.

(** X1: an event that is neither a frame from the peer, nor a line of
    process output, nor a process exit leaves the pending requests, the
    spans and the request metrics alone: connecting, disconnecting, socket
    and process errors, the kill timer and [stop()] start no span, end no
    span, record no latency and neither add nor remove a pending request. *)
Theorem only_frames_and_exit_touch_pending (e : Event) (s : State) :
  touchesPending e = false →
  pendingRequests (step e s) = pendingRequests s
  ∧ nextSpan (step e s) = nextSpan s
  ∧ requestCalls (telemetry (step e s)) = requestCalls (telemetry s).
Proof. intros He. exact (quiet_step e s He). Qed.

(** ** The request log along the events *)

Lemma omap_requestCalls {A} (f : TelemetryCall → option A) (l : list TelemetryCall) :
  (∀ c, isRequestCall c = false → f c = None) →
  omap f (requestCalls l) = omap f l.
Proof.
  intros Hf. unfold requestCalls.
  induction l as [|c l IH]; [reflexivity|].
  destruct (isRequestCall c) eqn:E.
  - rewrite filter_cons_True by exact E. cbn. now rewrite IH.
  - rewrite filter_cons_False by congruence. cbn. now rewrite IH, (Hf c E).
Qed.

Lemma closedSpans_requestCalls l : closedSpans (requestCalls l) = closedSpans l.
Proof. apply omap_requestCalls. now intros []. Qed.

Lemma endedSpans_requestCalls l : endedSpans (requestCalls l) = endedSpans l.
Proof. apply omap_requestCalls. now intros []. Qed.

Lemma latencySamples_requestCalls l : latencySamples (requestCalls l) = latencySamples l.
Proof. apply omap_requestCalls. now intros []. Qed.

Lemma requestsCounted_requestCalls l : requestsCounted (requestCalls l) = requestsCounted l.
Proof. unfold requestsCounted. f_equal. apply omap_requestCalls. now intros []. Qed.

Lemma trace_quiet s s' : quiet s s' → trace s' = trace s.
Proof. intros (H1 & H2 & H3). unfold trace. now rewrite H1, H2, H3. Qed.

Lemma requestCalls_resolveCalls now parsed pending :
  requestCalls (resolveCalls now parsed pending)
  = [RequestLatency_record (now - startTime pending) (method pending);
     Span_setStatus (span pending)
                    (if truthyAccess (member (js "error") parsed) then ERROR else OK)
                    (if truthyAccess (member (js "error") parsed)
                     then errorMessage parsed else None);
     Span_end (span pending)].
Proof.
  unfold resolveCalls. now destruct (truthyAccess (member (js "error") parsed)).
Qed.

Lemma requestCalls_exitCalls (m : JsMap PendingRequest) :
  requestCalls (exitCalls m) = exitCalls m.
Proof.
  induction m as [|entry m IH]; [reflexivity|].
  change (exitCalls (entry :: m))
    with ([Span_setStatus (span (snd entry)) ERROR (Some (JStr PROCESS_EXITED_REASON));
           Span_end (span (snd entry))] ++ exitCalls m).
  now rewrite requestCalls_app, IH.
Qed.

Lemma trace_handleOutgoingMessage data now s :
  trace (handleOutgoingMessage data now s)
  = match resolution data s with
    | Some (parsed, id, pending) =>
        (map_delete id (pendingRequests s), nextSpan s,
         requestCalls (telemetry s)
         ++ [RequestLatency_record (now - startTime pending) (method pending);
             Span_setStatus (span pending)
                            (if truthyAccess (member (js "error") parsed)
                             then ERROR else OK)
                            (if truthyAccess (member (js "error") parsed)
                             then errorMessage parsed else None);
             Span_end (span pending)])
    | None => trace s
    end.
Proof.
  unfold BridgeServer.handleOutgoingMessage. cbv zeta.
  rewrite (trace_quiet _ _ (quiet_forwardToPeer data _)).
  destruct (resolution data s) as [[[parsed id] pending]|] eqn:R.
  - rewrite (trackResponse_resolved data now _ parsed id pending) by exact R.
    unfold trace; simpl.
    rewrite requestCalls_app, requestCalls_resolveCalls.
    now rewrite requestCalls_snoc_other.
  - rewrite trackResponse_unresolved by exact R.
    apply trace_quiet. now apply quiet_call.
Qed.

Lemma trace_handleIncomingMessage message now ok s :
  trace (handleIncomingMessage message now ok s)
  = match tracking message with
    | NotTracked => trace s
    | SpanLeaked m =>
        (pendingRequests s, S (nextSpan s),
         requestCalls (telemetry s)
         ++ [StartSpan (nextSpan s) m; Span_setRpcMethod (nextSpan s) m])
    | Tracked id m =>
        (map_set id {| startTime := now; method := m; span := nextSpan s |}
                 (pendingRequests s),
         S (nextSpan s),
         requestCalls (telemetry s)
         ++ [StartSpan (nextSpan s) m; Span_setRpcMethod (nextSpan s) m;
             Span_setRpcId (nextSpan s) id; RequestCount_add 1 m])
    end.
Proof.
  unfold BridgeServer.handleIncomingMessage. cbv zeta.
  rewrite (trace_quiet _ _ (quiet_forwardToProcess message ok _)).
  destruct (tracking message) as [|m|id m] eqn:T.
  - rewrite trackRequest_not_tracked by exact T.
    apply trace_quiet. now apply quiet_call.
  - rewrite (trackRequest_leaked message now _ m) by exact T.
    unfold trace; simpl. rewrite requestCalls_app.
    now rewrite requestCalls_snoc_other.
  - rewrite (trackRequest_tracked message now _ id m) by exact T.
    unfold trace; simpl. rewrite requestCalls_app.
    now rewrite requestCalls_snoc_other.
Qed.

Lemma trace_handleProcessExit s :
  trace (handleProcessExit s)
  = ([], nextSpan s, requestCalls (telemetry s) ++ exitCalls (pendingRequests s)).
Proof.
  rewrite handleProcessExit_eq. unfold trace. cbv zeta.
  destruct (activeIsOpen s); [destruct (activeConnection s)|]; simpl;
    now rewrite requestCalls_app, requestCalls_exitCalls.
Qed.

Lemma resolution_pending data s parsed id pending :
  resolution data s = Some (parsed, id, pending) →
  map_get id (pendingRequests s) = Some pending.
Proof.
  unfold BridgeServer.resolution.
  destruct (JSON_parse data) as [v|]; [|discriminate].
  destruct (member (js "id") v) as [| |id']; try discriminate.
  destruct (map_get id' (pendingRequests s)) eqn:G; [|discriminate].
  now intros [= -> -> ->].
Qed.

(** Every event acts on the request log in one of the five ways of
    [traceStep]. *)
Lemma step_trace (e : Event) (s : State) : traceStep (trace s) (trace (step e s)).
Proof.
  destruct (touchesPending e) eqn:He.
  2:{ rewrite (trace_quiet s (step e s)); [constructor|].
      now apply quiet_step. }
  destruct e as [o|ws message now ok|ws|ws|ws|p line now|p chunk|p ecode|p code sig|p|];
    try discriminate; simpl.
  - destruct (sockets s !! ws) as [w|]; [|constructor].
    destruct (handlers w); [|constructor].
    destruct (readyState w); try constructor;
      rewrite trace_handleIncomingMessage;
      destruct (tracking message); unfold trace; constructor.
  - destruct (procs s !! p) as [pm|]; [|constructor].
    destruct (ProcessManager.stdoutReader pm); [|constructor].
    unfold ProcessManager.onLine. destruct (negb _); simpl; [|constructor].
    rewrite trace_handleOutgoingMessage.
    destruct (resolution line s) as [[[parsed id] pending]|] eqn:R; [|constructor].
    unfold trace. apply trace_resolve. eapply resolution_pending, R.
  - destruct (procs s !! p) as [pm|]; [|constructor].
    destruct (ProcessManager.process pm) as [c|]; [|constructor].
    destruct (ProcessManager.listeners c); [|constructor].
    simpl. rewrite trace_handleProcessExit. apply trace_exit.
Qed.

(** ** Invariants of the request log *)

Lemma spanCalls_app (a b : list TelemetryCall) :
  spanCalls (a ++ b) = spanCalls a ++ spanCalls b.
Proof. apply omap_app. Qed.

Lemma spanCalls_requestCalls l : spanCalls (requestCalls l) = spanCalls l.
Proof. apply omap_requestCalls. now intros []. Qed.

Lemma spanCalls_exitCalls (m : JsMap PendingRequest) :
  spanCalls (exitCalls m) = flat_map (fun x => [(x, false); (x, true)]) (spansOf m).
Proof.
  induction m as [|entry m IH]; [reflexivity|].
  change (spanCalls (exitCalls (entry :: m)))
    with ((span (snd entry), false) :: (span (snd entry), true)
          :: spanCalls (exitCalls m)).
  now rewrite IH.
Qed.

Lemma endedSpans_closed (l : list TelemetryCall) (x : nat) :
  x ∈ endedSpans l → x ∈ closedSpans l.
Proof.
  unfold endedSpans, closedSpans. rewrite !list_elem_of_omap.
  intros (c & Hc & Hx). exists c. split; [exact Hc|].
  destruct c; try discriminate. exact Hx.
Qed.

Lemma spanDiscipline_requestCalls l :
  spanDiscipline (requestCalls l) ↔ spanDiscipline l.
Proof.
  unfold spanDiscipline. now rewrite spanCalls_requestCalls, endedSpans_requestCalls.
Qed.

Lemma spanDiscipline_traceStep m n l m' n' l' :
  traceStep (m, n, l) (m', n', l') →
  wfCore (m, n, closedSpans l) → spanDiscipline l → spanDiscipline l'.
Proof.
  intros Hstep Hwf [Hpairs Hnd].
  destruct Hwf as (_ & Hspans & _ & _ & Hopen).
  inversion Hstep; subst; clear Hstep.
  - now split.
  - split.
    + now rewrite spanCalls_app, endedSpans_app, !app_nil_r.
    + now rewrite endedSpans_app, app_nil_r.
  - split.
    + now rewrite spanCalls_app, endedSpans_app, !app_nil_r.
    + now rewrite endedSpans_app, app_nil_r.
  - split.
    + rewrite spanCalls_app, endedSpans_app, flat_map_app, Hpairs. reflexivity.
    + rewrite endedSpans_app. simpl.
      apply NoDup_app. repeat split; [exact Hnd| |apply NoDup_singleton].
      intros x Hx Hin. apply list_elem_of_singleton in Hin. subst x.
      apply endedSpans_closed in Hx.
      eapply Hopen; [|exact Hx]. eapply map_get_span; eassumption.
  - split.
    + rewrite spanCalls_app, endedSpans_app, flat_map_app, Hpairs.
      now rewrite spanCalls_exitCalls, endedSpans_exitCalls.
    + rewrite endedSpans_app, endedSpans_exitCalls.
      apply NoDup_app. repeat split; [exact Hnd| |exact Hspans].
      intros x Hx Hin. apply endedSpans_closed in Hx. now apply (Hopen x).
Qed.

Lemma spanDiscipline_step e s :
  wf s → spanDiscipline (telemetry s) → spanDiscipline (telemetry (step e s)).
Proof.
  intros Hwf Hd.
  apply spanDiscipline_requestCalls.
  apply (spanDiscipline_traceStep _ _ _ _ _ _ (step_trace e s)).
  - unfold wf, core in Hwf. now rewrite closedSpans_requestCalls.
  - now apply spanDiscipline_requestCalls.
Qed.

Lemma spanDiscipline_run es s :
  wf s → spanDiscipline (telemetry s) → spanDiscipline (telemetry (run es s)).
Proof.
  revert s. induction es as [|e es IH]; intros s Hwf Hd; [exact Hd|].
  apply IH; [now apply wf_step|now apply spanDiscipline_step].
Qed.

(** X2: in every state the server reaches from [start()], the [setStatus]
    and [end] calls it has made on spans come in pairs, one [setStatus]
    and then the [end] of the same span; no span was ended twice; and no
    span that was ended or given a status belongs to a request that is
    still pending. *)
Theorem spans_end_once_after_one_status (s : State) :
  reachable s →
  spanCalls (telemetry s)
  = flat_map (fun x => [(x, false); (x, true)]) (endedSpans (telemetry s))
  ∧ NoDup (endedSpans (telemetry s))
  ∧ (∀ x, x ∈ spansOf (pendingRequests s) → x ∉ closedSpans (telemetry s)).
Proof.
  intros Hr. pose proof (reachable_wf s Hr) as Hwf.
  destruct Hr as [es ->].
  destruct (spanDiscipline_run es init wf_init) as [H1 H2].
  { split; [reflexivity|apply NoDup_nil_2]. }
  repeat split; [exact H1|exact H2|].
  destruct Hwf as (_ & _ & _ & _ & Hopen). exact Hopen.
Qed.

Lemma requestsCounted_app (a b : list TelemetryCall) :
  requestsCounted (a ++ b) = (requestsCounted a + requestsCounted b)%nat.
Proof. unfold requestsCounted. now rewrite omap_app, length_app. Qed.

Lemma map_size_set_le (m : JsMap PendingRequest) id p :
  (map_size (map_set id p m) ≤ S (map_size m))%nat.
Proof.
  destruct (map_get id m) as [old|] eqn:G.
  - rewrite (map_size_set_present m id p old G). lia.
  - rewrite (map_size_set_absent m id p G). lia.
Qed.

Lemma latencySamples_exitCalls (m : JsMap PendingRequest) :
  latencySamples (exitCalls m) = [] ∧ requestsCounted (exitCalls m) = O.
Proof.
  induction m as [|entry m [IH1 IH2]]; [split; reflexivity|].
  change (exitCalls (entry :: m))
    with ([Span_setStatus (span (snd entry)) ERROR (Some (JStr PROCESS_EXITED_REASON));
           Span_end (span (snd entry))] ++ exitCalls m).
  rewrite latencySamples_app, requestsCounted_app, IH1, IH2. split; reflexivity.
Qed.

Lemma counted_traceStep m n l m' n' l' :
  traceStep (m, n, l) (m', n', l') →
  (length (latencySamples l) + map_size m ≤ requestsCounted l)%nat →
  (length (latencySamples l') + map_size m' ≤ requestsCounted l')%nat.
Proof.
  intros Hstep H. inversion Hstep; subst; clear Hstep.
  - exact H.
  - rewrite latencySamples_app, requestsCounted_app, length_app. simpl.
    pose proof (map_size_set_le m id {| startTime := t; method := mth; span := n |}).
    change (requestsCounted [_; _; _; _]) with 1%nat. lia.
  - rewrite latencySamples_app, requestsCounted_app, length_app. simpl.
    change (requestsCounted [_; _]) with 0%nat. lia.
  - rewrite latencySamples_app, requestsCounted_app, length_app. simpl.
    change (requestsCounted [_; _; _]) with 0%nat.
    match goal with G : map_get _ _ = Some _ |- _ => pose proof (map_size_delete _ _ _ G) end.
    lia.
  - rewrite latencySamples_app, requestsCounted_app, length_app.
    destruct (latencySamples_exitCalls m) as [-> ->].
    unfold map_size in *. simpl. lia.
Qed.

Lemma counted_run es s :
  (length (latencySamples (telemetry s)) + map_size (pendingRequests s)
   ≤ requestsCounted (telemetry s))%nat →
  (length (latencySamples (telemetry (run es s)))
   + map_size (pendingRequests (run es s))
   ≤ requestsCounted (telemetry (run es s)))%nat.
Proof.
  revert s. induction es as [|e es IH]; intros s H; [exact H|].
  apply IH. pose proof (step_trace e s) as Hstep. unfold trace in Hstep.
  apply counted_traceStep in Hstep.
  - now rewrite latencySamples_requestCalls, requestsCounted_requestCalls in Hstep.
  - now rewrite latencySamples_requestCalls, requestsCounted_requestCalls.
Qed.

(** X3: in every state the server reaches from [start()], the latency
    samples recorded plus the requests still pending never exceed the
    requests counted in [ook.request.count]: a latency sample is only ever
    recorded for a request that was counted, and once for each. *)
Theorem latency_samples_bounded_by_requests (s : State) :
  reachable s →
  (length (latencySamples (telemetry s)) + map_size (pendingRequests s)
   ≤ requestsCounted (telemetry s))%nat.
Proof.
  intros [es ->]. apply counted_run. simpl. lia.
Qed.

(** ** Forwarding does not depend on tracking *)

Lemma alter_const_same {A} (l : list A) (i : nat) (x : A) :
  l !! i = Some x → alter (fun _ => x) i l = l.
Proof.
  revert i. induction l as [|y l IH]; intros [|i] H; try discriminate.
  - simpl in H. injection H as ->. reflexivity.
  - simpl in *. f_equal. now apply IH.
Qed.

Lemma sendFailures_app (a b : list TelemetryCall) :
  sendFailures (a ++ b) = (sendFailures a + sendFailures b)%nat.
Proof. unfold sendFailures. now rewrite filter_app, length_app. Qed.

Lemma sendFailures_failed (l : list TelemetryCall) :
  sendFailures (l ++ [ErrorCount_add 1 (js "send_failed") None]) = S (sendFailures l).
Proof.
  rewrite sendFailures_app.
  change (sendFailures [ErrorCount_add 1 (js "send_failed") None]) with 1%nat. lia.
Qed.

Lemma sendFailures_other (l d : list TelemetryCall) :
  forallb (fun c => negb (isSendFailure c)) d = true →
  sendFailures (l ++ d) = sendFailures l.
Proof.
  intros H. rewrite sendFailures_app.
  assert (E : sendFailures d = O).
  { unfold sendFailures. induction d as [|c d IH]; [reflexivity|].
    simpl in H. apply andb_prop in H as [Hc Hd]. apply negb_true_iff in Hc.
    rewrite filter_cons_False by congruence. now apply IH. }
  lia.
Qed.

Lemma trackRequest_frame message now s :
  let s' := trackRequest message now s in
  procs s' = procs s ∧ processManager s' = processManager s
  ∧ sockets s' = sockets s ∧ activeConnection s' = activeConnection s
  ∧ sendFailures (telemetry s') = sendFailures (telemetry s).
Proof.
  cbv zeta. destruct (tracking message) as [|m|id m] eqn:T.
  - rewrite trackRequest_not_tracked by exact T. repeat split.
  - rewrite (trackRequest_leaked message now _ m) by exact T. simpl.
    repeat split. now apply sendFailures_other.
  - rewrite (trackRequest_tracked message now _ id m) by exact T. simpl.
    repeat split. now apply sendFailures_other.
Qed.

Lemma trackResponse_frame data now s :
  let s' := trackResponse data now s in
  procs s' = procs s ∧ processManager s' = processManager s
  ∧ sockets s' = sockets s ∧ activeConnection s' = activeConnection s.
Proof.
  cbv zeta. destruct (resolution data s) as [[[parsed id] pending]|] eqn:R.
  - rewrite (trackResponse_resolved data now _ parsed id pending) by exact R.
    repeat split.
  - rewrite trackResponse_unresolved by exact R. repeat split.
Qed.

(** X4: every frame from the peer is handed to the process manager,
    whether or not it parses and whether or not it is tracked.  When the
    manager runs and has an input pipe, the frame is written once, with
    the newline rule of [send], and [send_failed] is counted exactly when
    the write returns [false], although the chunk was handed to the pipe.
    Otherwise nothing is written and [send_failed] is counted once.  The
    peer's sockets are not touched. *)
Theorem frame_forwarded_whatever_it_holds
        (message : JsString) (now : Z) (ok : bool) (s : State) :
  let s' := handleIncomingMessage message now ok s in
  let line := if endsWith message LF then message else message ++ LF in
  processManager s' = processManager s
  ∧ sockets s' = sockets s
  ∧ (canSend s = true →
     writtenToProcess s' = writtenToProcess s ++ [line]
     ∧ sendFailures (telemetry s')
       = (sendFailures (telemetry s) + if ok then 0 else 1)%nat)
  ∧ (canSend s = false →
     procs s' = procs s
     ∧ sendFailures (telemetry s') = S (sendFailures (telemetry s))).
Proof.
  cbv zeta. unfold BridgeServer.handleIncomingMessage. cbv zeta.
  set (s0 := call (MessagesIn_add 1) s).
  destruct (trackRequest_frame message now s0) as (Hp & Hm & Hs & Ha & Hf).
  cbv zeta in *. set (s1 := trackRequest message now s0) in *.
  change (procs s0) with (procs s) in Hp.
  change (processManager s0) with (processManager s) in Hm.
  change (sockets s0) with (sockets s) in Hs.
  assert (Hf0 : sendFailures (telemetry s1) = sendFailures (telemetry s)).
  { rewrite Hf. unfold s0. now apply (sendFailures_other _ [MessagesIn_add 1]). }
  clear Hf.
  assert (Hfail : ∀ x, telemetry x = telemetry s1 →
            sendFailures (telemetry (call (ErrorCount_add 1 (js "send_failed") None) x))
            = S (sendFailures (telemetry s))).
  { intros x Hx. change (telemetry (call ?c x)) with (telemetry x ++ [c]).
    now rewrite sendFailures_failed, Hx, Hf0. }
  unfold forwardToProcess, canSend, writtenToProcess.
  rewrite Hm, Hp.
  destruct (processManager s) as [p|] eqn:Epm.
  2:{ cbv beta iota.
      change (processManager (call ?c s1)) with (processManager s1).
      change (sockets (call ?c s1)) with (sockets s1).
      change (procs (call ?c s1)) with (procs s1).
      rewrite Hm, Hs, Hp, (Hfail s1 eq_refl).
      repeat split; discriminate. }
  destruct (procs s !! p) as [pm|] eqn:Ep.
  2:{ cbv beta iota.
      change (processManager (call ?c s1)) with (processManager s1).
      change (sockets (call ?c s1)) with (sockets s1).
      change (procs (call ?c s1)) with (procs s1).
      rewrite Hm, Hs, Hp, (Hfail s1 eq_refl).
      repeat split; discriminate. }
  assert (Hsame : alter (fun _ : ProcessManager.t => pm) p (procs s) = procs s)
    by now apply alter_const_same.
  unfold ProcessManager.send, ProcessManager.written.
  destruct (ProcessManager.process pm) as [c|] eqn:Ec.
  2:{ assert (Hr : ProcessManager.isRunning pm = false)
        by (unfold ProcessManager.isRunning; now rewrite Ec).
      rewrite Hr. cbv beta iota.
      change (processManager (call ?c (onProc ?q ?f s1))) with (processManager s1).
      change (sockets (call ?c (onProc ?q ?f s1))) with (sockets s1).
      change (procs (call ?c (onProc ?q ?f s1))) with (alter f q (procs s1)).
      rewrite Hm, Hs, Hp, Hsame, (Hfail (onProc p (fun _ => pm) s1) eq_refl).
      repeat split; discriminate. }
  destruct (ProcessManager.isRunning pm) eqn:Hr;
    destruct (ProcessManager.stdin c) as [w|] eqn:Ew.
  - cbv beta iota. cbn [andb]. destruct ok; cbv beta iota.
    + change (processManager (onProc ?q ?f s1)) with (processManager s1).
      change (sockets (onProc ?q ?f s1)) with (sockets s1).
      change (procs (onProc ?q ?f s1)) with (alter f q (procs s1)).
      change (telemetry (onProc ?q ?f s1)) with (telemetry s1).
      rewrite Hm, Hs, Hp, Hf0, list_lookup_alter_eq, Ep. simpl.
      split; [reflexivity|split; [reflexivity|split; [|discriminate]]].
      intros _. split; [reflexivity|lia].
    + change (processManager (call ?c (onProc ?q ?f s1))) with (processManager s1).
      change (sockets (call ?c (onProc ?q ?f s1))) with (sockets s1).
      change (procs (call ?c (onProc ?q ?f s1))) with (alter f q (procs s1)).
      rewrite Hm, Hs, Hp, (Hfail (onProc p _ s1) eq_refl), list_lookup_alter_eq, Ep.
      simpl. split; [reflexivity|split; [reflexivity|split; [|discriminate]]].
      intros _. split; [reflexivity|lia].
  - cbv beta iota. cbn [andb].
    change (processManager (call ?c (onProc ?q ?f s1))) with (processManager s1).
    change (sockets (call ?c (onProc ?q ?f s1))) with (sockets s1).
    change (procs (call ?c (onProc ?q ?f s1))) with (alter f q (procs s1)).
    rewrite Hm, Hs, Hp, Hsame, (Hfail (onProc p (fun _ => pm) s1) eq_refl).
    repeat split; discriminate.
  - cbv beta iota. cbn [andb].
    change (processManager (call ?c (onProc ?q ?f s1))) with (processManager s1).
    change (sockets (call ?c (onProc ?q ?f s1))) with (sockets s1).
    change (procs (call ?c (onProc ?q ?f s1))) with (alter f q (procs s1)).
    rewrite Hm, Hs, Hp, Hsame, (Hfail (onProc p (fun _ => pm) s1) eq_refl).
    repeat split; discriminate.
  - cbv beta iota. cbn [andb].
    change (processManager (call ?c (onProc ?q ?f s1))) with (processManager s1).
    change (sockets (call ?c (onProc ?q ?f s1))) with (sockets s1).
    change (procs (call ?c (onProc ?q ?f s1))) with (alter f q (procs s1)).
    rewrite Hm, Hs, Hp, Hsame, (Hfail (onProc p (fun _ => pm) s1) eq_refl).
    repeat split; discriminate.
Qed.

(** X5: every line the process manager emits is handed to the peer,
    whether or not it parses and whether or not it resolves a request:
    when the active connection is open there is one [send] call on it,
    with the line itself, and no other socket changes; when it is not,
    no socket changes.  The process managers are not touched. *)
Theorem output_forwarded_whatever_it_holds (data : JsString) (now : Z) (s : State) :
  let s' := handleOutgoingMessage data now s in
  activeConnection s' = activeConnection s
  ∧ procs s' = procs s
  ∧ processManager s' = processManager s
  ∧ (∀ a w, activeConnection s = Some a → sockets s !! a = Some w →
            readyState w = OPEN →
            sockets s' = alter (ws_send data) a (sockets s)
            ∧ sentToPeer s' = sentToPeer s ++ [data])
  ∧ (activeIsOpen s = false → sockets s' = sockets s).
Proof.
  cbv zeta. unfold BridgeServer.handleOutgoingMessage. cbv zeta.
  set (s0 := call (MessagesOut_add 1) s).
  destruct (trackResponse_frame data now s0) as (Hp & Hm & Hs & Ha).
  cbv zeta in *. set (s1 := trackResponse data now s0) in *.
  change (procs s0) with (procs s) in Hp.
  change (processManager s0) with (processManager s) in Hm.
  change (sockets s0) with (sockets s) in Hs.
  change (activeConnection s0) with (activeConnection s) in Ha.
  assert (Hopen : activeIsOpen s1 = activeIsOpen s).
  { unfold activeIsOpen. now rewrite Ha, Hs. }
  unfold forwardToPeer, sentToPeer. rewrite Hopen.
  destruct (activeIsOpen s) eqn:Hbusy.
  - unfold activeIsOpen in Hbusy. rewrite Ha.
    destruct (activeConnection s) as [a|] eqn:Ea; [|discriminate].
    destruct (sockets s !! a) as [w|] eqn:Ew; [|discriminate].
    change (activeConnection (onSocket ?q ?f s1)) with (activeConnection s1).
    change (procs (onSocket ?q ?f s1)) with (procs s1).
    change (processManager (onSocket ?q ?f s1)) with (processManager s1).
    change (sockets (onSocket ?q ?f s1)) with (alter f q (sockets s1)).
    rewrite Ha, Hp, Hm, Hs.
    split; [reflexivity|split; [reflexivity|split; [reflexivity|split]]];
      [|discriminate].
    intros a' w' [= <-] Hw' Hr. split; [reflexivity|].
    now rewrite list_lookup_alter_eq, Ew.
  - rewrite Ha, Hp, Hm, Hs.
    split; [reflexivity|split; [reflexivity|split; [reflexivity|split]]];
      [|reflexivity].
    intros a w Ea Ew Hr. unfold activeIsOpen in Hbusy.
    rewrite Ea, Ew, Hr in Hbusy. discriminate.
Qed.

(** ** Admission when the pipes of the child are missing *)

Lemma killPrevious_cases s :
  killPrevious s = s ∨ ∃ p, killPrevious s = onProc p ProcessManager.kill s.
Proof.
  unfold killPrevious. destruct (processManager s) as [p|]; [|now left].
  destruct (procs s !! p) as [pm|]; [|now left].
  destruct (ProcessManager.isRunning pm); [right; now exists p|now left].
Qed.

Lemma spawn_new_outcome (o : ProcessManager.SpawnOutcome) :
  let r := ProcessManager.spawn process_env o
             (ProcessManager.new (command config) (commandArgs config)) in
  let piped := ProcessManager.so_stdout o && ProcessManager.so_stdin o
               && ProcessManager.so_stderr o in
  (piped = true → snd r = [])
  ∧ (piped = false →
     snd r = [ProcessManager.EmitError]
     ∧ ∃ c, ProcessManager.process (fst r) = Some c
            ∧ ProcessManager.isRunning (fst r) = true
            ∧ ProcessManager.stdoutReader (fst r) = false
            ∧ ProcessManager.listeners c = false).
Proof.
  unfold ProcessManager.spawn, ProcessManager.new, ProcessManager.isRunning. simpl.
  destruct (ProcessManager.so_stdout o), (ProcessManager.so_stdin o),
    (ProcessManager.so_stderr o); simpl;
    (split; [try discriminate; reflexivity|]); try discriminate;
    intros _; (split; [reflexivity|]); eexists; repeat split.
Qed.

Lemma handleProcessError_active s a :
  activeConnection s = Some a →
  handleProcessError s
  = onSocket a (ws_close 1011 PROCESS_ERROR_REASON)
             (call (ErrorCount_add 1 (js "process") None) s).
Proof.
  intros H. unfold handleProcessError. cbv zeta.
  change (activeConnection (call ?c s)) with (activeConnection s).
  now rewrite H.
Qed.

(** X6: what an admitted peer finds.  When the child process has its
    three pipes, the peer's socket stays open with its listeners and only
    the gauge of active connections is touched.  When a pipe is missing,
    [spawn()] emits its error during the admission: the error counter
    tagged ["process"] is incremented and the socket of the peer that was
    just admitted is closed with code 1011 and reason ["Process error"],
    while it stays the active connection; the new manager has no standard
    output reader and no exit listener, and still reports that it runs. *)
Theorem admission_closes_peer_when_pipes_missing
        (o : ProcessManager.SpawnOutcome) (s : State) :
  listening s = true → activeIsOpen s = false →
  let s' := step (Connection o) s in
  let piped := ProcessManager.so_stdout o && ProcessManager.so_stdin o
               && ProcessManager.so_stderr o in
  activeConnection s' = Some (length (sockets s))
  ∧ (piped = true →
     sockets s' = sockets s ++ [ws_on newSocket]
     ∧ telemetry s' = telemetry s ++ [ActiveConnections_add 1])
  ∧ (piped = false →
     sockets s' = sockets s ++ [ws_on (ws_close 1011 PROCESS_ERROR_REASON newSocket)]
     ∧ telemetry s'
       = telemetry s ++ [ActiveConnections_add 1; ErrorCount_add 1 (js "process") None]
     ∧ ∃ pm c, procs s' !! length (procs s) = Some pm
               ∧ ProcessManager.process pm = Some c
               ∧ ProcessManager.isRunning pm = true
               ∧ ProcessManager.stdoutReader pm = false
               ∧ ProcessManager.listeners c = false).
Proof.
  intros Hl Hbusy. cbv zeta.
  assert (E : step (Connection o) s = handleConnection o s).
  { simpl. now rewrite Hl. }
  rewrite E. clear E.
  unfold BridgeServer.handleConnection. cbv zeta. rewrite Hbusy.
  match goal with |- context [ensureProcess o ?x] => set (s1 := x) end.
  rewrite ensureProcess_eq. cbv zeta.
  assert (Hk : sockets (killPrevious s1) = sockets s ++ [newSocket]
               ∧ activeConnection (killPrevious s1) = Some (length (sockets s))
               ∧ telemetry (killPrevious s1) = telemetry s ++ [ActiveConnections_add 1]
               ∧ length (procs (killPrevious s1)) = length (procs s)).
  { rewrite killPrevious_length.
    destruct (killPrevious_cases s1) as [-> | [p ->]]; repeat split. }
  destruct Hk as (Hks & Hka & Hkt & Hkl).
  change (length (procs s1)) with (length (procs s)).
  remember (killPrevious s1) as k eqn:Ek. clear Ek.
  destruct (spawn_new_outcome o) as [Hgood Hbad]. cbv zeta in Hgood, Hbad.
  remember (ProcessManager.spawn process_env o
              (ProcessManager.new (command config) (commandArgs config))) as r eqn:Er.
  clear Er. destruct r as [pm emitted]. simpl in Hgood, Hbad. cbn [fst snd].
  destruct (ProcessManager.so_stdout o && ProcessManager.so_stdin o
            && ProcessManager.so_stderr o) eqn:Hp.
  - rewrite (Hgood eq_refl). simpl. rewrite Hka, Hks, Hkt, alter_last.
    split; [reflexivity|split; [|discriminate]]. intros _. split; reflexivity.
  - destruct (Hbad eq_refl) as (-> & c & Hc & Hrun & Hrd & Hli).
    cbn [BridgeServer.deliverAll fold_left BridgeServer.deliver].
    rewrite (handleProcessError_active _ (length (sockets s))) by exact Hka.
    simpl. rewrite Hka, Hks, Hkt, !alter_last, <- app_assoc.
    split; [reflexivity|split; [discriminate|]]. intros _.
    split; [reflexivity|split; [reflexivity|]].
    exists pm, c. rewrite lookup_app_r, Hkl, Nat.sub_diag by lia.
    repeat split; assumption.
Qed.

(** ** [stop()] *)

(** X7: [stop()] closes the active connection with code 1001 and reason
    ["Server shutting down"], calls [kill()] on the process manager, and
    leaves the server holding neither; it touches no metric (the gauge of
    active connections goes down only on the socket's own ["close"]
    event).  A second [stop()] changes nothing, and connection events
    after [stop()] are not handled. *)
Theorem stop_is_idempotent (s : State) :
  activeConnection (stop s) = None
  ∧ processManager (stop s) = None
  ∧ telemetry (stop s) = telemetry s
  ∧ sockets (stop s)
    = match activeConnection s with
      | Some a => alter (ws_close 1001 SHUTDOWN_REASON) a (sockets s)
      | None => sockets s
      end
  ∧ procs (stop s)
    = match processManager s with
      | Some p => alter ProcessManager.kill p (procs s)
      | None => procs s
      end
  ∧ stop (stop s) = stop s
  ∧ (∀ o, step (Connection o) (stop s) = stop s).
Proof.
  destruct s as [li so pr te ns [a|] [p|] pe au]; repeat split.
Qed.

(** ** Ids that are arrays or objects, and ids that cannot be printed *)

Lemma sameValueZero_not_primitive (k x : JValue) :
  isPrimitive k = false → sameValueZero k x = false.
Proof. destruct k; try discriminate; reflexivity. Qed.

Lemma map_get_snoc_not_primitive (m : JsMap PendingRequest) k v id :
  isPrimitive k = false → map_get id (m ++ [(k, v)]) = map_get id m.
Proof.
  intros Hk. induction m as [|[k' v'] m IH]; simpl.
  - now rewrite sameValueZero_not_primitive.
  - destruct (sameValueZero k' id); [reflexivity|exact IH].
Qed.

Lemma map_set_not_primitive (m : JsMap PendingRequest) k v :
  isPrimitive k = false → map_set k v m = m ++ [(k, v)].
Proof.
  intros Hk. rewrite map_get_none_set.
  - destruct k; try discriminate; reflexivity.
  - induction m as [|[k' v'] m IH]; [reflexivity|]. simpl.
    destruct (sameValueZero k' k) eqn:E; [|exact IH].
    apply sameValueZero_primitive in E as [_ E]. congruence.
Qed.

Lemma elem_of_map_set_other (m : JsMap PendingRequest) k v id p :
  (k, v) ∈ m → isPrimitive k = false → (k, v) ∈ map_set id p m.
Proof.
  intros Hin Hk. induction m as [|[k' v'] m IH]; [now apply elem_of_nil in Hin|].
  simpl. apply elem_of_cons in Hin as [Hin|Hin].
  - injection Hin as <- <-.
    rewrite sameValueZero_not_primitive by exact Hk. apply elem_of_cons. now left.
  - destruct (sameValueZero k' id); apply elem_of_cons; right; auto.
Qed.

Lemma elem_of_map_delete_other (m : JsMap PendingRequest) k v id :
  (k, v) ∈ m → isPrimitive k = false → (k, v) ∈ map_delete id m.
Proof.
  intros Hin Hk. induction m as [|[k' v'] m IH]; [now apply elem_of_nil in Hin|].
  simpl. apply elem_of_cons in Hin as [Hin|Hin].
  - injection Hin as <- <-.
    rewrite sameValueZero_not_primitive by exact Hk. apply elem_of_cons. now left.
  - destruct (sameValueZero k' id); [auto|]. apply elem_of_cons; right; auto.
Qed.

Lemma step_keeps_object_entry e s k v :
  isProcExit e = false → isPrimitive k = false →
  (k, v) ∈ pendingRequests s → (k, v) ∈ pendingRequests (step e s).
Proof.
  intros He Hk Hin.
  pose proof (step_trace e s) as Hstep. unfold trace in Hstep.
  destruct (touchesPending e) eqn:Ht.
  2:{ destruct (quiet_step e s Ht) as (-> & _). exact Hin. }
  destruct e as [o|ws message now ok|ws|ws|ws|p line now|p chunk|p ecode|p code sig|p|];
    try discriminate; simpl.
  - destruct (sockets s !! ws) as [w|]; [|exact Hin].
    destruct (handlers w); [|exact Hin].
    assert (H : (k, v) ∈ pendingRequests (handleIncomingMessage message now ok s)).
    { pose proof (trace_handleIncomingMessage message now ok s) as T.
      unfold trace in T.
      destruct (tracking message); injection T as -> _ _; [exact Hin..|].
      now apply elem_of_map_set_other. }
    destruct (readyState w); try exact Hin; exact H.
  - destruct (procs s !! p) as [pm|]; [|exact Hin].
    destruct (ProcessManager.stdoutReader pm); [|exact Hin].
    unfold ProcessManager.onLine. destruct (negb _); simpl; [|exact Hin].
    pose proof (trace_handleOutgoingMessage line now s) as T. unfold trace in T.
    destruct (resolution line s) as [[[parsed id] pending]|];
      injection T as -> _ _; [|exact Hin].
    now apply elem_of_map_delete_other.
Qed.

(** X8: a request whose id is an array or an object always adds an entry
    to the pending map, also when the same frame was sent before; the
    entry answers no lookup, so every line of process output resolves
    what it would have resolved without it; and the entry is still in
    the map after every sequence of events that holds no process exit. *)
Theorem object_id_request_never_resolved
        (message : JsString) (now : Z) (ok : bool) (s : State) (X M : JValue) :
  tracking message = Tracked X M →
  isPrimitive X = false →
  let s' := handleIncomingMessage message now ok s in
  let entry := (X, {| startTime := now; method := M; span := nextSpan s |}) in
  pendingRequests s' = pendingRequests s ++ [entry]
  ∧ (∀ id, map_get id (pendingRequests s') = map_get id (pendingRequests s))
  ∧ (∀ data, resolution data s' = resolution data s)
  ∧ (∀ es, forallb (fun e => negb (isProcExit e)) es = true →
           entry ∈ pendingRequests (run es s')).
Proof.
  intros T HX. cbv zeta.
  assert (Hp : pendingRequests (handleIncomingMessage message now ok s)
               = pendingRequests s
                 ++ [(X, {| startTime := now; method := M; span := nextSpan s |})]).
  { rewrite (pendingRequests_handleIncomingMessage message now ok s X M T).
    now apply map_set_not_primitive. }
  assert (Hg : ∀ id, map_get id (pendingRequests (handleIncomingMessage message now ok s))
                     = map_get id (pendingRequests s)).
  { intros id. rewrite Hp. now apply map_get_snoc_not_primitive. }
  split; [exact Hp|split; [exact Hg|split]].
  - intros data. unfold BridgeServer.resolution.
    destruct (JSON_parse data) as [parsed|]; [|reflexivity].
    destruct (member (js "id") parsed) as [| |id]; try reflexivity.
    now rewrite Hg.
  - intros es.
    assert (Hin : (X, {| startTime := now; method := M; span := nextSpan s |})
                  ∈ pendingRequests (handleIncomingMessage message now ok s)).
    { rewrite Hp, elem_of_app. right. apply elem_of_cons. now left. }
    revert Hin. generalize (handleIncomingMessage message now ok s).
    induction es as [|e es IH]; intros s0 Hin Hes; [exact Hin|].
    simpl in Hes. apply andb_prop in Hes as [He Hes]. apply negb_true_iff in He.
    apply IH; [|exact Hes]. now apply step_keeps_object_entry.
Qed.

(** X9: a request whose id cannot be converted to a string (an object
    with a property [toString] of its own, or an array that holds one)
    makes [String(parsed.id)] throw after [startSpan]: the span is
    started and given its method, no pending request is made and the
    request is not counted, and no later sequence of events ends that
    span or gives it a status. *)
Theorem unprintable_id_leaks_span
        (message : JsString) (now : Z) (ok : bool) (s : State)
        (parsed id m : JValue) :
  wf s →
  JSON_parse message = Some parsed →
  member (js "id") parsed = Value id →
  member (js "method") parsed = Value m →
  truthy m = true → toStringThrows m = false → toStringThrows id = true →
  let s' := handleIncomingMessage message now ok s in
  pendingRequests s' = pendingRequests s
  ∧ requestCalls (telemetry s')
    = requestCalls (telemetry s)
      ++ [StartSpan (nextSpan s) m; Span_setRpcMethod (nextSpan s) m]
  ∧ (∀ es, (nextSpan s ∉ closedSpans (telemetry (run es s')))
           ∧ (nextSpan s ∉ endedSpans (telemetry (run es s')))).
Proof.
  intros Hwf P I Hm Ht Hnm Hid. cbv zeta.
  assert (T : tracking message = SpanLeaked m).
  { unfold BridgeServer.tracking. now rewrite P, I, Hm, Ht, Hnm, Hid. }
  pose proof (trace_handleIncomingMessage message now ok s) as Htr.
  rewrite T in Htr. unfold trace in Htr. injection Htr as Hp Hn Hl.
  split; [exact Hp|split; [exact Hl|]].
  intros es.
  assert (Hab : abandoned (nextSpan s) (core (handleIncomingMessage message now ok s))).
  { unfold core. rewrite Hp, Hn.
    rewrite <- closedSpans_requestCalls, Hl, closedSpans_app, closedSpans_requestCalls.
    rewrite app_nil_r.
    destruct Hwf as (_ & _ & Hlt & Hcl & _).
    repeat split; [lia| |].
    - intros Hin. rewrite Forall_forall in Hlt. specialize (Hlt _ Hin). lia.
    - intros Hin. rewrite Forall_forall in Hcl. specialize (Hcl _ Hin). lia. }
  apply (abandoned_run _ es) in Hab. destruct Hab as (_ & _ & Hab).
  split; [exact Hab|]. intros Hin. now apply endedSpans_closed in Hin.
Qed.

(** ** The pending map in reachable states *)

Lemma map_get_none_elem (m : JsMap PendingRequest) k k' v :
  map_get k m = None → (k', v) ∈ m → sameValueZero k' k = false.
Proof.
  induction m as [|[k0 v0] m IH]; intros Hg Hin; [now apply elem_of_nil in Hin|].
  simpl in Hg. destruct (sameValueZero k0 k) eqn:E; [discriminate|].
  apply elem_of_cons in Hin as [Hin|Hin]; [now injection Hin as -> ->|auto].
Qed.

Lemma uniqueKeys_lookup (m : JsMap PendingRequest) i j ki vi kj vj :
  uniqueKeys m → (i < j)%nat →
  m !! i = Some (ki, vi) → m !! j = Some (kj, vj) →
  sameValueZero kj ki = false.
Proof.
  revert i j. induction m as [|[k v] m IH]; intros i j Hu Hlt Hi Hj;
    [destruct i; discriminate|].
  destruct Hu as [Hk Hu]. destruct j as [|j]; [lia|]. simpl in Hj.
  destruct i as [|i].
  - simpl in Hi. injection Hi as -> ->.
    eapply map_get_none_elem; [exact Hk|]. eapply list_elem_of_lookup_2, Hj.
  - simpl in Hi. apply (IH i j); auto. lia.
Qed.

Lemma spansOf_lookup (m : JsMap PendingRequest) i k v :
  m !! i = Some (k, v) → spansOf m !! i = Some (span v).
Proof.
  revert i. induction m as [|[k' v'] m IH]; intros [|i] H; try discriminate.
  - simpl in H. now injection H as -> ->.
  - simpl in *. now apply IH.
Qed.

(** X10: in every state the server reaches from [start()], no two
    entries of the pending map have keys that are the same for the map
    (SameValueZero), every entry holds a span of its own, and every span
    held was started before. *)
Theorem pending_entries_distinct (s : State) :
  reachable s →
  (∀ i j ki vi kj vj,
      i ≠ j →
      pendingRequests s !! i = Some (ki, vi) →
      pendingRequests s !! j = Some (kj, vj) →
      sameValueZero ki kj = false ∧ span vi ≠ span vj)
  ∧ Forall (fun x => x < nextSpan s)%nat (spansOf (pendingRequests s)).
Proof.
  intros Hr. destruct (reachable_wf s Hr) as (Hk & Hnd & Hlt & _).
  split; [|exact Hlt].
  intros i j ki vi kj vj Hne Hi Hj. split.
  - destruct (Nat.lt_total i j) as [Hlt'|[->|Hlt']]; [|congruence|].
    + rewrite sameValueZero_sym. eapply uniqueKeys_lookup; eauto.
    + eapply uniqueKeys_lookup; eauto.
  - intros Heq. apply Hne.
    eapply (NoDup_lookup (spansOf (pendingRequests s))); [exact Hnd| |].
    + apply (spansOf_lookup _ _ _ _ Hi).
    + rewrite Heq. apply (spansOf_lookup _ _ _ _ Hj).
Qed.

End BridgeServerProperties.

(* ===================================================================== *)
(** * The life cycle of the process manager                                *)
(* ===================================================================== *)

Section ProcessManagerLifeCycle.

Import ProcessManager.

(** X11: after [spawn()] the manager reports that it runs, whatever pipes
    the child got, so a second [spawn()] does nothing and emits nothing;
    [spawn()] on a manager that runs leaves it as it is; on one that does
    not run it starts a child with the environment of [childEnv], no
    signal sent and nothing written. *)
Theorem spawn_leaves_manager_running (parent : Env) (o : SpawnOutcome) (pm : t) :
  let pm' := fst (spawn parent o pm) in
  isRunning pm' = true
  ∧ (isRunning pm = true → spawn parent o pm = (pm, []))
  ∧ (∀ parent' o', spawn parent' o' pm' = (pm', []))
  ∧ (isRunning pm = false →
     ∃ c, process pm' = Some c
          ∧ env c = childEnv parent
          ∧ signals c = []
          ∧ stdin c = (if so_stdin o then Some [] else None)
          ∧ command pm' = command pm ∧ args pm' = args pm).
Proof.
  cbv zeta.
  assert (Hrun : isRunning (fst (spawn parent o pm)) = true).
  { unfold spawn. destruct (isRunning pm) eqn:E; [exact E|].
    destruct (negb (so_stdout o) || negb (so_stdin o) || negb (so_stderr o));
      reflexivity. }
  split; [exact Hrun|split; [|split]].
  - intros H. unfold spawn. now rewrite H.
  - intros parent' o'. unfold spawn at 1. now rewrite Hrun.
  - intros H. unfold spawn. rewrite H.
    destruct (negb (so_stdout o) || negb (so_stdin o) || negb (so_stderr o));
      simpl; eexists; repeat split.
Qed.

(** X11 on a manager that runs and on one that was never spawned. *)
Lemma spawn_leaves_manager_running_witness :
  spawn Demo.parentEnv Demo.piped Demo.running = (Demo.running, [])
  ∧ ∃ c, process (fst (spawn Demo.parentEnv Demo.piped Demo.manager)) = Some c
         ∧ signals c = [].
Proof.
  split.
  - exact (proj1 (proj2 (spawn_leaves_manager_running
                           Demo.parentEnv Demo.piped Demo.running)) eq_refl).
  - destruct (spawn_leaves_manager_running Demo.parentEnv Demo.piped Demo.manager)
      as (_ & _ & _ & H).
    destruct (H eq_refl) as (c & Hc & _ & Hs & _). exists c. split; assumption.
Defined.

(** X12: [kill()] does nothing on a manager without a process.  On a
    process that has not exited it sends SIGTERM, and the timer it sets
    sends SIGKILL when it fires and the process still has no exit code.
    When the ["exit"] event came first, the timer finds no process and
    sends nothing; when the process has an exit code, the timer sends
    nothing either. *)
Theorem kill_escalates_only_without_exit (pm : t) :
  (process pm = None → kill pm = pm)
  ∧ (∀ c, process pm = Some c → exitCode c = None →
          process (onKillTimeout (kill pm))
          = Some (signal SIGKILL (signal SIGTERM c))
          ∧ signals (signal SIGKILL (signal SIGTERM c))
            = signals c ++ [SIGTERM; SIGKILL]
          ∧ killTimers (onKillTimeout (kill pm)) = killTimers pm)
  ∧ (∀ c code, process pm = Some c → exitCode c = Some code →
               process (onKillTimeout (kill pm)) = Some (signal SIGTERM c))
  ∧ (∀ code sig,
        process (onKillTimeout (fst (onExit code sig (kill pm)))) = None).
Proof.
  split; [|split; [|split]].
  - intros H. unfold kill. now rewrite H.
  - intros c Hc He. unfold kill, onKillTimeout. rewrite Hc. simpl. rewrite He.
    simpl. repeat split. now rewrite <- app_assoc.
  - intros c code Hc He. unfold kill, onKillTimeout. rewrite Hc. simpl.
    now rewrite He.
  - intros code sig. reflexivity.
Qed.

(** X12 on the running manager of the examples. *)
Lemma kill_escalates_only_without_exit_witness :
  ∃ c, process (onKillTimeout (kill Demo.running)) = Some c
       ∧ signals c = [SIGTERM; SIGKILL].
Proof.
  destruct (kill_escalates_only_without_exit Demo.running) as (_ & H & _).
  destruct (H _ eq_refl eq_refl) as (Hp & Hs & _).
  eexists. split; [exact Hp|exact Hs].
Defined.

(** X13: the ["exit"] event of the child emits [exit] with the code and
    the signal and releases the manager: it no longer runs, its reader is
    gone, [send] returns [false] and writes nothing, [kill()] does
    nothing, and a later [spawn()] starts a new child that has received
    no signal. *)
Theorem exit_releases_manager
        (code : option Z) (sig : option Signal) (pm : t) :
  let pm' := fst (onExit code sig pm) in
  snd (onExit code sig pm) = [EmitExit code sig]
  ∧ isRunning pm' = false
  ∧ stdoutReader pm' = false
  ∧ (∀ message ok, send message ok pm' = (false, pm'))
  ∧ kill pm' = pm'
  ∧ (∀ parent o, ∃ c, process (fst (spawn parent o pm')) = Some c
                      ∧ signals c = [] ∧ exitCode c = None).
Proof.
  cbv zeta. repeat split.
  intros parent o. unfold spawn. simpl.
  destruct (negb (so_stdout o) || negb (so_stdin o) || negb (so_stderr o));
    simpl; eexists; repeat split.
Qed.

End ProcessManagerLifeCycle.

(* ===================================================================== *)
(** * The command arguments [main] reads                                   *)
(* ===================================================================== *)

Section CommandArgs.

Import Index.

Lemma split_not_nil (sep : N) (s : JsString) : split sep s ≠ [].
Proof.
  destruct s as [|c s]; simpl; [discriminate|].
  destruct (N.eqb c sep); [discriminate|].
  destruct (split sep s); discriminate.
Qed.

Lemma split_no_separator (sep : N) (s : JsString) :
  Forall (fun piece => sep ∉ piece) (split sep s).
Proof.
  induction s as [|c s IH]; simpl.
  - constructor; [apply not_elem_of_nil|constructor].
  - destruct (N.eqb c sep) eqn:E.
    + constructor; [apply not_elem_of_nil|exact IH].
    + apply N.eqb_neq in E.
      destruct (split sep s) as [|piece rest].
      * constructor; [|constructor].
        rewrite not_elem_of_cons. split; [congruence|apply not_elem_of_nil].
      * inversion IH; subst. constructor; [|assumption].
        rewrite not_elem_of_cons. split; [congruence|assumption].
Qed.

Lemma concat_split (sep : N) (s : list N) :
  concat (split sep s) = filter (fun c => c ≠ sep) s.
Proof.
  induction s as [|c s IH]; [reflexivity|]. cbn [split].
  destruct (N.eqb c sep) eqn:E.
  - apply N.eqb_eq in E. subst c.
    rewrite filter_cons_False by tauto. exact IH.
  - apply N.eqb_neq in E. rewrite filter_cons_True by exact E.
    rewrite <- IH.
    destruct (split sep s) as [|piece rest] eqn:Es.
    + now destruct (split_not_nil sep s).
    + reflexivity.
Qed.

Lemma concat_filterBoolean (pieces : list JsString) :
  concat (filterBoolean pieces) = concat pieces.
Proof.
  unfold filterBoolean, JsString. induction pieces as [|p pieces IH]; [reflexivity|].
  destruct p as [|c p].
  - rewrite filter_cons_False by tauto. exact IH.
  - rewrite filter_cons_True by discriminate. cbn [concat]. now rewrite IH.
Qed.

Lemma split_without_separator (sep : N) (a : JsString) :
  sep ∉ a → split sep a = [a].
Proof.
  induction a as [|c a IH]; [reflexivity|].
  rewrite not_elem_of_cons. intros [Hc Ha]. simpl.
  destruct (N.eqb c sep) eqn:E; [apply N.eqb_eq in E; congruence|].
  now rewrite IH.
Qed.

Lemma split_app_separator (sep : N) (a r : JsString) :
  sep ∉ a → split sep (a ++ sep :: r) = a :: split sep r.
Proof.
  induction a as [|c a IH].
  - intros _. simpl. now rewrite N.eqb_refl.
  - rewrite not_elem_of_cons. intros [Hc Ha]. simpl.
    destruct (N.eqb c sep) eqn:E; [apply N.eqb_eq in E; congruence|].
    now rewrite IH.
Qed.

Lemma commandArgs_join (args : list JsString) :
  Forall (fun a => a ≠ [] ∧ SPACE ∉ a) args →
  filterBoolean (split SPACE (join args)) = args.
Proof.
  unfold filterBoolean, JsString.
  induction args as [|a args IH]; intros H; [reflexivity|].
  inversion H as [|? ? [Hne Hsp] Hrest]; subst.
  destruct args as [|b args].
  - simpl. rewrite split_without_separator by exact Hsp.
    now rewrite filter_cons_True by exact Hne.
  - change (join (a :: b :: args)) with (a ++ SPACE :: join (b :: args)).
    rewrite split_app_separator by exact Hsp.
    rewrite filter_cons_True by exact Hne. f_equal. now apply IH.
Qed.

(** X14: the arguments [main] reads from [OOK_COMMAND_ARGS].  Without the
    variable there are none.  With it, no argument is empty and no
    argument holds a space, so that runs of spaces and spaces at either
    end are dropped, and the arguments put together are the value
    without its spaces. *)
Theorem commandArgs_are_the_words (env : ProcessManager.Env) :
  Forall (fun a => a ≠ [] ∧ SPACE ∉ a) (commandArgs env)
  ∧ (obj_get (js "OOK_COMMAND_ARGS") env = None → commandArgs env = [])
  ∧ (∀ v, obj_get (js "OOK_COMMAND_ARGS") env = Some v →
          concat (commandArgs env) = filter (fun c => c ≠ SPACE) v).
Proof.
  unfold commandArgs. split; [|split].
  - destruct (obj_get _ env) as [v|]; [|constructor].
    unfold filterBoolean. rewrite Forall_forall. intros a Ha.
    apply list_elem_of_filter in Ha as [Hne Ha]. split; [exact Hne|].
    pose proof (split_no_separator SPACE v) as Hs.
    rewrite Forall_forall in Hs. now apply Hs.
  - now intros ->.
  - intros v ->. now rewrite concat_filterBoolean, concat_split.
Qed.

(** X14 at the value [" --verbose  --model x "]. *)
Lemma commandArgs_are_the_words_witness :
  commandArgs [(js "OOK_COMMAND_ARGS", js " --verbose  --model x ")]
  = [js "--verbose"; js "--model"; js "x"]
  ∧ concat (commandArgs [(js "OOK_COMMAND_ARGS", js " --verbose  --model x ")])
    = js "--verbose--modelx".
Proof.
  split; [reflexivity|].
  destruct (commandArgs_are_the_words
              [(js "OOK_COMMAND_ARGS", js " --verbose  --model x ")]) as (_ & _ & H).
  rewrite (H _ eq_refl). reflexivity.
Defined.

(** X15: arguments that are not empty and hold no space, joined by single
    spaces in [OOK_COMMAND_ARGS], are read back as they are. *)
Theorem commandArgs_read_back (env : ProcessManager.Env) (args : list JsString) :
  Forall (fun a => a ≠ [] ∧ SPACE ∉ a) args →
  obj_get (js "OOK_COMMAND_ARGS") env = Some (join args) →
  commandArgs env = args.
Proof.
  intros Hargs Henv. unfold commandArgs. rewrite Henv.
  now apply commandArgs_join.
Qed.

(** X15 at the arguments [--port] and [9000]. *)
Lemma commandArgs_read_back_witness :
  commandArgs [(js "OOK_COMMAND_ARGS", js "--port 9000")] = [js "--port"; js "9000"].
Proof.
  apply (commandArgs_read_back _ [js "--port"; js "9000"]); [|reflexivity].
  repeat constructor; try discriminate; vm_compute; intros H;
    repeat (apply elem_of_cons in H as [H|H]; [discriminate H|]);
    now apply elem_of_nil in H.
Defined.

End CommandArgs.

(* ===================================================================== *)
(** * The properties at concrete inputs                                    *)
(* ===================================================================== *)

Section Examples.

Import BridgeServer.

Lemma connected_reachable :
  reachable Demo.parse Demo.parentEnv Demo.config Demo.connected.
Proof. exists [Connection Demo.piped]. vm_compute. reflexivity. Defined.

Lemma initializing_reachable :
  reachable Demo.parse Demo.parentEnv Demo.config Demo.initializing.
Proof.
  exists [Connection Demo.piped; WsMessage 0 Demo.initializeRequest 100 true].
  vm_compute. reflexivity.
Defined.

Lemma twoPending_reachable :
  reachable Demo.parse Demo.parentEnv Demo.config Demo.twoPending.
Proof.
  exists [Connection Demo.piped; WsMessage 0 Demo.initializeRequest 100 true;
          WsMessage 0 Demo.promptRequest 150 true].
  vm_compute. reflexivity.
Defined.

(** [single_user_admission] at a server with one open peer: a second and
    a third attempt are both closed with 1013, and at most one socket is
    admitted and open. *)
Lemma single_user_admission_witness :
  Demo.run [Connection Demo.piped; Connection Demo.piped] Demo.connected
  = setSockets (sockets Demo.connected
                ++ [ws_close 1013 BUSY_REASON newSocket;
                    ws_close 1013 BUSY_REASON newSocket]) Demo.connected
  ∧ atMostOneAdmitted
      (Demo.run [Connection Demo.piped; Connection Demo.piped; Connection Demo.piped]
                init).
Proof.
  destruct (single_user_admission Demo.parse Demo.parentEnv Demo.config)
    as (_ & Hbusy & Hinv & _).
  split.
  - apply (Hbusy [Demo.piped; Demo.piped] Demo.connected); reflexivity.
  - apply (Hinv [Demo.piped; Demo.piped; Demo.piped] init).
    intros i w Hi. destruct i; discriminate Hi.
Defined.

(** C2: the server admits a peer next to an open one.  On [lateClose]
    the process of the first peer exits, the server closes that peer's
    socket, and a second peer is admitted while the socket is closing.
    The ["close"] event of the first socket then runs the listener of
    [start()], which clears [activeConnection] and kills the process
    manager without looking at which socket has closed: no connection is
    active although the second peer is open, and its process is sent
    SIGTERM.  The third connection is therefore admitted, not closed with
    1013, and two sockets are admitted and open at the same time. *)
Theorem stale_close_admits_second_peer :
  let s := Demo.run [WsClose 0] Demo.secondPeer in
  let s' := Demo.run [Connection Demo.piped] s in
  Demo.run Demo.lateClose init = s'
  ∧ activeConnection Demo.secondPeer = Some 1%nat
  ∧ sockets Demo.secondPeer !! 1%nat = Some (ws_on newSocket)
  ∧ activeConnection s = None
  ∧ activeIsOpen s = false
  ∧ sockets s !! 1%nat = Some (ws_on newSocket)
  ∧ (∃ pm c,
        procs s !! 1%nat = Some pm
        ∧ ProcessManager.process pm = Some c
        ∧ ProcessManager.signals c = [ProcessManager.SIGTERM])
  ∧ activeConnection s' = Some 2%nat
  ∧ sockets s' !! 1%nat = Some (ws_on newSocket)
  ∧ sockets s' !! 2%nat = Some (ws_on newSocket)
  ∧ admittedOpen (ws_on newSocket) = true
  ∧ closeCalls (ws_on newSocket) = []
  ∧ ¬ atMostOneAdmitted s'.
Proof.
  cbv zeta.
  split; [vm_compute; reflexivity|].
  split; [vm_compute; reflexivity|].
  split; [vm_compute; reflexivity|].
  split; [vm_compute; reflexivity|].
  split; [vm_compute; reflexivity|].
  split; [vm_compute; reflexivity|].
  split.
  { eexists _, _. split; [vm_compute; reflexivity|].
    split; [vm_compute; reflexivity|]. vm_compute. reflexivity. }
  split; [vm_compute; reflexivity|].
  split; [vm_compute; reflexivity|].
  split; [vm_compute; reflexivity|].
  split; [reflexivity|].
  split; [reflexivity|].
  intros H.
  assert (E : 1%nat = 2%nat); [|discriminate E].
  apply (H 1%nat 2%nat (ws_on newSocket) (ws_on newSocket));
    try reflexivity; vm_compute; reflexivity.
Qed.

(** C3: the flag goes from [false] to [true] twice while one peer is
    connected.  On [lateCloseSession] the second peer of [lateClose] has
    two [initialize] requests pending; the answer to the first sets the
    flag; the ["close"] event of the first peer's socket runs the listener
    of [start()], which clears the flag without looking at which socket
    has closed; the answer to the second sets the flag again, and is
    not sent to the peer, since no connection is active any more.  The
    socket of the second peer is open from its admission to the end, and
    no event is its ["close"]. *)
Theorem stale_close_authenticates_twice :
  let run := BridgeServer.run Demo.parseHandshake Demo.parentEnv Demo.config in
  let s := run Demo.lateCloseSession Demo.secondPeer in
  activeConnection Demo.secondPeer = Some 1%nat
  ∧ sockets Demo.secondPeer !! 1%nat = Some (ws_on newSocket)
  ∧ sessionAuthenticated Demo.secondPeer = false
  ∧ forallb (fun e => negb (isCloseOf 1 e)) Demo.lateCloseSession = true
  ∧ flips Demo.parseHandshake Demo.parentEnv Demo.config
          Demo.lateCloseSession Demo.secondPeer = 2%nat
  ∧ sessionAuthenticated (run (take 2 Demo.lateCloseSession) Demo.secondPeer) = false
  ∧ sessionAuthenticated (run (take 3 Demo.lateCloseSession) Demo.secondPeer) = true
  ∧ sessionAuthenticated (run (take 4 Demo.lateCloseSession) Demo.secondPeer) = false
  ∧ sessionAuthenticated s = true
  ∧ ∃ w, sockets s !! 1%nat = Some w
         ∧ admittedOpen w = true
         ∧ closeCalls w = []
         ∧ sent w = [Demo.resultResponse].
Proof.
  cbv zeta.
  split; [vm_compute; reflexivity|].
  split; [vm_compute; reflexivity|].
  split; [vm_compute; reflexivity|].
  split; [vm_compute; reflexivity|].
  split; [vm_compute; reflexivity|].
  split; [vm_compute; reflexivity|].
  split; [vm_compute; reflexivity|].
  split; [vm_compute; reflexivity|].
  split; [vm_compute; reflexivity|].
  eexists. split; [vm_compute; reflexivity|].
  split; [vm_compute; reflexivity|].
  split; vm_compute; reflexivity.
Qed.

(** [authenticated_only_by_initialize] on [twoPending]: the answer to
    [initialize] sets the flag, an error answer does not, and two answers
    in a row flip it once. *)
Lemma authenticated_only_by_initialize_witness :
  (∃ pending,
      map_get (JNum Demo.one) (pendingRequests Demo.twoPending) = Some pending
      ∧ method pending = JStr INITIALIZE)
  ∧ sessionAuthenticated
      (handleOutgoingMessage Demo.parse Demo.errorResponse 175 Demo.twoPending)
    = false
  ∧ (flips Demo.parse Demo.parentEnv Demo.config
           [ProcStdout 0 Demo.resultResponse 175; ProcStdout 0 Demo.promptResponse 180]
           Demo.twoPending ≤ 1)%nat.
Proof.
  destruct (authenticated_only_by_initialize Demo.parse Demo.parentEnv Demo.config)
    as (Honly & _ & Hnever & Honce).
  split; [|split].
  - destruct (Honly (ProcStdout 0 Demo.resultResponse 175) Demo.twoPending
                    eq_refl eq_refl)
      as (p & line & now & parsed & id & pending & He & Hp & Hid & Hg & Hm & _).
    injection He as <- <- <-.
    exists pending. split; [|exact Hm].
    vm_compute in Hp. injection Hp as <-.
    vm_compute in Hid. injection Hid as <-. exact Hg.
  - rewrite (Hnever Demo.errorResponse 175 Demo.twoPending
               (JObj [(js "id", JNum Demo.one);
                      (js "error", JObj [(js "message", JStr (js "denied"))])])
               (JNum Demo.one)
               {| startTime := 100; method := JStr INITIALIZE; span := 0 |});
      [reflexivity|reflexivity|right; reflexivity].
  - apply Honce. reflexivity.
Defined.

(** C4 with the id [1] and the method ["initialize"]: the request sent at
    time 100 is answered at time 175. *)
Lemma pending_request_resolved_once_witness :
  map_get (JNum Demo.one) (pendingRequests Demo.initializing)
  = Some {| startTime := 100; method := JStr INITIALIZE; span := 0 |}
  ∧ let s' := handleOutgoingMessage Demo.parse Demo.resultResponse 175 Demo.twoPending in
    S (map_size (pendingRequests s')) = 2%nat
    ∧ map_get (JNum Demo.one) (pendingRequests s') = None
    ∧ latencySamples (telemetry s') = [(75, JStr INITIALIZE)]
    ∧ latencySamples
        (telemetry (handleOutgoingMessage Demo.parse Demo.resultResponse 190 s'))
      = [(75, JStr INITIALIZE)].
Proof.
  destruct (pending_request_resolved_once Demo.parse (JNum Demo.one) (JStr INITIALIZE)
                                          eq_refl) as [Hnew Hres].
  split.
  - exact (Hnew Demo.initializeRequest 100 true Demo.connected eq_refl).
  - destruct (Hres Demo.resultResponse 175
                   (JObj [(js "id", JNum Demo.one); (js "result", JObj [])])
                   {| startTime := 100; method := JStr INITIALIZE; span := 0 |}
                   Demo.twoPending
                   (reachable_wf _ _ _ _ twoPending_reachable)
                   eq_refl eq_refl eq_refl eq_refl)
      as (_ & Hsize & Hnone & _ & Hlat & Htwice).
    destruct (Htwice Demo.resultResponse 190
                     (JObj [(js "id", JNum Demo.one); (js "result", JObj [])])
                     eq_refl eq_refl) as [_ Hsame].
    cbv zeta in Hsame. cbv zeta.
    refine (conj Hsize (conj Hnone (conj Hlat _))).
    rewrite Hsame. exact Hlat.
Defined.

(** C5 on [twoPending]: the process exits with code 1 while two requests
    are pending. *)
Lemma process_exit_fails_pending_spans_witness :
  let s' := Demo.step (ProcExit 0 (Some 1) None) Demo.twoPending in
  endedSpans (telemetry s') = [0%nat; 1%nat]
  ∧ pendingRequests s' = []
  ∧ sockets s'
    = alter (ws_close 1011 PROCESS_EXITED_REASON) 0%nat (sockets Demo.twoPending).
Proof.
  destruct (process_exit_fails_pending_spans
              Demo.parse Demo.parentEnv Demo.config 0 (Some 1) None Demo.twoPending
              _ _ (reachable_wf _ _ _ _ twoPending_reachable) eq_refl eq_refl eq_refl)
    as (_ & Hended & _ & _ & _ & Hempty & Hclose & _).
  cbv zeta.
  exact (conj Hended
           (conj Hempty (proj1 (Hclose 0%nat (ws_on newSocket) eq_refl eq_refl eq_refl)))).
Defined.

(** [peer_close_kills_and_next_peer_respawns] on [twoPending]: the peer
    goes, and a new peer comes. *)
Lemma peer_close_kills_and_next_peer_respawns_witness :
  processManager Demo.disconnected = None
  ∧ sessionAuthenticated Demo.disconnected = false
  ∧ procs Demo.disconnected = alter ProcessManager.kill 0%nat (procs Demo.twoPending)
  ∧ processManager (Demo.step (Connection Demo.piped) Demo.disconnected) = Some 1%nat.
Proof.
  destruct (peer_close_kills_and_next_peer_respawns
              Demo.parse Demo.parentEnv Demo.config) as [Hclose Hnext].
  destruct (Hclose 0%nat (ws_on newSocket) Demo.twoPending eq_refl eq_refl) as (_ & _ & Hpm & Hauth & Hprocs);
    [discriminate|].
  destruct (Hnext Demo.piped Demo.disconnected eq_refl eq_refl) as (Hnew & _).
  exact (conj Hpm (conj Hauth (conj Hprocs Hnew))).
Defined.

(** C6: the process of a peer that has gone reaches the next peer.  The
    ["close"] listener sends SIGTERM to the child and clears
    [processManager]; the next peer gets a new manager with a new child.
    But the listeners [ensureProcess] attached to the first manager stay,
    and they act on whatever connection is active: a line the first
    process writes before it exits is sent to the new peer, and its exit
    closes the new peer's socket with 1011 and the reason
    ["Process exited"], although the new peer's own process runs and has
    received no signal. *)
Theorem previous_process_reaches_next_peer :
  let s := Demo.run Demo.previousProcessEnds Demo.nextPeer in
  (∃ pm c,
      procs Demo.peerGone !! 0%nat = Some pm
      ∧ ProcessManager.process pm = Some c
      ∧ ProcessManager.signals c = [ProcessManager.SIGTERM]
      ∧ ProcessManager.exitCode c = None
      ∧ ProcessManager.killTimers pm = 1%nat)
  ∧ processManager Demo.peerGone = None
  ∧ activeConnection Demo.peerGone = None
  ∧ sessionAuthenticated Demo.peerGone = false
  ∧ telemetry Demo.peerGone
    = [ActiveConnections_add 1; ActiveConnections_add (-1)]
  ∧ processManager Demo.nextPeer = Some 1%nat
  ∧ activeConnection Demo.nextPeer = Some 1%nat
  ∧ sockets Demo.nextPeer !! 1%nat = Some (ws_on newSocket)
  ∧ (∃ w, sockets (Demo.run (take 1 Demo.previousProcessEnds) Demo.nextPeer) !! 1%nat
          = Some w
          ∧ sent w = [Demo.banner] ∧ readyState w = OPEN)
  ∧ (∃ w, sockets s !! 1%nat = Some w
          ∧ sent w = [Demo.banner]
          ∧ closeCalls w = [(1011, PROCESS_EXITED_REASON)]
          ∧ readyState w = CLOSING)
  ∧ processManager s = Some 1%nat
  ∧ ∃ pm c,
      procs s !! 1%nat = Some pm
      ∧ ProcessManager.isRunning pm = true
      ∧ ProcessManager.process pm = Some c
      ∧ ProcessManager.signals c = [].
Proof.
  cbv zeta.
  split.
  { eexists _, _. split; [vm_compute; reflexivity|].
    split; [vm_compute; reflexivity|]. repeat split; vm_compute; reflexivity. }
  split; [vm_compute; reflexivity|].
  split; [vm_compute; reflexivity|].
  split; [vm_compute; reflexivity|].
  split; [vm_compute; reflexivity|].
  split; [vm_compute; reflexivity|].
  split; [vm_compute; reflexivity|].
  split; [vm_compute; reflexivity|].
  split.
  { eexists. split; [vm_compute; reflexivity|]. split; vm_compute; reflexivity. }
  split.
  { eexists. split; [vm_compute; reflexivity|].
    split; [vm_compute; reflexivity|]. split; vm_compute; reflexivity. }
  split; [vm_compute; reflexivity|].
  eexists _, _. split; [vm_compute; reflexivity|].
  split; [vm_compute; reflexivity|].
  split; vm_compute; reflexivity.
Qed.

(** C9 on [initializing]: a second request with the id [1]. *)
Lemma duplicate_id_replaces_entry_witness :
  let s' := handleIncomingMessage Demo.parse Demo.duplicateRequest 120 true
                                  Demo.initializing in
  map_size (pendingRequests s') = 1%nat
  ∧ map_get (JNum Demo.one) (pendingRequests s')
    = Some {| startTime := 120; method := JStr (js "session/prompt"); span := 1 |}
  ∧ (0%nat ∉ closedSpans
        (telemetry (BridgeServer.run Demo.parse Demo.parentEnv Demo.config
                      [ProcStdout 0 Demo.resultResponse 175;
                       ProcExit 0 (Some 1) None] s')))
  ∧ map_size
      (map_set (JStr (js "1"))
               {| startTime := 2; method := JStr INITIALIZE; span := 1 |}
               (map_set (JNum Demo.one)
                        {| startTime := 1; method := JStr INITIALIZE; span := 0 |} []))
    = 2%nat.
Proof.
  destruct (duplicate_id_replaces_entry Demo.parse Demo.parentEnv Demo.config)
    as (Hrep & _ & Htwo).
  destruct (Hrep Demo.duplicateRequest 120 true Demo.initializing
                 (JNum Demo.one) (JStr (js "session/prompt"))
                 {| startTime := 100; method := JStr INITIALIZE; span := 0 |}
                 (reachable_wf _ _ _ _ initializing_reachable) eq_refl eq_refl)
    as (Hsize & Hget & _ & _ & Hnever).
  cbv zeta.
  exact (conj Hsize
           (conj Hget
              (conj (Hnever [ProcStdout 0 Demo.resultResponse 175;
                             ProcExit 0 (Some 1) None])
                    (Htwo Demo.one (js "1") [] _ _ eq_refl eq_refl)))).
Defined.

(** C10 on [connected]: a line that is not JSON, and an answer to an
    [initialize] that was never tracked. *)
Lemma untracked_output_only_forwarded_witness :
  sockets (handleOutgoingMessage Demo.parse Demo.banner 10 Demo.connected)
  = alter (ws_send Demo.banner) 0%nat (sockets Demo.connected)
  ∧ let s' := handleOutgoingMessage Demo.parse Demo.resultResponse 10 Demo.connected in
    pendingRequests s' = []
    ∧ sessionAuthenticated s' = false
    ∧ sockets s' = alter (ws_send Demo.resultResponse) 0%nat (sockets Demo.connected).
Proof.
  split.
  - destruct (untracked_output_only_forwarded Demo.parse Demo.banner 10 Demo.connected)
      as (_ & _ & Hopen & _); [left; reflexivity|].
    exact (proj1 (Hopen 0%nat (ws_on newSocket) eq_refl eq_refl eq_refl)).
  - destruct (untracked_output_only_forwarded
                Demo.parse Demo.resultResponse 10 Demo.connected)
      as (Hp & Ha & Hopen & _).
    { right. exists (JObj [(js "id", JNum Demo.one); (js "result", JObj [])]), (JNum Demo.one).
      repeat split; reflexivity. }
    cbv zeta.
    exact (conj Hp (conj Ha (proj1 (Hopen 0%nat (ws_on newSocket) eq_refl eq_refl eq_refl)))).
Defined.

Lemma resolved_reachable :
  reachable Demo.parse Demo.parentEnv Demo.config Demo.resolved.
Proof.
  exists [Connection Demo.piped; WsMessage 0 Demo.initializeRequest 100 true;
          WsMessage 0 Demo.promptRequest 150 true;
          ProcStdout 0 Demo.resultResponse 175].
  vm_compute. reflexivity.
Defined.

(** X1 at the ["close"] event of the peer of [twoPending]. *)
Lemma only_frames_and_exit_touch_pending_witness :
  pendingRequests (Demo.step (WsClose 0) Demo.twoPending)
  = pendingRequests Demo.twoPending.
Proof.
  exact (proj1 (only_frames_and_exit_touch_pending
                  Demo.parse Demo.parentEnv Demo.config
                  (WsClose 0) Demo.twoPending eq_refl)).
Defined.

(** X2 on [resolved]. *)
Lemma spans_end_once_after_one_status_witness :
  NoDup (endedSpans (telemetry Demo.resolved))
  ∧ (1%nat ∉ closedSpans (telemetry Demo.resolved)).
Proof.
  destruct (spans_end_once_after_one_status
              Demo.parse Demo.parentEnv Demo.config Demo.resolved resolved_reachable)
    as (_ & Hnd & Hopen).
  split; [exact Hnd|]. apply Hopen. vm_compute. apply list_elem_of_here.
Defined.

(** X3 on [resolved]: one sample, one request pending, two counted. *)
Lemma latency_samples_bounded_by_requests_witness :
  (length (latencySamples (telemetry Demo.resolved))
   + map_size (pendingRequests Demo.resolved)
   ≤ requestsCounted (telemetry Demo.resolved))%nat.
Proof.
  exact (latency_samples_bounded_by_requests
           Demo.parse Demo.parentEnv Demo.config Demo.resolved resolved_reachable).
Defined.

(** X4: a line that is not JSON goes to the running process of
    [twoPending], and is counted as failed when the write returns
    [false]; on [disconnected] nothing can be written. *)
Lemma frame_forwarded_whatever_it_holds_witness :
  writtenToProcess
    (handleIncomingMessage Demo.parse Demo.banner 160 false Demo.twoPending)
  = writtenToProcess Demo.twoPending ++ [Demo.banner ++ LF]
  ∧ sendFailures
      (telemetry (handleIncomingMessage Demo.parse Demo.banner 160 false
                                        Demo.twoPending))
    = (sendFailures (telemetry Demo.twoPending) + 1)%nat
  ∧ procs (handleIncomingMessage Demo.parse Demo.banner 160 true Demo.disconnected)
    = procs Demo.disconnected.
Proof.
  destruct (frame_forwarded_whatever_it_holds
              Demo.parse Demo.banner 160 false Demo.twoPending) as (_ & _ & Hyes & _).
  destruct (Hyes eq_refl) as [Hw Hf].
  destruct (frame_forwarded_whatever_it_holds
              Demo.parse Demo.banner 160 true Demo.disconnected) as (_ & _ & _ & Hno).
  destruct (Hno eq_refl) as [Hp _].
  exact (conj Hw (conj Hf Hp)).
Defined.

(** X5: the answer that resolves [initializeRequest] goes to the peer of
    [twoPending] as it is. *)
Lemma output_forwarded_whatever_it_holds_witness :
  sentToPeer (handleOutgoingMessage Demo.parse Demo.resultResponse 175 Demo.twoPending)
  = sentToPeer Demo.twoPending ++ [Demo.resultResponse].
Proof.
  destruct (output_forwarded_whatever_it_holds
              Demo.parse Demo.resultResponse 175 Demo.twoPending)
    as (_ & _ & _ & Hopen & _).
  exact (proj2 (Hopen 0%nat (ws_on newSocket) eq_refl eq_refl eq_refl)).
Defined.

(** X6: the first peer, with a child that has no standard output. *)
Lemma admission_closes_peer_when_pipes_missing_witness :
  sockets (Demo.step (Connection Demo.unpiped) init)
  = [ws_on (ws_close 1011 PROCESS_ERROR_REASON newSocket)]
  ∧ sockets (Demo.step (Connection Demo.piped) init) = [ws_on newSocket].
Proof.
  destruct (admission_closes_peer_when_pipes_missing
              Demo.parse Demo.parentEnv Demo.config Demo.unpiped init eq_refl eq_refl)
    as (_ & _ & Hbad).
  destruct (admission_closes_peer_when_pipes_missing
              Demo.parse Demo.parentEnv Demo.config Demo.piped init eq_refl eq_refl)
    as (_ & Hgood & _).
  exact (conj (proj1 (Hbad eq_refl)) (proj1 (Hgood eq_refl))).
Defined.

(** X8: a request with the id [[1]] on [connected], then the answer to
    another request and a line that is not JSON. *)
Lemma object_id_request_never_resolved_witness :
  let s' := handleIncomingMessage Demo.parseMore Demo.arrayIdRequest 50 true
                                  Demo.connected in
  (JArr [JNum Demo.one],
   {| startTime := 50; method := JStr (js "session/prompt"); span := 0 |})
  ∈ pendingRequests
      (BridgeServer.run Demo.parseMore Demo.parentEnv Demo.config
         [ProcStdout 0 Demo.resultResponse 60; ProcStdout 0 Demo.banner 70] s').
Proof.
  destruct (object_id_request_never_resolved
              Demo.parseMore Demo.parentEnv Demo.config
              Demo.arrayIdRequest 50 true Demo.connected
              (JArr [JNum Demo.one]) (JStr (js "session/prompt")) eq_refl eq_refl)
    as (_ & _ & _ & Hstays).
  exact (Hstays [ProcStdout 0 Demo.resultResponse 60; ProcStdout 0 Demo.banner 70]
                eq_refl).
Defined.

(** X9: a request with the id [{"toString":1}] on [connected], then the
    exit of the process. *)
Lemma unprintable_id_leaks_span_witness :
  let s' := handleIncomingMessage Demo.parseMore Demo.unprintableIdRequest 50 true
                                  Demo.connected in
  pendingRequests s' = []
  ∧ (0%nat ∉ endedSpans
        (telemetry (BridgeServer.run Demo.parseMore Demo.parentEnv Demo.config
                      [ProcExit 0 (Some 1) None] s'))).
Proof.
  destruct (unprintable_id_leaks_span
              Demo.parseMore Demo.parentEnv Demo.config
              Demo.unprintableIdRequest 50 true Demo.connected
              (JObj [(js "id", JObj [(js "toString", JNum Demo.one)]);
                     (js "method", JStr (js "session/prompt"))])
              (JObj [(js "toString", JNum Demo.one)])
              (JStr (js "session/prompt"))
              (reachable_wf _ _ _ _ connected_reachable)
              eq_refl eq_refl eq_refl eq_refl eq_refl eq_refl)
    as (Hp & _ & Hnever).
  cbv zeta.
  exact (conj Hp (proj2 (Hnever [ProcExit 0 (Some 1) None]))).
Defined.

(** X10 on the two entries of [twoPending]. *)
Lemma pending_entries_distinct_witness :
  sameValueZero (JNum Demo.one) (JNum Demo.two) = false.
Proof.
  destruct (pending_entries_distinct
              Demo.parse Demo.parentEnv Demo.config Demo.twoPending twoPending_reachable)
    as [Hpair _].
  exact (proj1 (Hpair 0%nat 1%nat _ _ _ _ (Nat.neq_0_succ 0) eq_refl eq_refl)).
Defined.

End Examples.
